(** * make_favicon_ico: packing square PNG icons into an ICO container

    A shallow embedding of [scripts/make_favicon_ico.py].  Python [int] is
    [Z], [bytes] is [list byte], [str] is [string] (code points below 256),
    [set[int]] is [gset Z], exceptions are values of [exn] carried by the
    [Res] error monad, and the file system, the glob oracle and the two
    output streams are threaded through [main] as an explicit [World]. *)

From Stdlib Require Import ZArith List Ascii String Strings.Byte Bool Lia.
From Stdlib Require Import DecimalString Sorting.Sorted Sorting.Permutation.
From Stdlib Require Structures.OrderedTypeEx.
From stdpp Require Import base gmap strings list.

Local Open Scope string_scope.
Local Open Scope list_scope.
Local Open Scope Z_scope.

(** ** Exceptions *)

(** The text of each [ValueError] the script raises, one constructor per
    [raise] site; the arguments are the values interpolated in the f-string. *)
Inductive message : Type :=
| NotAValidPngFile (path : string)
| InvalidIhdrChunk (path : string)
| IconMustBeSquare (path : string) (width height : Z)
| InvalidIconSize0x0 (path : string)
| InvalidSizeValue (token : string)
| SizeMustBePositive (value : Z)
| AtLeastOneSize
| NoIconsLeftAfterFiltering
| NoPngFilesFound
| TooManyIcons
| CannotBeStored (path : string) (size : Z).

(** [StructError] is [struct.error] (a field value outside its format's
    range, or a buffer of the wrong length); [OSError p] is an [OSError]
    raised by a call on the path [p]: a failed [open], [os.makedirs] or
    write. *)
Inductive exn : Type :=
| ValueError (m : message)
| StructError
| OSError (path : string).

(** The error kinds of the specification, by raise site. *)
Inductive error_kind : Type := FormatError | ConfigError | InputError.

Definition kind_of_message (m : message) : error_kind :=
  match m with
  | NotAValidPngFile _ | InvalidIhdrChunk _ | IconMustBeSquare _ _ _
  | InvalidIconSize0x0 _ | TooManyIcons | CannotBeStored _ _ => FormatError
  | InvalidSizeValue _ | SizeMustBePositive _ | AtLeastOneSize
  | NoIconsLeftAfterFiltering => ConfigError
  | NoPngFilesFound => InputError
  end.

Definition raises_kind {A : Type} (r : exn + A) (k : error_kind) : Prop :=
  exists m, r = inl (ValueError m) /\ kind_of_message m = k.

(** ** The error monad *)

Definition Res (A : Type) : Type := (exn + A)%type.
Definition Ok {A : Type} (a : A) : Res A := inr a.
Definition Raise {A : Type} (e : exn) : Res A := inl e.

Definition bindR {A B : Type} (r : Res A) (k : A -> Res B) : Res B :=
  match r with
  | inl e => inl e
  | inr a => k a
  end.

Notation "'let*' x ':=' r 'in' k" := (bindR r (fun x => k))
  (at level 10, x name, r at level 100, k at level 200).

(** ** Bytes and [struct] *)

Abbreviation bytes := (list byte).

Definition byte_to_Z (b : byte) : Z := Z.of_N (Byte.to_N b).

Definition byte_of_Z (z : Z) : byte :=
  match Byte.of_N (Z.to_N (Z.land z 255)) with
  | Some b => b
  | None => x00
  end.

Definition len {A : Type} (l : list A) : Z := Z.of_nat (length l).

(** [data[i:j]] for [0 <= i <= j]. *)
Definition slice {A : Type} (l : list A) (i j : nat) : list A :=
  firstn (j - i) (skipn i l).

Definition in_range (lo hi v : Z) : bool := (lo <=? v) && (v <=? hi).

(** [struct.pack("<B", v)], [("<H", v)] and [("<I", v)]. *)
Definition pack_B (v : Z) : Res bytes :=
  if in_range 0 255 v then Ok [byte_of_Z v] else Raise StructError.

Definition pack_H (v : Z) : Res bytes :=
  if in_range 0 65535 v
  then Ok [byte_of_Z v; byte_of_Z (Z.shiftr v 8)]
  else Raise StructError.

Definition pack_I (v : Z) : Res bytes :=
  if in_range 0 4294967295 v
  then Ok [byte_of_Z v; byte_of_Z (Z.shiftr v 8);
           byte_of_Z (Z.shiftr v 16); byte_of_Z (Z.shiftr v 24)]
  else Raise StructError.

(** [struct.unpack(">I", b)[0]]. *)
Definition unpack_BE_I (b : bytes) : Res Z :=
  match b with
  | [b3; b2; b1; b0] =>
      Ok (Z.lor (Z.shiftl (byte_to_Z b3) 24)
         (Z.lor (Z.shiftl (byte_to_Z b2) 16)
         (Z.lor (Z.shiftl (byte_to_Z b1) 8) (byte_to_Z b0))))
  | _ => Raise StructError
  end.

(** ** The icon record *)

Record PngIcon : Type := mkPngIcon {
  path : string;
  size : Z;
  data : bytes
}.

(** ** The ICO encoder *)

Definition ico_size_byte (size : Z) : Z :=
  if size =? 256 then 0 else size.

(** [struct.pack("<HHH", 0, 1, n)]. *)
Definition pack_header (n : Z) : Res bytes :=
  let* r := pack_H 0 in
  let* t := pack_H 1 in
  let* c := pack_H n in
  Ok (r ++ t ++ c).

(** [struct.pack("<BBBBHHII", width, height, 0, 0, 1, 32, bytes_in_res, offset)]. *)
Definition pack_entry (width height bytes_in_res offset : Z) : Res bytes :=
  let* w := pack_B width in
  let* h := pack_B height in
  let* pal := pack_B 0 in
  let* rsv := pack_B 0 in
  let* planes := pack_H 1 in
  let* bpp := pack_H 32 in
  let* n := pack_I bytes_in_res in
  let* off := pack_I offset in
  Ok (w ++ h ++ pal ++ rsv ++ planes ++ bpp ++ n ++ off).

(** The loop of [build_ico]; the state is [(entries, image_data, offset)]. *)
Fixpoint build_loop (icons : list PngIcon) (entries image_data : bytes)
    (offset : Z) : Res (bytes * bytes) :=
  match icons with
  | [] => Ok (entries, image_data)
  | icon :: rest =>
      if size icon >? 256
      then Raise (ValueError (CannotBeStored (path icon) (size icon)))
      else
        let width := ico_size_byte (size icon) in
        let height := ico_size_byte (size icon) in
        let bytes_in_res := len (data icon) in
        let* entry := pack_entry width height bytes_in_res offset in
        build_loop rest (entries ++ entry) (image_data ++ data icon)
                   (offset + bytes_in_res)
  end.

Definition build_ico (icons : list PngIcon) : Res bytes :=
  if len icons >? 65535 then Raise (ValueError TooManyIcons)
  else
    let* header := pack_header (len icons) in
    let* built := build_loop icons [] [] (6 + 16 * len icons) in
    let '(entries, image_data) := built in
    Ok (header ++ entries ++ image_data).

(** ** The PNG header parser *)

Definition PNG_SIGNATURE : bytes := [x89; x50; x4e; x47; x0d; x0a; x1a; x0a].

(** [b"IHDR"]. *)
Definition IHDR : bytes := [x49; x48; x44; x52].

#[global] Instance byte_eq_decision : EqDecision byte := Byte.byte_eq_dec.

Definition bytes_eqb (a b : bytes) : bool := bool_decide (a = b).

Definition startswith (data prefix : bytes) : bool :=
  bytes_eqb (firstn (length prefix) data) prefix.

(** The body of [read_png] after the file has been read into [data]. *)
Definition parse_png (path : string) (data : bytes) : Res PngIcon :=
  if (len data <? 33) || negb (startswith data PNG_SIGNATURE)
  then Raise (ValueError (NotAValidPngFile path))
  else
    let* ihdr_len := unpack_BE_I (slice data 8 12) in
    let ihdr_type := slice data 12 16 in
    if negb (bytes_eqb ihdr_type IHDR) || (ihdr_len <? 8)
    then Raise (ValueError (InvalidIhdrChunk path))
    else
      let* width := unpack_BE_I (slice data 16 20) in
      let* height := unpack_BE_I (slice data 20 24) in
      if negb (width =? height)
      then Raise (ValueError (IconMustBeSquare path width height))
      else if width =? 0
      then Raise (ValueError (InvalidIconSize0x0 path))
      else Ok (mkPngIcon path width data).

(** ** Strings: [split], [strip], [int], [str] *)

(** [s.split(sep)] for a one-character separator. *)
Fixpoint split (sep : ascii) (s : string) : list string :=
  match s with
  | EmptyString => [EmptyString]
  | String c r =>
      if Ascii.eqb c sep then EmptyString :: split sep r
      else match split sep r with
           | h :: t => String c h :: t
           | [] => [String c EmptyString]
           end
  end.

(** [c.isspace()] for a code point below 256. *)
Definition isspace (c : ascii) : bool :=
  let n := nat_of_ascii c in
  ((9 <=? n)%nat && (n <=? 13)%nat || (28 <=? n)%nat && (n <=? 32)%nat
   || (n =? 133)%nat || (n =? 160)%nat).

Fixpoint lstrip (s : string) : string :=
  match s with
  | EmptyString => EmptyString
  | String c r => if isspace c then lstrip r else s
  end.

Fixpoint rstrip (s : string) : string :=
  match s with
  | EmptyString => EmptyString
  | String c r =>
      match rstrip r with
      | EmptyString => if isspace c then EmptyString else String c EmptyString
      | r' => String c r'
      end
  end.

Definition strip (s : string) : string := rstrip (lstrip s).

Definition digit_of (c : ascii) : option Z :=
  let n := nat_of_ascii c in
  if (48 <=? n)%nat && (n <=? 57)%nat then Some (Z.of_nat n - 48) else None.

(** The digits of a decimal literal: single underscores are allowed between
    digits only. *)
Fixpoint int_digits (s : string) (acc : Z) (after_digit : bool) : option Z :=
  match s with
  | EmptyString => if after_digit then Some acc else None
  | String c r =>
      match digit_of c with
      | Some d => int_digits r (10 * acc + d) true
      | None =>
          if Ascii.eqb c "_" && after_digit then int_digits r acc false
          else None
      end
  end.

(** [int(s)]: [None] stands for the [ValueError] of a malformed literal.
    The interpreter's configurable limit on the number of digits of a
    literal is not modelled. *)
Definition int (s : string) : option Z :=
  match strip s with
  | String "+" r => int_digits r 0 false
  | String "-" r => option_map Z.opp (int_digits r 0 false)
  | t => int_digits t 0 false
  end.

(** [str(z)]. *)
Definition str (z : Z) : string := NilZero.string_of_int (Z.to_int z).

(** [sep.join(parts)]. *)
Definition join (sep : string) (parts : list string) : string :=
  String.concat sep parts.

(** ** [sorted] *)

Section Sorted.
Context {A : Type} (le : A -> A -> bool).

Fixpoint insert_sorted (x : A) (l : list A) : list A :=
  match l with
  | [] => [x]
  | y :: r => if le x y then x :: y :: r else y :: insert_sorted x r
  end.

(** A stable sort: an element goes before the elements it is not greater
    than, and elements are inserted from the last to the first. *)
Definition sort_by (l : list A) : list A := fold_right insert_sorted [] l.
End Sorted.

(** [sorted(l, key=key, reverse=reverse)] on integer keys. *)
Definition key_le {A : Type} (key : A -> Z) (reverse : bool) (a b : A) : bool :=
  if reverse then key b <=? key a else key a <=? key b.

Definition sorted {A : Type} (key : A -> Z) (reverse : bool) (l : list A)
  : list A := sort_by (key_le key reverse) l.

(** [sorted(l)] on strings. *)
Definition sorted_str (l : list string) : list string := sort_by String.leb l.

(** ** Selection and ordering *)

Definition DEFAULT_ICO_SIZES_DESC : list Z := [256; 128; 64; 48; 32; 24; 16].

Definition str_truthy (s : string) : bool :=
  match s with EmptyString => false | _ => true end.

Definition list_truthy {A : Type} (l : list A) : bool :=
  match l with [] => false | _ => true end.

(** The loop of [parse_sizes] over the tokens. *)
Fixpoint parse_tokens (tokens : list string) (sizes : gset Z) : Res (gset Z) :=
  match tokens with
  | [] => Ok sizes
  | token :: rest =>
      let token := strip token in
      if negb (str_truthy token) then parse_tokens rest sizes
      else
        match int token with
        | None => Raise (ValueError (InvalidSizeValue token))
        | Some value =>
            if value <=? 0 then Raise (ValueError (SizeMustBePositive value))
            else parse_tokens rest (sizes ∪ {[value]})
        end
  end.

Definition parse_sizes (raw : option string) : Res (option (gset Z)) :=
  match raw with
  | None => Ok None
  | Some raw =>
      if negb (str_truthy raw) then Ok None
      else
        let* sizes := parse_tokens (split "," raw) ∅ in
        if bool_decide (sizes = ∅) then Raise (ValueError AtLeastOneSize)
        else Ok (Some sizes)
  end.

Definition in_sizes (include_sizes : option (gset Z)) (s : Z) : bool :=
  match include_sizes with
  | None => true
  | Some sizes => bool_decide (s ∈ sizes)
  end.

(** The loop of [filter_icons]; each [continue] skips the icon. *)
Fixpoint filter_loop (icons : list PngIcon) (include_sizes : option (gset Z))
    (max_size : Z) (result : list PngIcon) : list PngIcon :=
  match icons with
  | [] => result
  | icon :: rest =>
      if size icon >? max_size then filter_loop rest include_sizes max_size result
      else if negb (in_sizes include_sizes (size icon))
      then filter_loop rest include_sizes max_size result
      else filter_loop rest include_sizes max_size (result ++ [icon])
  end.

Definition filter_icons (icons : list PngIcon)
    (include_sizes : option (gset Z)) (max_size : Z) : Res (list PngIcon) :=
  let result := filter_loop icons include_sizes max_size [] in
  if negb (list_truthy result)
  then Raise (ValueError NoIconsLeftAfterFiltering)
  else Ok result.

(** A Python [dict] keeps its keys in the order of their first insertion;
    [d[k] = v] on a present key replaces the value where it stands. *)
Fixpoint dict_set {V : Type} (k : Z) (v : V) (d : list (Z * V)) : list (Z * V) :=
  match d with
  | [] => [(k, v)]
  | (k', v') :: r => if k =? k' then (k, v) :: r else (k', v') :: dict_set k v r
  end.

Definition dict_values {V : Type} (d : list (Z * V)) : list V := map snd d.

Definition unique_by_size (icons : list PngIcon) : list PngIcon :=
  let by_size :=
    fold_left (fun by_size icon => dict_set (size icon) icon by_size) icons []
  in dict_values by_size.

Definition sort_icons (icons : list PngIcon) (order : string) : list PngIcon :=
  let reverse := String.eqb order "desc" in
  sorted size reverse icons.

(** ** The world: files, glob, output streams *)

(** What the program does to the outside, call by call: [Glob] and
    [OpenRead] are calls of [glob.glob] and [open(path, "rb")], whether they
    succeed or not; [Makedirs] is a call of [os.makedirs], which may fail;
    [WriteFile path content] says that the file was opened for writing and
    holds [content] when it is closed; [PrintOut] and [PrintErr] are the
    lines printed. *)
Inductive event : Type :=
| Glob (pattern : string)
| OpenRead (path : string)
| Makedirs (path : string)
| WriteFile (path : string) (content : bytes)
| PrintOut (line : string)
| PrintErr (exc : exn).

(** How the output stage ([os.makedirs], [open(path, "wb")], [out.write] and
    the close) ends for an output path: it goes through, or [os.makedirs]
    raises (some of the directories may have been made), or the directory
    is there and [open] raises, or the file is opened, and so truncated,
    and an error is raised when [written] bytes of the content are in the
    file. *)
Inductive write_result : Type :=
| Written
| MakedirsFails
| OpenFails
| WriteFails (written : nat).

(** [files] maps a file to its content and [file_id p] is the file that the
    path [p] names: two paths that name the same file (another spelling, a
    relative path, a link) have the same [file_id], and
    [open(p, "rb").read()] returns [files !! file_id p].  [changes] lists
    what the program has done to the file system so far: its [Makedirs] and
    [WriteFile] events.  [glob_after changes] is [glob.glob] and
    [output_after changes] the end of the output stage once [changes] are
    made: a directory made or a file written may show up in a later glob,
    and may change what a later write does.  [trace] lists the effects so
    far, oldest first.  [PrintErr exc] is the line ["error: " + str(exc)]
    on the error stream. *)
Record World : Type := mkWorld {
  files : gmap string bytes;
  file_id : string -> string;
  changes : list event;
  glob_after : list event -> string -> list string;
  output_after : list event -> string -> write_result;
  trace : list event
}.

(** [glob.glob(pattern)] in [w]. *)
Definition glob_glob (w : World) (pattern : string) : list string :=
  glob_after w (changes w) pattern.

(** How the output stage would end in [w] for the output path [p]. *)
Definition output_result (w : World) (p : string) : write_result :=
  output_after w (changes w) p.

(** [os.makedirs], [open(p, "wb")] and the write all succeed in [w]. *)
Definition writable (w : World) (p : string) : bool :=
  match output_result w p with
  | Written => true
  | _ => false
  end.

(** An effect that leaves the file system as it is. *)
Definition log (e : event) (w : World) : World :=
  mkWorld (files w) (file_id w) (changes w) (glob_after w) (output_after w)
          (trace w ++ [e]).

(** A call of [os.makedirs(d, exist_ok=True)]. *)
Definition makedirs (d : string) (w : World) : World :=
  mkWorld (files w) (file_id w) (changes w ++ [Makedirs d]) (glob_after w)
          (output_after w) (trace w ++ [Makedirs d]).

(** The file that [p] names now holds [content]. *)
Definition write_file (p : string) (content : bytes) (w : World) : World :=
  mkWorld (<[file_id w p := content]> (files w)) (file_id w)
          (changes w ++ [WriteFile p content]) (glob_after w) (output_after w)
          (trace w ++ [WriteFile p content]).

Definition IO (A : Type) : Type := World -> Res A * World.

Definition retIO {A : Type} (a : A) : IO A := fun w => (Ok a, w).

Definition liftR {A : Type} (r : Res A) : IO A := fun w => (r, w).

Definition bindIO {A B : Type} (m : IO A) (k : A -> IO B) : IO B :=
  fun w =>
    match m w with
    | (inl e, w') => (inl e, w')
    | (inr a, w') => k a w'
    end.

Notation "'let!' x ':=' m 'in' k" := (bindIO m (fun x => k))
  (at level 10, x name, m at level 100, k at level 200).

Fixpoint mapIO {A B : Type} (f : A -> IO B) (l : list A) : IO (list B) :=
  match l with
  | [] => retIO []
  | a :: r =>
      let! b := f a in
      let! bs := mapIO f r in
      retIO (b :: bs)
  end.

Definition read_png (path : string) : IO PngIcon :=
  fun w =>
    let w' := log (OpenRead path) w in
    match files w !! file_id w path with
    | None => (Raise (OSError path), w')
    | Some data => (parse_png path data, w')
    end.

(** ** Discovery *)

Fixpoint endswith_sep (s : string) : bool :=
  match s with
  | EmptyString => false
  | String c EmptyString => Ascii.eqb c "/"
  | String _ r => endswith_sep r
  end.

Definition startswith_sep (s : string) : bool :=
  match s with
  | String c _ => Ascii.eqb c "/"
  | EmptyString => false
  end.

(** [os.path.join(a, b)] (POSIX). *)
Definition path_join (a b : string) : string :=
  if startswith_sep b then b
  else if negb (str_truthy a) || endswith_sep a then (a ++ b)%string
  else (a ++ "/" ++ b)%string.

Definition opt_list_truthy {A : Type} (l : option (list A)) : bool :=
  match l with
  | Some l => list_truthy l
  | None => false
  end.

Definition discover_pngs (icons_dir : string)
    (explicit_inputs : option (list string)) : IO (list string) :=
  match explicit_inputs with
  | Some (p :: ps) => retIO (p :: ps)
  | _ =>
      let pattern := path_join icons_dir "icon-*.png" in
      fun w => (Ok (sorted_str (glob_glob w pattern)), log (Glob pattern) w)
  end.

(** ** [main] *)

Record Args : Type := mkArgs {
  icons_dir : string;
  output : string;
  inputs : option (list string);
  sizes : option string;
  order : string;
  max_size : Z
}.

(** The defaults of [parse_args]. *)
Definition default_args : Args :=
  mkArgs "public/icons" "public/icons/favicon.ico" None None "desc" 256.

Definition is_none {A : Type} (o : option A) : bool :=
  match o with None => true | Some _ => false end.

(** The default-size preference of [main]: the [if] that follows the parse
    of the icons. *)
Definition prefer_default_sizes (include_sizes : option (gset Z))
    (inputs : option (list string)) (icons : list PngIcon)
  : option (gset Z) :=
  if is_none include_sizes && negb (opt_list_truthy inputs) then
    let discovered_sizes : gset Z := list_to_set (map size icons) in
    let preferred :=
      List.filter (fun size => bool_decide (size ∈ discovered_sizes))
                  DEFAULT_ICO_SIZES_DESC in
    if list_truthy preferred then Some (list_to_set preferred)
    else include_sizes
  else include_sizes.

(** The [try] block of [main] once the icons are parsed: preference,
    filter, deduplication, sort and encoding. *)
Definition select_and_encode (args : Args) (include_sizes : option (gset Z))
    (icons : list PngIcon) : Res (list PngIcon * bytes) :=
  let include_sizes := prefer_default_sizes include_sizes (inputs args) icons in
  let* icons := filter_icons icons include_sizes (max_size args) in
  let icons := unique_by_size icons in
  let icons := sort_icons icons (order args) in
  let* ico_bytes := build_ico icons in
  Ok (icons, ico_bytes).

(** The [try] block of [main]. *)
Definition pipeline (args : Args) : IO (list PngIcon * bytes) :=
  let! include_sizes := liftR (parse_sizes (sizes args)) in
  let! png_paths := discover_pngs (icons_dir args) (inputs args) in
  if negb (list_truthy png_paths)
  then liftR (Raise (ValueError NoPngFilesFound))
  else
    let! icons := mapIO read_png png_paths in
    liftR (select_and_encode args include_sizes icons).

(** [os.path.dirname(p)] (POSIX). *)
Fixpoint has_sep (s : string) : bool :=
  match s with
  | EmptyString => false
  | String c r => Ascii.eqb c "/" || has_sep r
  end.

(** [p[:p.rfind("/") + 1]]. *)
Fixpoint upto_last_sep (p : string) : string :=
  match p with
  | EmptyString => EmptyString
  | String c r => if has_sep p then String c (upto_last_sep r) else EmptyString
  end.

(** [s.rstrip("/")]. *)
Fixpoint rstrip_sep (s : string) : string :=
  match s with
  | EmptyString => EmptyString
  | String c r =>
      match rstrip_sep r with
      | EmptyString => if Ascii.eqb c "/" then EmptyString else String c EmptyString
      | r' => String c r'
      end
  end.

Definition dirname (p : string) : string :=
  let head := upto_last_sep p in
  if str_truthy (rstrip_sep head) then rstrip_sep head else head.

Definition success_line (out : string) (icons : list PngIcon) : string :=
  let sizes := join ", " (map (fun icon => str (size icon)) icons) in
  ("Wrote " ++ out ++ " with " ++ str (len icons) ++ " images: " ++ sizes)%string.

(** How [main] ends: it returns a code, or an exception escapes it (the
    output stage is outside the [try]). *)
Inductive outcome : Type :=
| Return (code : Z)
| Uncaught (exc : exn).

(** The directory [main] makes for an output path:
    [os.path.dirname(output) or "."]. *)
Definition output_dir (out : string) : string :=
  let d := dirname out in
  if str_truthy d then d else ".".

Definition main (args : Args) (w : World) : outcome * World :=
  match pipeline args w with
  | (inl exc, w1) => (Return 1, log (PrintErr exc) w1)
  | (inr (icons, ico_bytes), w1) =>
      let w2 := makedirs (output_dir (output args)) w1 in
      match output_result w1 (output args) with
      | MakedirsFails => (Uncaught (OSError (output_dir (output args))), w2)
      | OpenFails => (Uncaught (OSError (output args)), w2)
      | WriteFails written =>
          (Uncaught (OSError (output args)),
           write_file (output args) (take written ico_bytes) w2)
      | Written =>
          let w3 := write_file (output args) ico_bytes w2 in
          (Return 0, log (PrintOut (success_line (output args) icons)) w3)
      end
  end.

(** The status of the process: [raise SystemExit(main())], or 1 after an
    uncaught exception. *)
Definition exit_code (o : outcome) : Z :=
  match o with
  | Return code => code
  | Uncaught _ => 1
  end.

(** * Specification-side definitions *)

(** ** The ICO layout, as a reader of the file sees it *)

(** The value of a little-endian field. *)
Definition decode_le (b : bytes) : Z :=
  fold_right (fun x acc => byte_to_Z x + 256 * acc) 0 b.

(** The [n]-byte little-endian field of [out] at position [pos]. *)
Definition field (out : bytes) (pos n : nat) : Z :=
  decode_le (slice out pos (pos + n)).

Definition le16 (v : Z) : bytes := [byte_of_Z v; byte_of_Z (Z.shiftr v 8)].

Definition le32 (v : Z) : bytes :=
  [byte_of_Z v; byte_of_Z (Z.shiftr v 8);
   byte_of_Z (Z.shiftr v 16); byte_of_Z (Z.shiftr v 24)].

Definition sum_len (icons : list PngIcon) : Z :=
  fold_right (fun icon acc => len (data icon) + acc) 0 icons.

(** [6 + 16*N +] the payload lengths of the entries before entry [i]. *)
Definition entry_offset (icons : list PngIcon) (i : nat) : Z :=
  6 + 16 * len icons + sum_len (firstn i icons).

Definition ico_header (n : Z) : bytes := le16 0 ++ le16 1 ++ le16 n.

Definition ico_entry (icon : PngIcon) (offset : Z) : bytes :=
  [byte_of_Z (ico_size_byte (size icon)); byte_of_Z (ico_size_byte (size icon));
   x00; x00] ++ le16 1 ++ le16 32 ++ le32 (len (data icon)) ++ le32 offset.

Definition ico_directory (icons : list PngIcon) : bytes :=
  concat (imap (fun i icon => ico_entry icon (entry_offset icons i)) icons).

Definition payloads (icons : list PngIcon) : bytes := concat (map data icons).

(** An icon the directory can describe when its payload starts at [offset]. *)
Definition fits (icon : PngIcon) (offset : Z) : Prop :=
  0 <= size icon <= 256 /\ len (data icon) <= 4294967295
  /\ offset <= 4294967295.

(** The directory written from a running offset. *)
Fixpoint directory_from (icons : list PngIcon) (offset : Z) : bytes :=
  match icons with
  | [] => []
  | icon :: rest =>
      ico_entry icon offset ++ directory_from rest (offset + len (data icon))
  end.

Fixpoint fits_from (icons : list PngIcon) (offset : Z) : Prop :=
  match icons with
  | [] => True
  | icon :: rest => fits icon offset /\ fits_from rest (offset + len (data icon))
  end.

(** ** PNG headers, as the format states them *)

(** The value of a big-endian field. *)
Definition decode_be (b : bytes) : Z :=
  fold_left (fun acc x => 256 * acc + byte_to_Z x) b 0.

Definition png_width (data : bytes) : Z := decode_be (slice data 16 20).
Definition png_height (data : bytes) : Z := decode_be (slice data 20 24).
Definition ihdr_length (data : bytes) : Z := decode_be (slice data 8 12).

(** The conditions under which the parser accepts a file. *)
Record accepted_png (data : bytes) : Prop := mkAccepted {
  long_enough : 33 <= len data;
  has_signature : slice data 0 8 = PNG_SIGNATURE;
  has_ihdr : slice data 12 16 = IHDR;
  ihdr_long_enough : 8 <= ihdr_length data;
  is_square : png_width data = png_height data;
  not_empty : png_width data <> 0
}.

(** ** Selection, as the specification states it *)

(** The trimmed, non-empty tokens of a comma-separated size list. *)
Definition size_tokens (raw : string) : list string :=
  List.filter str_truthy (map strip (split "," raw)).

(** A token that reads as a positive integer. *)
Definition positive_token (t : string) : Prop :=
  exists v, int t = Some v /\ 0 < v.

(** A token that is not numeric, or not positive. *)
Definition rejected_token (t : string) : Prop :=
  int t = None \/ exists v, int t = Some v /\ v <= 0.

(** A size that is both preferred and discovered. *)
Definition preferred_and_discovered (icons : list PngIcon) (v : Z) : Prop :=
  v ∈ DEFAULT_ICO_SIZES_DESC /\ v ∈ map size icons.

(** The icons a filter is to keep: at most the maximum and, under an
    allow-list, in it. *)
Definition kept (include_sizes : option (gset Z)) (max_size : Z)
    (icon : PngIcon) : bool :=
  (size icon <=? max_size)
  && match include_sizes with
     | None => true
     | Some sizes => bool_decide (size icon ∈ sizes)
     end.

(** The icons of [l] whose size is [s], in the order of [l]. *)
Definition with_size (s : Z) (l : list PngIcon) : list PngIcon :=
  List.filter (fun icon => size icon =? s) l.

(** A dictionary keyed by size: no key twice, each icon under its size. *)
Definition by_size_ok (d : list (Z * PngIcon)) : Prop :=
  NoDup (map fst d) /\ Forall (fun kv => size (snd kv) = fst kv) d.

(** Non-increasing and non-decreasing order of sizes. *)
Definition size_ge (a b : PngIcon) : Prop := size b <= size a.
Definition size_le (a b : PngIcon) : Prop := size a <= size b.

(** Lexicographic order on strings, by code point. *)
Definition str_le (a b : string) : Prop := String.leb a b = true.

(** ** Effects, as an observer of the run sees them *)

(** [w'] is [w] after the events [evs], none of which changed the file
    system. *)
Definition extends (w w' : World) (evs : list event) : Prop :=
  files w' = files w /\ file_id w' = file_id w /\ changes w' = changes w
  /\ glob_after w' = glob_after w /\ output_after w' = output_after w
  /\ trace w' = trace w ++ evs.

(** An event that only looks at the file system. *)
Definition is_read (e : event) : Prop :=
  match e with
  | Glob _ | OpenRead _ => True
  | _ => False
  end.

(** [args] with another [--inputs]. *)
Definition with_inputs (args : Args) (i : option (list string)) : Args :=
  mkArgs (icons_dir args) (output args) i (sizes args) (order args)
         (max_size args).

(** ** Sample inputs *)

Definition be32 (v : Z) : bytes :=
  [byte_of_Z (Z.shiftr v 24); byte_of_Z (Z.shiftr v 16);
   byte_of_Z (Z.shiftr v 8); byte_of_Z v].

(** The smallest file [parse_png] accepts for an [s] x [s] image: signature,
    a 13-byte IHDR chunk (8-bit RGBA) and its checksum field. *)
Definition sample_png (s : Z) : bytes :=
  PNG_SIGNATURE ++ be32 13 ++ IHDR ++ be32 s ++ be32 s
  ++ [x08; x06; x00; x00; x00] ++ [x00; x00; x00; x00].

Definition sample_icon (p : string) (s : Z) : PngIcon :=
  mkPngIcon p s (sample_png s).

(** A 16 x 16 PNG file of 2^32 bytes: the 33-byte header above followed by
    4294967263 more bytes. *)
Definition huge_png : bytes := sample_png 16 ++ repeat x00 (Z.to_nat 4294967263).

Definition huge_icon : PngIcon := mkPngIcon "icon-16.png" 16 huge_png.

(** A record with a negative size: [read_png] never returns one, but the
    argument type of [build_ico] has it. *)
Definition negative_icon : PngIcon := mkPngIcon "icon.png" (-1) (sample_png 16).

Definition icon16_path : string := "public/icons/icon-16.png".
Definition icon32_path : string := "public/icons/icon-32.png".
Definition icon256_path : string := "public/icons/icon-256.png".

(** The three icons of the end-to-end scenario; [glob] lists them in no
    particular order. *)
Definition world3 : World :=
  mkWorld
    (list_to_map [(icon16_path, sample_png 16); (icon32_path, sample_png 32);
                  (icon256_path, sample_png 256)])
    (fun p => p) []
    (fun _ pattern =>
       if String.eqb pattern "public/icons/icon-*.png"
       then [icon32_path; icon256_path; icon16_path]
       else [])
    (fun _ _ => Written) [].

(** Only a 32 x 32 and a 256 x 256 icon. *)
Definition world2 : World :=
  mkWorld
    (list_to_map [(icon32_path, sample_png 32); (icon256_path, sample_png 256)])
    (fun p => p) []
    (fun _ pattern =>
       if String.eqb pattern "public/icons/icon-*.png"
       then [icon256_path; icon32_path]
       else [])
    (fun _ _ => Written) [].

(** The defaults with [--max-size 16]. *)
Definition args_max16 : Args :=
  mkArgs "public/icons" "public/icons/favicon.ico" None None "desc" 16.

(** The icons of the scenario for given file contents: as they are read
    (in the lexicographic order of the paths) and as the directory lists
    them. *)
Definition icons_as_read (d16 d32 d256 : bytes) : list PngIcon :=
  [mkPngIcon icon16_path 16 d16; mkPngIcon icon256_path 256 d256;
   mkPngIcon icon32_path 32 d32].

Definition icons_in_directory (d16 d32 d256 : bytes) : list PngIcon :=
  [mkPngIcon icon256_path 256 d256; mkPngIcon icon32_path 32 d32;
   mkPngIcon icon16_path 16 d16].

(** ** Variations of the arguments and of the world *)

(** [args] with another [--icons-dir]. *)
Definition with_icons_dir (args : Args) (d : string) : Args :=
  mkArgs d (output args) (inputs args) (sizes args) (order args)
         (max_size args).

(** [w] with another content of the directories, as [glob] sees them. *)
Definition with_glob (w : World) (g : string -> list string) : World :=
  mkWorld (files w) (file_id w) (changes w) (fun _ => g) (output_after w)
          (trace w).

(** What [open(p, "rb")] followed by the parse gives in [w]. *)
Definition read_result (w : World) (p : string) : Res PngIcon :=
  match files w !! file_id w p with
  | None => Raise (OSError p)
  | Some content => parse_png p content
  end.

(** The result of reading [paths] in order, and the paths opened on the
    way: reading stops at the first failure. *)
Fixpoint read_all (w : World) (paths : list string)
  : Res (list PngIcon) * list string :=
  match paths with
  | [] => (Ok [], [])
  | p :: rest =>
      match read_result w p with
      | inl e => (Raise e, [p])
      | inr icon =>
          let '(r, opened) := read_all w rest in
          (match r with inl e => inl e | inr icons => inr (icon :: icons) end,
           p :: opened)
      end
  end.

(** [w] after the events [evs]. *)
Definition log_all (evs : list event) (w : World) : World :=
  fold_left (fun w e => log e w) evs w.

(** ** Order of a deduplicated list *)

(** The elements of [l] in the order of their first occurrence. *)
Fixpoint first_occurrences (l : list Z) : list Z :=
  match l with
  | [] => []
  | x :: rest => x :: List.filter (fun y => negb (y =? x)) (first_occurrences rest)
  end.

(** [world3] with one more file, which is not a candidate. *)
Definition world3_and_notes : World :=
  mkWorld (<["notes.txt" := [x00]]> (files world3)) (file_id world3) []
          (glob_after world3) (output_after world3) [].

(** The three icons of the scenario again, the 16 x 16 one being the file
    of 2^32 bytes. *)
Definition world3_huge : World :=
  mkWorld (<[icon16_path := huge_png]> (files world3)) (file_id world3) []
          (glob_after world3) (output_after world3) [].

(** * Proofs *)

(** ** The model on small inputs *)

Example split_ex : split "," "16, 32,,x" = ["16"; " 32"; ""; "x"].
Proof. reflexivity. Qed.

Example split_empty_ex : split "," "" = [""].
Proof. reflexivity. Qed.

Example strip_ex : strip "  a b  " = "a b".
Proof. reflexivity. Qed.

Example int_ex :
  int "064" = Some 64 /\ int "+7" = Some 7 /\ int "-3" = Some (-3)
  /\ int "1_000" = Some 1000 /\ int "1__0" = None /\ int "_1" = None
  /\ int "1_" = None /\ int "12a" = None /\ int "" = None.
Proof. repeat split. Qed.

Example str_ex : str 0 = "0" /\ str 256 = "256" /\ str (-3) = "-3".
Proof. repeat split. Qed.

Example path_join_ex :
  path_join "public/icons" "icon-*.png" = "public/icons/icon-*.png"
  /\ path_join "icons/" "icon-*.png" = "icons/icon-*.png"
  /\ path_join "" "icon-*.png" = "icon-*.png".
Proof. repeat split. Qed.

Example dirname_ex :
  dirname "public/icons/favicon.ico" = "public/icons"
  /\ dirname "favicon.ico" = "" /\ dirname "/favicon.ico" = "/"
  /\ dirname "a//favicon.ico" = "a".
Proof. repeat split. Qed.

Example sorted_str_ex :
  sorted_str [icon32_path; icon256_path; icon16_path]
  = [icon16_path; icon256_path; icon32_path].
Proof. reflexivity. Qed.

Example pack_ex :
  pack_H 258 = Ok [x02; x01] /\ pack_I 54 = Ok [x36; x00; x00; x00]
  /\ pack_B 256 = Raise StructError /\ pack_B (-1) = Raise StructError.
Proof. repeat split. Qed.

Example ico_size_byte_ex : ico_size_byte 256 = 0 /\ ico_size_byte 200 = 200.
Proof. split; reflexivity. Qed.

Example parse_png_ex :
  parse_png "a.png" (sample_png 48) = Ok (sample_icon "a.png" 48)
  /\ parse_png "a.png" (firstn 32 (sample_png 48))
     = Raise (ValueError (NotAValidPngFile "a.png"))
  /\ parse_png "a.png" (PNG_SIGNATURE ++ be32 13 ++ IHDR ++ be32 48 ++ be32 32
                        ++ repeat x00 9)
     = Raise (ValueError (IconMustBeSquare "a.png" 48 32)).
Proof. repeat split. Qed.

Example unique_by_size_ex :
  map path (unique_by_size [sample_icon "a" 16; sample_icon "b" 32;
                            sample_icon "c" 16])
  = ["c"; "b"].
Proof. reflexivity. Qed.

Example main_trace_ex :
  trace (main default_args world3).2
  = [Glob "public/icons/icon-*.png"; OpenRead icon16_path;
     OpenRead icon256_path; OpenRead icon32_path; Makedirs "public/icons";
     WriteFile "public/icons/favicon.ico"
       (ico_header 3
        ++ ico_directory (icons_in_directory (sample_png 16) (sample_png 32)
                                             (sample_png 256))
        ++ sample_png 256 ++ sample_png 32 ++ sample_png 16);
     PrintOut "Wrote public/icons/favicon.ico with 3 images: 256, 32, 16"].
Proof. vm_compute. reflexivity. Qed.

(** ** Bytes *)

Lemma byte_to_Z_range b : 0 <= byte_to_Z b <= 255.
Proof.
  unfold byte_to_Z. pose proof (Byte.to_N_bounded b). lia.
Qed.

Lemma land_255 z : Z.land z 255 = z mod 256.
Proof. exact (Z.land_ones z 8 ltac:(lia)). Qed.

Lemma land_255_range z : 0 <= Z.land z 255 <= 255.
Proof. rewrite land_255. pose proof (Z.mod_pos_bound z 256). lia. Qed.

Lemma byte_to_of_Z z : byte_to_Z (byte_of_Z z) = z mod 256.
Proof.
  unfold byte_to_Z, byte_of_Z.
  pose proof (land_255_range z) as Hr.
  destruct (Byte.of_N (Z.to_N (Z.land z 255))) as [b|] eqn:E.
  - apply Byte.to_of_N in E. rewrite E, Z2N.id by lia. apply land_255.
  - apply Byte.of_N_None_iff in E. lia.
Qed.

Lemma decode_le16 v : 0 <= v <= 65535 -> decode_le (le16 v) = v.
Proof.
  intros Hv. unfold decode_le, le16. cbn [fold_right].
  rewrite !byte_to_of_Z, Z.shiftr_div_pow2 by lia.
  change (2 ^ 8) with 256.
  rewrite (Z.mod_small (v / 256)) by (split; [apply Z.div_pos|apply Z.div_lt_upper_bound]; lia).
  pose proof (Z.div_mod v 256). lia.
Qed.

Lemma decode_le32 v : 0 <= v <= 4294967295 -> decode_le (le32 v) = v.
Proof.
  intros Hv. unfold decode_le, le32. cbn [fold_right].
  rewrite !byte_to_of_Z, !Z.shiftr_div_pow2 by lia.
  change (2 ^ 8) with 256. change (2 ^ 16) with 65536.
  change (2 ^ 24) with 16777216.
  Z.div_mod_to_equations. lia.
Qed.

Lemma in_range_spec lo hi v : in_range lo hi v = true <-> lo <= v <= hi.
Proof. unfold in_range. rewrite andb_true_iff, !Z.leb_le. tauto. Qed.

(** ** Slices *)

Lemma slice_app_l {A} (x y : list A) (a b : nat) :
  (b <= length x)%nat -> slice (x ++ y) a b = slice x a b.
Proof.
  intros Hb. unfold slice.
  destruct (Nat.le_gt_cases a (length x)) as [Ha|Ha].
  - rewrite skipn_app, firstn_app, length_skipn.
    replace (b - a - (length x - a))%nat with 0%nat by lia.
    now rewrite firstn_O, app_nil_r.
  - now replace (b - a)%nat with 0%nat by lia.
Qed.

Lemma slice_app_r {A} (x y : list A) (a b : nat) :
  slice (x ++ y) (length x + a) (length x + b) = slice y a b.
Proof.
  unfold slice. rewrite skipn_app, skipn_all2 by lia.
  cbn [app]. f_equal; [lia|f_equal; lia].
Qed.

(** ** The encoder *)

Lemma gtb_false a b : (a >? b) = false <-> a <= b.
Proof. rewrite Z.gtb_ltb. apply Z.ltb_ge. Qed.

Lemma gtb_true a b : (a >? b) = true <-> a > b.
Proof. rewrite Z.gtb_ltb, Z.ltb_lt. lia. Qed.

(** Decide the range checks and size tests of the goal from the context. *)
Ltac decide_checks :=
  repeat match goal with
         | |- context [in_range ?lo ?hi ?v] =>
             replace (in_range lo hi v) with true
               by (symmetry; apply in_range_spec; lia)
         | |- context [?a >? ?b] =>
             first [ replace (a >? b) with false
                       by (symmetry; apply gtb_false; lia)
                   | replace (a >? b) with true
                       by (symmetry; apply gtb_true; lia) ]
         end.

Lemma len_nonneg {A} (l : list A) : 0 <= len l.
Proof. unfold len. lia. Qed.

Lemma len_app {A} (x y : list A) : len (x ++ y) = len x + len y.
Proof. unfold len. rewrite length_app. lia. Qed.

Lemma ico_size_byte_range s : 0 <= s <= 256 -> 0 <= ico_size_byte s <= 255.
Proof. unfold ico_size_byte. destruct (Z.eqb_spec s 256); lia. Qed.

Lemma ico_size_byte_range_inv s :
  s <= 256 -> 0 <= ico_size_byte s <= 255 -> 0 <= s <= 256.
Proof. unfold ico_size_byte. destruct (Z.eqb_spec s 256); lia. Qed.

Lemma pack_header_Ok n :
  0 <= n <= 65535 -> pack_header n = Ok (ico_header n).
Proof.
  intros Hn. unfold pack_header, pack_H. decide_checks. reflexivity.
Qed.

Lemma pack_entry_spec w h n off :
  pack_entry w h n off =
  if in_range 0 255 w && in_range 0 255 h
     && in_range 0 4294967295 n && in_range 0 4294967295 off
  then Ok ([byte_of_Z w; byte_of_Z h; x00; x00] ++ le16 1 ++ le16 32
           ++ le32 n ++ le32 off)
  else Raise StructError.
Proof.
  unfold pack_entry, pack_B, pack_H, pack_I.
  change (in_range 0 255 0) with true. change (in_range 0 65535 1) with true.
  change (in_range 0 65535 32) with true.
  destruct (in_range 0 255 w), (in_range 0 255 h),
    (in_range 0 4294967295 n), (in_range 0 4294967295 off); reflexivity.
Qed.

Lemma pack_entry_fits icon off :
  0 <= off -> fits icon off ->
  pack_entry (ico_size_byte (size icon)) (ico_size_byte (size icon))
             (len (data icon)) off = Ok (ico_entry icon off).
Proof.
  intros Hoff (Hs & Hl & Ho). rewrite pack_entry_spec.
  pose proof (ico_size_byte_range _ Hs) as Hb.
  pose proof (len_nonneg (data icon)) as Hd.
  decide_checks. reflexivity.
Qed.

Lemma pack_entry_Ok_inv icon off e :
  size icon <= 256 ->
  pack_entry (ico_size_byte (size icon)) (ico_size_byte (size icon))
             (len (data icon)) off = Ok e ->
  fits icon off /\ 0 <= off /\ e = ico_entry icon off.
Proof.
  intros Hs. rewrite pack_entry_spec.
  destruct (in_range 0 255 (ico_size_byte (size icon))) eqn:E1; [|discriminate].
  destruct (in_range 0 4294967295 (len (data icon))) eqn:E2; [|discriminate].
  destruct (in_range 0 4294967295 off) eqn:E3; [|discriminate].
  cbn [andb]. intros [= <-].
  apply in_range_spec in E1, E2, E3.
  pose proof (ico_size_byte_range_inv _ Hs E1).
  unfold fits. repeat split; try lia.
Qed.

Lemma payloads_cons icon rest : payloads (icon :: rest) = data icon ++ payloads rest.
Proof. reflexivity. Qed.

Lemma build_loop_fits icons : forall entries image_data offset,
  0 <= offset -> fits_from icons offset ->
  build_loop icons entries image_data offset =
  Ok (entries ++ directory_from icons offset, image_data ++ payloads icons).
Proof.
  induction icons as [|icon rest IH]; intros entries image_data offset Hoff Hfit.
  - cbn. now rewrite !app_nil_r.
  - destruct Hfit as [Hi Hrest]. cbn [build_loop].
    pose proof Hi as (Hs & _ & _).
    decide_checks.
    rewrite (pack_entry_fits _ _ Hoff Hi). cbn [bindR Ok].
    pose proof (len_nonneg (data icon)).
    rewrite IH by (auto; lia).
    cbn [directory_from]. now rewrite payloads_cons, <- !app_assoc.
Qed.

Lemma build_loop_Ok_inv icons : forall entries image_data offset r,
  build_loop icons entries image_data offset = Ok r ->
  icons = [] \/ (0 <= offset /\ fits_from icons offset).
Proof.
  induction icons as [|icon rest IH]; intros entries image_data offset r H.
  - now left.
  - right. cbn [build_loop] in H.
    destruct (size icon >? 256) eqn:Es; [discriminate|].
    apply gtb_false in Es.
    destruct (pack_entry _ _ _ _) as [e|entry] eqn:Ep; [discriminate|].
    apply (pack_entry_Ok_inv _ _ _ Es) in Ep as (Hfit & Hoff & ->).
    cbn [bindR] in H. apply IH in H as [->|[_ H]]; cbn [fits_from]; auto.
Qed.

(** The first failing icon decides the exception. *)
Lemma build_loop_oversized pre bad post : forall entries image_data offset,
  0 <= offset -> fits_from pre offset -> size bad > 256 ->
  build_loop (pre ++ bad :: post) entries image_data offset =
  Raise (ValueError (CannotBeStored (path bad) (size bad))).
Proof.
  induction pre as [|icon rest IH]; intros entries image_data offset Hoff Hfit Hbad.
  - cbn [app build_loop].
    now decide_checks.
  - destruct Hfit as [Hi Hrest]. cbn [app build_loop].
    pose proof Hi as (Hs & _ & _).
    decide_checks.
    rewrite (pack_entry_fits _ _ Hoff Hi). cbn [bindR Ok].
    pose proof (len_nonneg (data icon)).
    apply IH; auto; lia.
Qed.

(** ** The directory, entry by entry *)

Lemma ico_entry_length icon off : length (ico_entry icon off) = 16%nat.
Proof. reflexivity. Qed.

Lemma sum_len_cons icon rest :
  sum_len (icon :: rest) = len (data icon) + sum_len rest.
Proof. reflexivity. Qed.

Lemma sum_len_nonneg icons : 0 <= sum_len icons.
Proof.
  induction icons as [|icon rest IH]; [reflexivity|].
  rewrite sum_len_cons. pose proof (len_nonneg (data icon)). lia.
Qed.

Lemma sum_len_app a b : sum_len (a ++ b) = sum_len a + sum_len b.
Proof.
  induction a as [|icon rest IH]; [reflexivity|].
  cbn [app]. rewrite !sum_len_cons, IH. lia.
Qed.

Lemma payloads_len icons : len (payloads icons) = sum_len icons.
Proof.
  induction icons as [|icon rest IH]; [reflexivity|].
  rewrite payloads_cons, len_app, IH. reflexivity.
Qed.

Lemma directory_from_length icons : forall off,
  length (directory_from icons off) = (16 * length icons)%nat.
Proof.
  induction icons as [|icon rest IH]; intros off; [reflexivity|].
  cbn [directory_from]. rewrite length_app, IH, ico_entry_length.
  cbn [length]. lia.
Qed.

Lemma fits_from_lookup icons : forall off,
  fits_from icons off <->
  (forall i icon, icons !! i = Some icon ->
                  fits icon (off + sum_len (firstn i icons))).
Proof.
  induction icons as [|icon rest IH]; intros off.
  - split; [intros _ i icon H; discriminate | constructor].
  - cbn [fits_from]. rewrite IH. split.
    + intros [H0 Hr] [|i] x Hx; cbn in Hx |- *.
      * injection Hx as <-. now rewrite Z.add_0_r.
      * specialize (Hr i x Hx). now rewrite Z.add_assoc.
    + intros H. split.
      * specialize (H 0%nat icon eq_refl). cbn in H. now rewrite Z.add_0_r in H.
      * intros i x Hx. specialize (H (S i) x Hx). cbn in H.
        now rewrite Z.add_assoc in H.
Qed.

Lemma directory_from_imap icons : forall off,
  directory_from icons off =
  concat (imap (fun i icon => ico_entry icon (off + sum_len (firstn i icons))) icons).
Proof.
  induction icons as [|icon rest IH]; intros off; [reflexivity|].
  cbn [directory_from imap concat]. rewrite IH. cbn [firstn sum_len fold_right].
  rewrite Z.add_0_r. do 2 f_equal. apply imap_ext. intros i x _. cbn.
  now rewrite Z.add_assoc.
Qed.

Lemma directory_from_slice icons : forall off tail i icon a b,
  icons !! i = Some icon -> (b <= 16)%nat ->
  slice (directory_from icons off ++ tail) (16 * i + a) (16 * i + b) =
  slice (ico_entry icon (off + sum_len (firstn i icons))) a b.
Proof.
  induction icons as [|x rest IH]; intros off tail i icon a b Hi Hb;
    [discriminate|].
  cbn [directory_from]. rewrite <- app_assoc. destruct i as [|i].
  - injection Hi as <-. cbn [firstn sum_len fold_right]. rewrite Z.add_0_r.
    rewrite Nat.mul_0_r, !Nat.add_0_l.
    apply slice_app_l. rewrite ico_entry_length. exact Hb.
  - cbn in Hi.
    replace (16 * S i + a)%nat with (length (ico_entry x off) + (16 * i + a))%nat
      by (rewrite ico_entry_length; lia).
    replace (16 * S i + b)%nat with (length (ico_entry x off) + (16 * i + b))%nat
      by (rewrite ico_entry_length; lia).
    rewrite slice_app_r, (IH _ _ _ _ _ _ Hi Hb).
    cbn [firstn sum_len fold_right]. now rewrite Z.add_assoc.
Qed.

Lemma ico_directory_from icons :
  ico_directory icons = directory_from icons (6 + 16 * len icons).
Proof. unfold ico_directory. now rewrite directory_from_imap. Qed.

Lemma fits_from_entry_offset icons :
  fits_from icons (6 + 16 * len icons) <->
  (forall i icon, icons !! i = Some icon -> fits icon (entry_offset icons i)).
Proof. apply fits_from_lookup. Qed.

(** What [build_ico] returns when it returns. *)
Lemma build_ico_fits icons :
  len icons <= 65535 -> fits_from icons (6 + 16 * len icons) ->
  build_ico icons =
  Ok (ico_header (len icons) ++ ico_directory icons ++ payloads icons).
Proof.
  intros Hn Hfit. unfold build_ico. pose proof (len_nonneg icons) as H0.
  decide_checks.
  rewrite pack_header_Ok by lia. cbn [bindR Ok].
  rewrite build_loop_fits by (auto; lia). cbn [bindR Ok app].
  now rewrite ico_directory_from.
Qed.

Lemma build_ico_Ok_inv icons out :
  build_ico icons = Ok out ->
  len icons <= 65535 /\ fits_from icons (6 + 16 * len icons)
  /\ out = ico_header (len icons) ++ ico_directory icons ++ payloads icons.
Proof.
  intros H. pose proof H as H'. unfold build_ico in H'.
  destruct (len icons >? 65535) eqn:En; [discriminate|].
  apply gtb_false in En.
  assert (Hfit : fits_from icons (6 + 16 * len icons)).
  { pose proof (len_nonneg icons).
    rewrite pack_header_Ok in H' by lia. cbn [bindR Ok] in H'.
    destruct (build_loop _ _ _ _) as [e|r] eqn:El; [discriminate|].
    apply build_loop_Ok_inv in El as [->|[_ El]]; [constructor|exact El]. }
  rewrite (build_ico_fits _ En Hfit) in H. injection H as <-. auto.
Qed.

(** The fields of the output. *)
Lemma out_entry_slice icons i icon a b :
  icons !! i = Some icon -> (b <= 16)%nat ->
  slice (ico_header (len icons) ++ ico_directory icons ++ payloads icons)
        (6 + 16 * i + a) (6 + 16 * i + b) =
  slice (ico_entry icon (entry_offset icons i)) a b.
Proof.
  intros Hi Hb.
  change 6%nat with (length (ico_header (len icons))).
  rewrite <- !Nat.add_assoc, slice_app_r, ico_directory_from.
  now rewrite (directory_from_slice _ _ _ _ _ _ _ Hi Hb).
Qed.

Lemma out_length icons :
  len (ico_header (len icons) ++ ico_directory icons ++ payloads icons)
  = 6 + 16 * len icons + sum_len icons.
Proof.
  rewrite !len_app, payloads_len, ico_directory_from.
  assert (Hd : len (directory_from icons (6 + 16 * len icons)) = 16 * len icons)
    by (unfold len; rewrite directory_from_length; lia).
  rewrite Hd. change (len (ico_header (len icons))) with 6. lia.
Qed.

Lemma huge_png_len : len huge_png = 4294967296.
Proof.
  unfold huge_png. rewrite len_app. unfold len at 2.
  rewrite repeat_length, Z2Nat.id by lia. reflexivity.
Qed.

Lemma huge_icon_not_packed entries image_data offset rest :
  build_loop (huge_icon :: rest) entries image_data offset = Raise StructError.
Proof.
  cbn [build_loop]. change (size huge_icon >? 256) with false. cbv iota.
  rewrite pack_entry_spec. change (data huge_icon) with huge_png.
  rewrite huge_png_len. change (in_range 0 4294967295 4294967296) with false.
  rewrite andb_false_r. reflexivity.
Qed.

(** C1, as stated, fails: one 16 x 16 icon whose file is 2^32 bytes long is
    within the stated bounds (size <= 256, N <= 65535), yet [build_ico]
    returns nothing, as the 32-bit length field cannot hold 2^32; and so it
    is for a record of negative size, which the width byte cannot hold. *)
Lemma build_ico_layout_counterexample :
  len [huge_icon] <= 65535
  /\ Forall (fun icon => size icon <= 256) [huge_icon]
  /\ build_ico [huge_icon] = Raise StructError
  /\ (~ exists out, build_ico [huge_icon] = Ok out)
  /\ Forall (fun icon => size icon <= 256) [negative_icon]
  /\ build_ico [negative_icon] = Raise StructError.
Proof.
  assert (H : build_ico [huge_icon] = Raise StructError).
  { unfold build_ico. change (len [huge_icon]) with 1.
    change (1 >? 65535) with false. cbv iota.
    change (pack_header 1) with (Ok (ico_header 1)). cbn [bindR Ok].
    now rewrite huge_icon_not_packed. }
  split; [change (len [huge_icon]) with 1; lia|]. split.
  - constructor; [change (size huge_icon) with 16; lia|constructor].
  - split; [exact H|]. split.
    + intros [out Hout]. rewrite H in Hout. discriminate.
    + split; [repeat constructor; discriminate|reflexivity].
Qed.

(** C1 (amended): [build_ico] returns an output exactly for the icon lists
    of length N <= 65535 in which each icon has 0 <= size <= 256 and a
    payload length and offset that fit in 32 bits; the output is then
    header || directory || payloads: a 6-byte header with the little-endian
    fields 0, 1, N; 16 bytes per entry, entry i holding the payload length
    and the offset 6 + 16*N + the payload lengths of the entries before i;
    the payloads in entry order; and the last entry's offset plus its
    length is the length of the output. *)
Theorem build_ico_layout (icons : list PngIcon) :
  ((exists out, build_ico icons = Ok out) <->
   len icons <= 65535
   /\ forall i icon, icons !! i = Some icon -> fits icon (entry_offset icons i))
  /\ (len icons <= 65535 ->
      (forall i icon, icons !! i = Some icon -> fits icon (entry_offset icons i)) ->
      let out := ico_header (len icons) ++ ico_directory icons ++ payloads icons in
      build_ico icons = Ok out
      /\ length (ico_header (len icons)) = 6%nat
      /\ field out 0 2 = 0 /\ field out 2 2 = 1 /\ field out 4 2 = len icons
      /\ length (ico_directory icons) = (16 * length icons)%nat
      /\ payloads icons = concat (map data icons)
      /\ (forall i icon, icons !! i = Some icon ->
            field out (6 + 16 * i + 8) 4 = len (data icon)
            /\ field out (6 + 16 * i + 12) 4 = entry_offset icons i
            /\ entry_offset icons i
               = 6 + 16 * len icons + sum_len (firstn i icons))
      /\ (forall icon, last icons = Some icon ->
            entry_offset icons (length icons - 1) + len (data icon) = len out)).
Proof.
  split.
  { split.
    - intros [out Hout]. apply build_ico_Ok_inv in Hout as (Hn & Hfit & _).
      split; [exact Hn|now apply fits_from_entry_offset].
    - intros [Hn Hfit]. eexists. apply build_ico_fits; [exact Hn|].
      now apply fits_from_entry_offset. }
  intros Hn Hfit out. pose proof (len_nonneg icons) as H0.
  split; [apply build_ico_fits; [exact Hn|now apply fits_from_entry_offset]|].
  split; [reflexivity|].
  assert (Hh : forall a b, (b <= 6)%nat ->
             slice out a b = slice (ico_header (len icons)) a b)
    by (intros a b Hb; now apply slice_app_l).
  split; [unfold field; rewrite Hh by lia; reflexivity|].
  split; [unfold field; rewrite Hh by lia; reflexivity|].
  split; [unfold field; rewrite Hh by lia; apply (decode_le16 (len icons)); lia|].
  split; [rewrite ico_directory_from; apply directory_from_length|].
  split; [reflexivity|]. split.
  - intros i icon Hi. destruct (Hfit i icon Hi) as (Hs & Hl & Ho).
    pose proof (len_nonneg (data icon)). pose proof (sum_len_nonneg (firstn i icons)).
    unfold field, out.
    replace (6 + 16 * i + 8 + 4)%nat with (6 + 16 * i + 12)%nat by lia.
    replace (6 + 16 * i + 12 + 4)%nat with (6 + 16 * i + 16)%nat by lia.
    rewrite !(out_entry_slice icons i icon) by (auto; lia).
    change (slice (ico_entry icon (entry_offset icons i)) 8 12)
      with (le32 (len (data icon))).
    change (slice (ico_entry icon (entry_offset icons i)) 12 16)
      with (le32 (entry_offset icons i)).
    rewrite !decode_le32; [auto| |lia].
    unfold entry_offset in *. lia.
  - intros icon Hlast. unfold out. rewrite out_length.
    apply last_Some in Hlast as [pre ->].
    unfold entry_offset. rewrite length_app. cbn [length].
    replace (length pre + 1 - 1)%nat with (length pre) by lia.
    rewrite firstn_app, firstn_all, Nat.sub_diag, firstn_O, app_nil_r.
    rewrite sum_len_app, sum_len_cons. cbn [sum_len fold_right]. lia.
Qed.

Lemma build_ico_layout_witness :
  build_ico [sample_icon "a.png" 16; sample_icon "b.png" 256]
  = Ok (ico_header 2
        ++ ico_directory [sample_icon "a.png" 16; sample_icon "b.png" 256]
        ++ sample_png 16 ++ sample_png 256).
Proof.
  refine (proj1 (proj2 (build_ico_layout
                   [sample_icon "a.png" 16; sample_icon "b.png" 256]) _ _)).
  - vm_compute. discriminate.
  - intros [|[|i]] icon Hi; try discriminate; injection Hi as <-;
      vm_compute; repeat split; discriminate.
Defined.

(** ** Size bytes and oversized icons *)

Lemma decode_le_byte v : 0 <= v <= 255 -> decode_le [byte_of_Z v] = v.
Proof.
  intros Hv. unfold decode_le. cbn [fold_right].
  rewrite byte_to_of_Z, Z.mod_small by lia. lia.
Qed.

Lemma firstn_app_lt {A} (x y : list A) i :
  (i <= length x)%nat -> firstn i (x ++ y) = firstn i x.
Proof.
  intros Hi. rewrite firstn_app.
  replace (i - length x)%nat with 0%nat by lia.
  now rewrite firstn_O, app_nil_r.
Qed.

(** C4, as stated, fails: with a 2^32-byte 16 x 16 icon before a 300 x 300
    one, the encoder stops at the first icon with [struct.error], which is
    not one of the script's [ValueError]s; and so it does with a record of
    negative size before the 300 x 300 icon. *)
Lemma oversized_icon_counterexample :
  Exists (fun icon => size icon > 256) [huge_icon; sample_icon "icon-300.png" 300]
  /\ build_ico [huge_icon; sample_icon "icon-300.png" 300] = Raise StructError
  /\ ~ raises_kind (build_ico [huge_icon; sample_icon "icon-300.png" 300])
                   FormatError
  /\ build_ico [negative_icon; sample_icon "icon-300.png" 300]
     = Raise StructError.
Proof.
  assert (H : build_ico [huge_icon; sample_icon "icon-300.png" 300]
              = Raise StructError).
  { unfold build_ico.
    change (len [huge_icon; sample_icon "icon-300.png" 300]) with 2.
    change (2 >? 65535) with false. cbv iota.
    change (pack_header 2) with (Ok (ico_header 2)). cbn [bindR Ok].
    now rewrite huge_icon_not_packed. }
  split.
  - apply Exists_cons_tl, Exists_cons_hd.
    change (size (sample_icon "icon-300.png" 300)) with 300. lia.
  - split; [exact H|]. split; [|reflexivity].
    rewrite H. intros (m & Hm & _). discriminate.
Qed.

(** C4 (amended): the size byte is 0 for size 256 and the size itself for
    1..255, and these are the width and height bytes of every entry of an
    output; if any icon's size exceeds 256, [build_ico] produces no output,
    and it fails with a FormatError whenever every icon before the first
    oversized one has 0 <= size <= 256 and a payload length and offset that
    fit in 32 bits. *)
Theorem encoder_size_bytes (icons : list PngIcon) :
  ico_size_byte 256 = 0
  /\ (forall s, 1 <= s <= 255 -> ico_size_byte s = s)
  /\ (forall out i icon,
        build_ico icons = Ok out -> icons !! i = Some icon ->
        field out (6 + 16 * i) 1 = ico_size_byte (size icon)
        /\ field out (6 + 16 * i + 1) 1 = ico_size_byte (size icon))
  /\ (Exists (fun icon => size icon > 256) icons ->
      exists e, build_ico icons = Raise e)
  /\ (forall pre bad post,
        icons = pre ++ bad :: post -> size bad > 256 ->
        (forall i icon, pre !! i = Some icon -> fits icon (entry_offset icons i)) ->
        raises_kind (build_ico icons) FormatError).
Proof.
  split; [reflexivity|].
  split; [intros s Hs; unfold ico_size_byte; destruct (Z.eqb_spec s 256); lia|].
  split; [|split].
  - intros out i icon Hout Hi.
    apply build_ico_Ok_inv in Hout as (_ & Hfit & ->).
    destruct (proj1 (fits_from_entry_offset icons) Hfit i icon Hi) as (Hs & _).
    apply ico_size_byte_range in Hs. unfold field.
    pose proof (out_entry_slice icons i icon 0 1 Hi ltac:(lia)) as E0.
    pose proof (out_entry_slice icons i icon 1 2 Hi ltac:(lia)) as E1.
    rewrite Nat.add_0_r in E0.
    replace (6 + 16 * i + 1 + 1)%nat with (6 + 16 * i + 2)%nat by lia.
    rewrite E0, E1. split; apply (decode_le_byte _ Hs).
  - intros Hex. destruct (build_ico icons) as [e|out] eqn:E; [now exists e|].
    apply build_ico_Ok_inv in E as (_ & Hfit & _).
    apply Exists_exists in Hex as (icon & Hin & Hbig).
    apply list_elem_of_lookup in Hin as [i Hi].
    destruct (proj1 (fits_from_entry_offset icons) Hfit i icon Hi) as (Hs & _).
    lia.
  - intros pre bad post -> Hbad Hpre. unfold build_ico.
    destruct (len (pre ++ bad :: post) >? 65535) eqn:En.
    + now exists TooManyIcons.
    + apply gtb_false in En. pose proof (len_nonneg (pre ++ bad :: post)).
      rewrite pack_header_Ok by lia. cbn [bindR Ok].
      rewrite build_loop_oversized; [|lia| |exact Hbad].
      * now exists (CannotBeStored (path bad) (size bad)).
      * apply fits_from_lookup. intros i icon Hi.
        specialize (Hpre i icon Hi). unfold entry_offset in Hpre.
        apply lookup_lt_Some in Hi.
        rewrite firstn_app_lt in Hpre by lia. exact Hpre.
Qed.

Lemma encoder_size_bytes_witness :
  raises_kind (build_ico [sample_icon "a.png" 16; sample_icon "b.png" 300])
              FormatError.
Proof.
  refine (proj2 (proj2 (proj2 (proj2 (encoder_size_bytes
            [sample_icon "a.png" 16; sample_icon "b.png" 300]))))
          [sample_icon "a.png" 16] (sample_icon "b.png" 300) [] eq_refl _ _).
  - vm_compute. reflexivity.
  - intros [|i] icon Hi; try discriminate. injection Hi as <-.
    vm_compute. repeat split; discriminate.
Defined.

(** ** The PNG header parser *)

Lemma lor_shiftl_add a b n :
  0 <= n -> 0 <= b < 2 ^ n -> Z.lor (Z.shiftl a n) b = a * 2 ^ n + b.
Proof.
  intros Hn Hb. rewrite <- Z.shiftl_mul_pow2 by lia.
  symmetry. apply Z.add_nocarry_lor. apply Z.bits_inj'. intros k Hk.
  rewrite Z.land_spec, Z.bits_0, Z.shiftl_spec by lia.
  destruct (Z.ltb_spec k n) as [Hlt|Hge].
  - rewrite (Z.testbit_neg_r a) by lia. reflexivity.
  - destruct (Z.eq_dec b 0) as [->|Hb0]; [now rewrite Z.bits_0, andb_false_r|].
    rewrite (Z.bits_above_log2 b k), andb_false_r; [reflexivity|lia|].
    apply Z.log2_lt_pow2; [lia|].
    apply Z.lt_le_trans with (2 ^ n); [lia|]. apply Z.pow_le_mono_r; lia.
Qed.

Lemma unpack_BE_I_decode b3 b2 b1 b0 :
  unpack_BE_I [b3; b2; b1; b0] = Ok (decode_be [b3; b2; b1; b0]).
Proof.
  unfold unpack_BE_I, decode_be. cbn [fold_left]. f_equal.
  pose proof (byte_to_Z_range b3). pose proof (byte_to_Z_range b2).
  pose proof (byte_to_Z_range b1). pose proof (byte_to_Z_range b0).
  rewrite (lor_shiftl_add (byte_to_Z b1) (byte_to_Z b0) 8) by lia.
  rewrite (lor_shiftl_add (byte_to_Z b2) _ 16) by lia.
  rewrite (lor_shiftl_add (byte_to_Z b3) _ 24) by lia.
  lia.
Qed.

Lemma slice_length {A} (l : list A) a b :
  (b <= length l)%nat -> length (slice l a b) = (b - a)%nat.
Proof. intros Hb. unfold slice. rewrite length_firstn, length_skipn. lia. Qed.

Lemma unpack_slice data a :
  (a + 4 <= length data)%nat ->
  unpack_BE_I (slice data a (a + 4)) = Ok (decode_be (slice data a (a + 4))).
Proof.
  intros Ha. pose proof (slice_length data a (a + 4) Ha) as Hl.
  replace (a + 4 - a)%nat with 4%nat in Hl by lia.
  destruct (slice data a (a + 4)) as [|b3 [|b2 [|b1 [|b0 [|]]]]];
    try discriminate.
  apply unpack_BE_I_decode.
Qed.

Lemma startswith_signature data :
  startswith data PNG_SIGNATURE = true <-> slice data 0 8 = PNG_SIGNATURE.
Proof. unfold startswith, bytes_eqb. apply bool_decide_eq_true. Qed.

(** [parse_png], with the header fields read as big-endian numbers. *)
Lemma parse_png_spec path data :
  parse_png path data =
  if (len data <? 33) || negb (startswith data PNG_SIGNATURE)
  then Raise (ValueError (NotAValidPngFile path))
  else if negb (bytes_eqb (slice data 12 16) IHDR) || (ihdr_length data <? 8)
  then Raise (ValueError (InvalidIhdrChunk path))
  else if negb (png_width data =? png_height data)
  then Raise (ValueError (IconMustBeSquare path (png_width data) (png_height data)))
  else if png_width data =? 0
  then Raise (ValueError (InvalidIconSize0x0 path))
  else Ok (mkPngIcon path (png_width data) data).
Proof.
  unfold parse_png.
  destruct (Z.ltb_spec (len data) 33) as [Hlt|Hge]; [reflexivity|].
  cbn [orb]. destruct (startswith data PNG_SIGNATURE); [|reflexivity].
  cbn [negb]. unfold len in Hge.
  pose proof (unpack_slice data 8 ltac:(lia)) as E1.
  pose proof (unpack_slice data 16 ltac:(lia)) as E2.
  pose proof (unpack_slice data 20 ltac:(lia)) as E3.
  cbn [Nat.add] in E1, E2, E3. rewrite E1, E2, E3. reflexivity.
Qed.

Lemma parse_png_Ok_or_FormatError path data :
  (exists icon, parse_png path data = Ok icon)
  \/ raises_kind (parse_png path data) FormatError.
Proof.
  rewrite parse_png_spec.
  repeat match goal with
         | |- context [if ?c then _ else _] => destruct c
         end;
    solve [left; eauto | right; eexists; split; reflexivity].
Qed.

Lemma parse_png_Ok_iff path data icon :
  parse_png path data = Ok icon <->
  accepted_png data /\ icon = mkPngIcon path (png_width data) data.
Proof.
  rewrite parse_png_spec. split.
  - destruct (Z.ltb_spec (len data) 33) as [Hlt|Hge]; [discriminate|].
    destruct (startswith data PNG_SIGNATURE) eqn:Es; [|discriminate].
    apply startswith_signature in Es. cbn [orb negb].
    unfold bytes_eqb. destruct (bool_decide_reflect (slice data 12 16 = IHDR)) as [Hi|];
      [|discriminate].
    destruct (Z.ltb_spec (ihdr_length data) 8) as [|Hl]; [discriminate|].
    destruct (Z.eqb_spec (png_width data) (png_height data)) as [Hsq|];
      [|discriminate].
    destruct (Z.eqb_spec (png_width data) 0) as [|Hnz]; [discriminate|].
    cbn [orb negb]. intros [= <-]. split; [constructor; auto|reflexivity].
  - intros [[Hge Hsig Hi Hl Hsq Hnz] ->].
    apply startswith_signature in Hsig. rewrite Hsig.
    unfold bytes_eqb. rewrite (bool_decide_eq_true_2 _ Hi).
    replace (len data <? 33) with false by (symmetry; apply Z.ltb_ge; lia).
    replace (ihdr_length data <? 8) with false by (symmetry; apply Z.ltb_ge; lia).
    rewrite (proj2 (Z.eqb_eq _ _) Hsq).
    replace (png_width data =? 0) with false by (symmetry; now apply Z.eqb_neq).
    reflexivity.
Qed.

(** C2: for a file with content [data], [read_png] returns an icon iff the
    content has at least 33 bytes, the PNG signature, an IHDR chunk type at
    bytes 12-15 with declared length >= 8, and equal nonzero big-endian
    width and height; the icon then has that width as its size and the whole
    content as its data; and each violation alone gives a FormatError and no
    icon. *)
Theorem read_png_accepts (w : World) (p : string) (content : bytes) :
  files w !! file_id w p = Some content ->
  (forall icon,
     (read_png p w).1 = Ok icon <->
     accepted_png content /\ icon = mkPngIcon p (png_width content) content)
  /\ (len content < 33 \/ slice content 0 8 <> PNG_SIGNATURE
      \/ slice content 12 16 <> IHDR \/ ihdr_length content < 8
      \/ png_width content <> png_height content \/ png_width content = 0 ->
      raises_kind (read_png p w).1 FormatError
      /\ ~ exists icon, (read_png p w).1 = Ok icon).
Proof.
  intros Hfile. unfold read_png. rewrite Hfile. cbn [fst].
  split; [intros icon; apply parse_png_Ok_iff|].
  intros Hviol.
  assert (Hno : ~ exists icon, parse_png p content = Ok icon).
  { intros [icon Hicon]. apply parse_png_Ok_iff in Hicon as [[] _].
    unfold ihdr_length, png_width, png_height in *. intuition (try lia; try congruence). }
  split; [|exact Hno].
  destruct (parse_png_Ok_or_FormatError p content) as [H|H]; [contradiction|exact H].
Qed.

Lemma read_png_accepts_witness :
  (read_png icon16_path world3).1 = Ok (sample_icon icon16_path 16).
Proof.
  apply (proj1 (read_png_accepts world3 icon16_path (sample_png 16) eq_refl)).
  split; [|reflexivity].
  constructor; try reflexivity; vm_compute; discriminate.
Defined.

(** ** Deduplication *)

Lemma with_size_cons s icon l :
  with_size s (icon :: l) =
  if size icon =? s then icon :: with_size s l else with_size s l.
Proof. reflexivity. Qed.

Lemma dict_values_cons {V} k (v : V) r :
  dict_values ((k, v) :: r) = v :: dict_values r.
Proof. reflexivity. Qed.

Lemma with_size_absent s (d : list (Z * PngIcon)) :
  Forall (fun kv => size (snd kv) = fst kv) d -> s ∉ map fst d ->
  with_size s (dict_values d) = [].
Proof.
  induction d as [|[k v] r IH]; intros Hwf Hs; [reflexivity|].
  apply Forall_cons in Hwf as [Hkv Hr]. cbn in Hkv, Hs.
  apply not_elem_of_cons in Hs as [Hne Hs].
  rewrite dict_values_cons, with_size_cons.
  destruct (Z.eqb_spec (size v) s); [congruence|]. now apply IH.
Qed.

Lemma dict_set_keys {V} k (v : V) d x :
  x ∈ map fst (dict_set k v d) <-> x = k \/ x ∈ map fst d.
Proof.
  induction d as [|[k' v'] r IH]; cbn.
  - rewrite list_elem_of_singleton. split; [auto|intros [H|H]; [auto|inversion H]].
  - destruct (Z.eqb_spec k k') as [->|Hne]; cbn.
    + rewrite elem_of_cons. tauto.
    + rewrite !elem_of_cons, IH. tauto.
Qed.

Lemma dict_set_ok icon d :
  by_size_ok d -> by_size_ok (dict_set (size icon) icon d).
Proof.
  intros [Hnd Hwf]. induction d as [|[k v] r IH]; cbn.
  - split; [apply NoDup_singleton|repeat constructor].
  - apply NoDup_cons in Hnd as [Hk Hnd]. apply Forall_cons in Hwf as [Hkv Hwf].
    destruct (Z.eqb_spec (size icon) k) as [Heq|Hne].
    + split; [cbn; apply NoDup_cons; now rewrite Heq|now constructor].
    + destruct (IH Hnd Hwf) as [Hnd' Hwf']. split; [|now constructor].
      cbn. apply NoDup_cons. split; [|exact Hnd'].
      rewrite dict_set_keys. intros [H|H]; [congruence|contradiction].
Qed.

Lemma dict_set_with_size s icon d :
  by_size_ok d ->
  with_size s (dict_values (dict_set (size icon) icon d)) =
  if size icon =? s then [icon] else with_size s (dict_values d).
Proof.
  intros [Hnd Hwf]. induction d as [|[k v] r IH]; [reflexivity|].
  apply NoDup_cons in Hnd as [Hk Hnd]. apply Forall_cons in Hwf as [Hkv Hwf].
  cbn in Hkv, Hk. cbn [dict_set].
  destruct (Z.eqb_spec (size icon) k) as [Heq|Hne].
  - rewrite !dict_values_cons, !with_size_cons, Hkv.
    destruct (Z.eqb_spec (size icon) s) as [Hs|Hs].
    + rewrite with_size_absent; [reflexivity|exact Hwf|].
      rewrite <- Hs, Heq. exact Hk.
    + destruct (Z.eqb_spec k s); [congruence|reflexivity].
  - rewrite !dict_values_cons, !with_size_cons, (IH Hnd Hwf).
    destruct (Z.eqb_spec (size v) s) as [Hv|Hv]; [|reflexivity].
    destruct (Z.eqb_spec (size icon) s); [congruence|reflexivity].
Qed.

Lemma fold_dict_set s icons : forall d,
  by_size_ok d ->
  let d' := fold_left (fun by_size icon => dict_set (size icon) icon by_size)
                      icons d in
  by_size_ok d'
  /\ with_size s (dict_values d') =
     match last (with_size s icons) with
     | Some icon => [icon]
     | None => with_size s (dict_values d)
     end.
Proof.
  induction icons as [|x rest IH]; intros d Hd; [now split|].
  cbn [fold_left]. destruct (IH _ (dict_set_ok x d Hd)) as [Hok Hw].
  split; [exact Hok|]. cbn zeta in Hw. rewrite Hw, with_size_cons.
  rewrite (dict_set_with_size s x d Hd).
  destruct (Z.eqb_spec (size x) s); [|reflexivity].
  rewrite last_cons. now destruct (last (with_size s rest)).
Qed.

Lemma unique_sizes_NoDup (d : list (Z * PngIcon)) :
  by_size_ok d -> NoDup (map size (dict_values d)).
Proof.
  intros [Hnd Hwf]. unfold dict_values. rewrite map_map.
  replace (map (fun kv => size (snd kv)) d) with (map fst d); [exact Hnd|].
  apply map_ext_Forall. eapply Forall_impl; [exact Hwf|]. cbn. auto.
Qed.

(** C5: [unique_by_size] keeps one icon per distinct size of the input, the
    last one of that size: for every size, the icons of the result with that
    size are exactly the last input icon of that size (none if there is
    none), and no size occurs twice; two icons of size 32 leave only the
    later one. *)
Theorem unique_by_size_last_wins (icons : list PngIcon) :
  (forall s,
     with_size s (unique_by_size icons) =
     match last (with_size s icons) with
     | Some icon => [icon]
     | None => []
     end)
  /\ NoDup (map size (unique_by_size icons))
  /\ (forall p1 d1 p2 d2,
        unique_by_size [mkPngIcon p1 32 d1; mkPngIcon p2 32 d2]
        = [mkPngIcon p2 32 d2]).
Proof.
  assert (H0 : by_size_ok []) by (split; constructor).
  split; [|split].
  - intros s. unfold unique_by_size.
    destruct (fold_dict_set s icons [] H0) as [_ H]. exact H.
  - unfold unique_by_size.
    destruct (fold_dict_set 0 icons [] H0) as [H _].
    now apply unique_sizes_NoDup.
  - reflexivity.
Qed.

(** ** Sorting *)

Section SortFacts.
Context {A : Type} (le : A -> A -> bool).
Hypothesis le_total : forall a b, le a b = false -> le b a = true.
Hypothesis le_trans : forall a b c, le a b = true -> le b c = true -> le a c = true.

Lemma insert_sorted_perm x l : Permutation (insert_sorted le x l) (x :: l).
Proof.
  induction l as [|y r IH]; cbn; [reflexivity|].
  destruct (le x y); [reflexivity|].
  rewrite IH. apply perm_swap.
Qed.

Lemma sort_by_perm l : Permutation (sort_by le l) l.
Proof.
  induction l as [|x r IH]; cbn; [reflexivity|].
  rewrite insert_sorted_perm. now constructor.
Qed.

Lemma insert_sorted_sorted x l :
  StronglySorted (fun a b => le a b = true) l ->
  StronglySorted (fun a b => le a b = true) (insert_sorted le x l).
Proof.
  induction 1 as [|y r Hr IH Hy]; cbn; [repeat constructor|].
  destruct (le x y) eqn:E.
  - constructor; [now constructor|]. constructor; [exact E|].
    eapply Forall_impl; [exact Hy|]. cbn. intros z Hz. now apply le_trans with y.
  - constructor; [exact IH|].
    apply (Permutation_Forall (Permutation_sym (insert_sorted_perm x r))).
    constructor; [now apply le_total|exact Hy].
Qed.

Lemma sort_by_sorted l : StronglySorted (fun a b => le a b = true) (sort_by le l).
Proof.
  induction l as [|x r IH]; cbn; [constructor|]. now apply insert_sorted_sorted.
Qed.

(** Stability: an element passes only elements it is not [le] to. *)
Lemma insert_sorted_filter (keep : A -> bool) x l :
  (forall y, keep x = true -> keep y = true -> le x y = true) ->
  List.filter keep (insert_sorted le x l) = List.filter keep (x :: l).
Proof.
  intros Hk. induction l as [|y r IH]; [reflexivity|].
  cbn [insert_sorted]. destruct (le x y) eqn:E; [reflexivity|].
  cbn [List.filter] in *. rewrite IH.
  destruct (keep x) eqn:Kx, (keep y) eqn:Ky; try reflexivity.
  rewrite (Hk y eq_refl Ky) in E. discriminate.
Qed.

Lemma sort_by_filter (keep : A -> bool) l :
  (forall x y, keep x = true -> keep y = true -> le x y = true) ->
  List.filter keep (sort_by le l) = List.filter keep l.
Proof.
  intros Hk. induction l as [|x r IH]; [reflexivity|].
  cbn [sort_by fold_right]. fold (sort_by le r).
  rewrite insert_sorted_filter by (intros y; apply Hk).
  cbn [List.filter]. now rewrite IH.
Qed.
End SortFacts.

Lemma key_le_total {A} (key : A -> Z) reverse a b :
  key_le key reverse a b = false -> key_le key reverse b a = true.
Proof. unfold key_le. destruct reverse; intros H; apply Z.leb_gt in H; apply Z.leb_le; lia. Qed.

Lemma key_le_trans {A} (key : A -> Z) reverse a b c :
  key_le key reverse a b = true -> key_le key reverse b c = true ->
  key_le key reverse a c = true.
Proof. unfold key_le. destruct reverse; rewrite !Z.leb_le; lia. Qed.

Lemma sorted_unique {A} (R : A -> A -> Prop) (l1 l2 : list A) :
  (forall a b, R a b -> R b a -> a = b) ->
  StronglySorted R l1 -> StronglySorted R l2 -> Permutation l1 l2 -> l1 = l2.
Proof.
  intros Hanti H1. revert l2. induction H1 as [|a r1 Hr1 IH Ha]; intros l2 H2 Hp.
  - now apply Permutation_nil in Hp.
  - destruct H2 as [|b r2 Hr2 Hb].
    + apply Permutation_sym, Permutation_nil in Hp. discriminate.
    + assert (a = b) as <-.
      { assert (Hin : In a (b :: r2))
          by (apply (Permutation_in _ Hp); now left).
        assert (Hin' : In b (a :: r1))
          by (apply (Permutation_in _ (Permutation_sym Hp)); now left).
        destruct Hin as [He|Hin]; [auto|]. destruct Hin' as [He|Hin']; [auto|].
        rewrite Forall_forall in Ha, Hb. apply Hanti.
        - apply Ha. now apply list_elem_of_In.
        - apply Hb. now apply list_elem_of_In. }
      f_equal. apply IH; [exact Hr2|]. now apply Permutation_cons_inv in Hp.
Qed.

Lemma StronglySorted_weaken {A} (R R' : A -> A -> Prop) l :
  (forall a b, R a b -> R' a b) -> StronglySorted R l -> StronglySorted R' l.
Proof.
  intros HR. induction 1 as [|a r Hr IH Ha]; constructor; [exact IH|].
  eapply Forall_impl; [exact Ha|]. cbn. auto.
Qed.

Lemma sort_icons_desc icons :
  sort_icons icons "desc" = sorted size true icons.
Proof. reflexivity. Qed.

Lemma sort_icons_asc icons :
  sort_icons icons "asc" = sorted size false icons.
Proof. reflexivity. Qed.

Lemma sorted_size_facts reverse icons :
  Permutation (sorted size reverse icons) icons
  /\ StronglySorted (fun a b => key_le size reverse a b = true)
                    (sorted size reverse icons)
  /\ forall s, with_size s (sorted size reverse icons) = with_size s icons.
Proof.
  unfold sorted. split; [apply sort_by_perm|]. split.
  - apply sort_by_sorted; [apply key_le_total|apply key_le_trans].
  - intros s. apply sort_by_filter. intros x y Hx Hy.
    apply Z.eqb_eq in Hx, Hy. unfold key_le.
    destruct reverse; apply Z.leb_le; lia.
Qed.

Lemma sorted_sizes (reverse : bool) icons :
  StronglySorted (fun a b => if reverse then b <= a else a <= b)
                 (map size (sorted size reverse icons)).
Proof.
  destruct (sorted_size_facts reverse icons) as (_ & Hs & _).
  induction Hs as [|a r Hr IH Ha]; cbn; [constructor|].
  constructor; [exact IH|]. apply Forall_map.
  eapply Forall_impl; [exact Ha|]. cbn. intros b. unfold key_le.
  destruct reverse; apply Z.leb_le.
Qed.

(** C6: [sort_icons] is a stable sort by size: the result is a permutation
    of the input, non-increasing in size for "desc" and non-decreasing for
    "asc", with the icons of one size in their input order; icons of sizes
    16, 48 and 256 come out as [256,48,16] for "desc" and [16,48,256] for
    "asc". *)
Theorem sort_icons_stable (icons : list PngIcon) :
  (Permutation (sort_icons icons "desc") icons
   /\ StronglySorted size_ge (sort_icons icons "desc")
   /\ forall s, with_size s (sort_icons icons "desc") = with_size s icons)
  /\ (Permutation (sort_icons icons "asc") icons
      /\ StronglySorted size_le (sort_icons icons "asc")
      /\ forall s, with_size s (sort_icons icons "asc") = with_size s icons)
  /\ (Permutation (map size icons) [16; 48; 256] ->
      map size (sort_icons icons "desc") = [256; 48; 16]
      /\ map size (sort_icons icons "asc") = [16; 48; 256]).
Proof.
  rewrite sort_icons_desc, sort_icons_asc.
  destruct (sorted_size_facts true icons) as (Hp1 & Hs1 & Hf1).
  destruct (sorted_size_facts false icons) as (Hp2 & Hs2 & Hf2).
  split; [|split].
  - split; [exact Hp1|]. split; [|exact Hf1].
    eapply StronglySorted_weaken; [|exact Hs1].
    intros a b. unfold key_le, size_ge. apply Z.leb_le.
  - split; [exact Hp2|]. split; [|exact Hf2].
    eapply StronglySorted_weaken; [|exact Hs2].
    intros a b. unfold key_le, size_le. apply Z.leb_le.
  - intros Hp. split.
    + apply (sorted_unique (fun a b => b <= a)); [lia|apply (sorted_sizes true)| |].
      * repeat constructor; lia.
      * rewrite Hp1, Hp.
        apply perm_trans with [256; 16; 48];
          [symmetry; apply (Permutation_cons_append [16; 48] 256)|].
        constructor. apply perm_swap.
    + apply (sorted_unique (fun a b => a <= b)); [lia|apply (sorted_sizes false)| |].
      * repeat constructor; lia.
      * now rewrite Hp2.
Qed.

Lemma sort_icons_stable_witness :
  map size (sort_icons [sample_icon "a" 48; sample_icon "b" 256; sample_icon "c" 16]
                       "desc") = [256; 48; 16]
  /\ map size (sort_icons [sample_icon "a" 48; sample_icon "b" 256; sample_icon "c" 16]
                          "asc") = [16; 48; 256].
Proof.
  apply (proj2 (proj2 (sort_icons_stable
           [sample_icon "a" 48; sample_icon "b" 256; sample_icon "c" 16]))).
  cbn [map size sample_icon].
  apply perm_trans with [48; 16; 256]; [constructor; apply perm_swap|apply perm_swap].
Defined.

(** ** Size-set parsing *)

Lemma size_tokens_cons token rest :
  List.filter str_truthy (map strip (token :: rest)) =
  if str_truthy (strip token)
  then strip token :: List.filter str_truthy (map strip rest)
  else List.filter str_truthy (map strip rest).
Proof. reflexivity. Qed.

Lemma parse_tokens_positive tokens : forall acc,
  Forall positive_token (List.filter str_truthy (map strip tokens)) ->
  exists sizes,
    parse_tokens tokens acc = Ok sizes
    /\ forall v, v ∈ sizes <->
         v ∈ acc \/ exists t, t ∈ List.filter str_truthy (map strip tokens)
                              /\ int t = Some v.
Proof.
  induction tokens as [|token rest IH]; intros acc Hall.
  - exists acc. split; [reflexivity|]. intros v. split; [auto|].
    intros [H|(t & Ht & _)]; [exact H|inversion Ht].
  - rewrite size_tokens_cons in Hall |- *. cbn [parse_tokens].
    destruct (str_truthy (strip token)) eqn:Et; cbn [negb].
    + apply Forall_cons in Hall as [(v0 & Hv0 & Hpos) Hall].
      rewrite Hv0. replace (v0 <=? 0) with false by (symmetry; apply Z.leb_gt; lia).
      destruct (IH (acc ∪ {[v0]}) Hall) as (sizes & -> & Hs).
      exists sizes. split; [reflexivity|]. intros v. rewrite Hs.
      rewrite elem_of_union, elem_of_singleton. split.
      * intros [[H| ->]|(t & Ht & Hi)]; [now left| |].
        -- right. exists (strip token). split; [left|exact Hv0].
        -- right. exists t. split; [now right|exact Hi].
      * intros [H|(t & Ht & Hi)]; [now left; left|].
        apply elem_of_cons in Ht as [->|Ht].
        -- left; right. congruence.
        -- right. now exists t.
    + exact (IH acc Hall).
Qed.

Lemma parse_tokens_rejected tokens : forall acc,
  Exists rejected_token (List.filter str_truthy (map strip tokens)) ->
  raises_kind (parse_tokens tokens acc) ConfigError.
Proof.
  induction tokens as [|token rest IH]; intros acc Hex.
  - inversion Hex.
  - rewrite size_tokens_cons in Hex. cbn [parse_tokens].
    destruct (str_truthy (strip token)) eqn:Et; cbn [negb]; [|exact (IH acc Hex)].
    destruct (int (strip token)) as [v|] eqn:Ev.
    + destruct (Z.leb_spec v 0) as [Hle|Hgt].
      * now exists (SizeMustBePositive v).
      * apply IH. apply Exists_cons in Hex as [[H|(v' & Hv' & Hle)]|Hex];
          [congruence| |exact Hex].
        rewrite Ev in Hv'. injection Hv' as <-. lia.
    + now exists (InvalidSizeValue (strip token)).
Qed.

(** C7, as stated, fails: the middle token of "16,,32" is not numeric, yet
    it is skipped and the sizes 16 and 32 are accepted; and the empty text,
    which has no size at all, is accepted too, as no allow-list. *)
Lemma parse_sizes_counterexample :
  EmptyString ∈ map strip (split "," "16,,32")
  /\ int EmptyString = None
  /\ (exists sizes, parse_sizes (Some "16,,32") = Ok (Some sizes)
                    /\ 16 ∈ sizes /\ 32 ∈ sizes)
  /\ parse_sizes (Some EmptyString) = Ok None.
Proof.
  split; [cbn; set_solver|].
  split; [reflexivity|]. split; [|reflexivity].
  eexists. split; [reflexivity|]. split; set_solver.
Qed.

Lemma str_truthy_true s : str_truthy s = true <-> s <> EmptyString.
Proof. destruct s; cbn; split; congruence. Qed.

Lemma main_parse_sizes_error args w e :
  parse_sizes (sizes args) = Raise e ->
  main args w = (Return 1, log (PrintErr e) w).
Proof.
  intros H. unfold main, pipeline, bindIO, liftR. rewrite H. reflexivity.
Qed.

(** C7 (amended): the text is split on commas and each token is trimmed;
    tokens that are empty after trimming are skipped; if every remaining
    token reads as a positive integer and there is at least one, the result
    is the set of their values; a remaining token that is not numeric or not
    positive gives a ConfigError, and so does a text with no remaining
    token, except that an absent or empty text gives no allow-list at all;
    "0,64" gives a ConfigError, and [main] then prints the error and returns
    1 with no other effect: no glob, no file read, no file written. *)
Theorem parse_sizes_tokens (raw : string) :
  raw <> EmptyString ->
  (Forall positive_token (size_tokens raw) -> size_tokens raw <> [] ->
   exists sizes,
     parse_sizes (Some raw) = Ok (Some sizes)
     /\ forall v, v ∈ sizes <->
          exists t, t ∈ size_tokens raw /\ int t = Some v)
  /\ (Exists rejected_token (size_tokens raw) ->
      raises_kind (parse_sizes (Some raw)) ConfigError)
  /\ (size_tokens raw = [] ->
      raises_kind (parse_sizes (Some raw)) ConfigError)
  /\ (forall args w e,
        sizes args = Some raw -> parse_sizes (Some raw) = Raise e ->
        (main args w).1 = Return 1
        /\ files (main args w).2 = files w
        /\ trace (main args w).2 = trace w ++ [PrintErr e])
  /\ parse_sizes None = Ok None
  /\ parse_sizes (Some EmptyString) = Ok None
  /\ parse_sizes (Some "0,64") = Raise (ValueError (SizeMustBePositive 0)).
Proof.
  intros Hraw. apply str_truthy_true in Hraw.
  assert (Hps : parse_sizes (Some raw) =
                let* sizes := parse_tokens (split "," raw) ∅ in
                if bool_decide (sizes = ∅) then Raise (ValueError AtLeastOneSize)
                else Ok (Some sizes))
    by (unfold parse_sizes; now rewrite Hraw).
  split; [|split; [|split; [|split; [|repeat split]]]].
  - intros Hall Hne. rewrite Hps.
    destruct (parse_tokens_positive (split "," raw) ∅ Hall) as (sizes & Hs & Hin).
    fold (size_tokens raw) in Hin. exists sizes. rewrite Hs. cbn [bindR Ok].
    assert (Hmem : forall v, v ∈ sizes <->
              exists t, t ∈ size_tokens raw /\ int t = Some v).
    { intros v. rewrite Hin. split; [intros [H|H]|auto]; [|exact H].
      now apply not_elem_of_empty in H. }
    split; [|exact Hmem].
    destruct (size_tokens raw) as [|t ts] eqn:Et; [contradiction|].
    apply Forall_cons in Hall as [(v & Hv & _) _].
    assert (Hv' : v ∈ sizes) by (apply Hmem; exists t; split; [left|exact Hv]).
    rewrite bool_decide_eq_false_2; [reflexivity|].
    intros ->. now apply not_elem_of_empty in Hv'.
  - intros Hex. rewrite Hps.
    destruct (parse_tokens_rejected (split "," raw) ∅ Hex) as (m & -> & Hk).
    now exists m.
  - intros Hnil. rewrite Hps.
    assert (Hall : Forall positive_token (size_tokens raw))
      by (rewrite Hnil; constructor).
    destruct (parse_tokens_positive (split "," raw) ∅ Hall) as (sizes & Hs & Hin).
    fold (size_tokens raw) in Hin. rewrite Hs. cbn [bindR Ok].
    rewrite bool_decide_eq_true_2; [now exists AtLeastOneSize|].
    apply set_eq. intros v. rewrite Hin, Hnil. split.
    + intros [H|(t & Ht & _)]; [exact H|inversion Ht].
    + intros H. now apply not_elem_of_empty in H.
  - intros args w e Hargs He.
    rewrite (main_parse_sizes_error args w e) by (now rewrite Hargs).
    repeat split.
Qed.

Lemma parse_sizes_tokens_witness :
  raises_kind (parse_sizes (Some "0,64")) ConfigError.
Proof.
  apply (proj1 (proj2 (parse_sizes_tokens "0,64" ltac:(discriminate)))).
  apply Exists_cons_hd. right. exists 0. split; [reflexivity|lia].
Defined.

(** ** The run *)

Lemma extends_refl w : extends w w [].
Proof. unfold extends. now rewrite app_nil_r. Qed.

Lemma extends_log w w' evs e :
  extends w w' evs -> extends w (log e w') (evs ++ [e]).
Proof.
  intros (Hf & Hi & Hc & Hg & Ho & Ht). unfold extends, log. cbn.
  rewrite Ht, app_assoc. auto 10.
Qed.

Lemma extends_trans w1 w2 w3 evs evs' :
  extends w1 w2 evs -> extends w2 w3 evs' -> extends w1 w3 (evs ++ evs').
Proof.
  intros (Hf & Hi & Hc & Hg & Ho & Ht) (Hf' & Hi' & Hc' & Hg' & Ho' & Ht').
  unfold extends.
  rewrite Hf', Hi', Hc', Hg', Ho', Ht', Ht, app_assoc. auto 10.
Qed.

Lemma extends_files w w' evs : extends w w' evs -> files w' = files w.
Proof. now intros (Hf & _). Qed.

Lemma extends_trace w w' evs : extends w w' evs -> trace w' = trace w ++ evs.
Proof. now intros (_ & _ & _ & _ & _ & Ht). Qed.

Lemma extends_glob w w' evs : extends w w' evs -> glob_glob w' = glob_glob w.
Proof.
  intros (_ & _ & Hc & Hg & _). unfold glob_glob. now rewrite Hc, Hg.
Qed.

Lemma extends_output w w' evs :
  extends w w' evs -> output_result w' = output_result w.
Proof.
  intros (_ & _ & Hc & _ & Ho & _). unfold output_result. now rewrite Hc, Ho.
Qed.

Lemma extends_writable w w' evs :
  extends w w' evs -> writable w' = writable w.
Proof.
  intros H. unfold writable. now rewrite (extends_output _ _ _ H).
Qed.

Lemma read_png_world p w : (read_png p w).2 = log (OpenRead p) w.
Proof. unfold read_png. now destruct (files w !! file_id w p). Qed.

Lemma mapIO_read_png_extends paths : forall w,
  exists evs, extends w (mapIO read_png paths w).2 evs /\ Forall is_read evs.
Proof.
  induction paths as [|p rest IH]; intros w.
  - exists []. split; [apply extends_refl|constructor].
  - cbn [mapIO]. unfold bindIO at 1.
    pose proof (read_png_world p w) as Hw.
    destruct (read_png p w) as [[e|icon] w1]; cbn in Hw; subst w1.
    + exists [OpenRead p]. split; [apply (extends_log w w [] _ (extends_refl w))|].
      now repeat constructor.
    + destruct (IH (log (OpenRead p) w)) as (evs & Hext & Hrd).
      exists ([OpenRead p] ++ evs). split.
      * unfold bindIO.
        destruct (mapIO read_png rest (log (OpenRead p) w)) as [[e|icons] w2];
          cbn in Hext |- *;
          exact (extends_trans _ _ _ _ _
                   (extends_log w w [] _ (extends_refl w)) Hext).
      * constructor; [exact I|exact Hrd].
Qed.

Lemma discover_pngs_extends dir explicit w :
  exists evs, extends w (discover_pngs dir explicit w).2 evs /\ Forall is_read evs.
Proof.
  unfold discover_pngs.
  destruct explicit as [[|p ps]|];
    try (eexists; split;
         [apply (extends_log w w [] _ (extends_refl w))|now repeat constructor]).
  exists []. split; [apply extends_refl|constructor].
Qed.

(** The [try] block only looks at the file system. *)
Lemma pipeline_extends args w :
  exists evs, extends w (pipeline args w).2 evs /\ Forall is_read evs.
Proof.
  unfold pipeline, bindIO, liftR.
  destruct (parse_sizes (sizes args)) as [e|include_sizes].
  { exists []. split; [apply extends_refl|constructor]. }
  destruct (discover_pngs_extends (icons_dir args) (inputs args) w)
    as (evs1 & Hext1 & Hrd1).
  destruct (discover_pngs (icons_dir args) (inputs args) w) as [[e|paths] w1];
    cbn in Hext1; [now exists evs1|].
  destruct (negb (list_truthy paths)); [now exists evs1|].
  destruct (mapIO_read_png_extends paths w1) as (evs2 & Hext2 & Hrd2).
  destruct (mapIO read_png paths w1) as [[e|icons] w2]; cbn in Hext2 |- *;
    (exists (evs1 ++ evs2); split;
     [exact (extends_trans _ _ _ _ _ Hext1 Hext2)|now apply Forall_app]).
Qed.

(** A failure in the [try] block: the error line, status 1, nothing written. *)
Lemma main_failure args w e w1 :
  pipeline args w = (Raise e, w1) ->
  main args w = (Return 1, log (PrintErr e) w1)
  /\ files (main args w).2 = files w
  /\ exists evs, trace (main args w).2 = trace w ++ evs ++ [PrintErr e]
                 /\ Forall is_read evs.
Proof.
  intros Hp. destruct (pipeline_extends args w) as (evs & Hext & Hrd).
  unfold main. rewrite Hp in *. cbn in Hext |- *.
  pose proof (extends_files _ _ _ Hext) as Hf.
  pose proof (extends_trace _ _ _ Hext) as Ht.
  split; [reflexivity|]. split; [exact Hf|].
  exists evs. split; [|exact Hrd]. now rewrite Ht, app_assoc.
Qed.

(** A success: the file is written and the line printed. *)
Lemma main_success args w icons ico w1 :
  pipeline args w = (Ok (icons, ico), w1) ->
  writable w1 (output args) = true ->
  (main args w).1 = Return 0
  /\ files (main args w).2 = <[file_id w (output args) := ico]> (files w)
  /\ exists evs d,
       trace (main args w).2 =
       trace w ++ evs ++ [Makedirs d; WriteFile (output args) ico;
                          PrintOut (success_line (output args) icons)]
       /\ Forall is_read evs.
Proof.
  intros Hp Hw. destruct (pipeline_extends args w) as (evs & Hext & Hrd).
  unfold main. rewrite Hp in *. cbn in Hext |- *.
  unfold writable in Hw.
  destruct (output_result w1 (output args)); try discriminate.
  destruct Hext as (Hf & Hi & _ & _ & _ & Ht). cbn.
  split; [reflexivity|]. split; [now rewrite Hf, Hi|].
  exists evs. eexists. split; [|exact Hrd].
  rewrite Ht, <- !app_assoc. reflexivity.
Qed.

(** ** Filtering *)

Lemma kept_eq include_sizes max_size icon :
  kept include_sizes max_size icon =
  negb (size icon >? max_size) && in_sizes include_sizes (size icon).
Proof. unfold kept, in_sizes. now rewrite Z.gtb_ltb, Z.leb_antisym. Qed.

Lemma filter_loop_spec icons include_sizes max_size : forall result,
  filter_loop icons include_sizes max_size result =
  result ++ List.filter (kept include_sizes max_size) icons.
Proof.
  induction icons as [|icon rest IH]; intros result; cbn [filter_loop List.filter].
  - now rewrite app_nil_r.
  - rewrite kept_eq.
    destruct (size icon >? max_size); cbn [negb andb]; [apply IH|].
    destruct (in_sizes include_sizes (size icon)); cbn [negb]; rewrite IH;
      [now rewrite <- app_assoc|reflexivity].
Qed.

Lemma filter_icons_spec icons include_sizes max_size :
  filter_icons icons include_sizes max_size =
  match List.filter (kept include_sizes max_size) icons with
  | [] => Raise (ValueError NoIconsLeftAfterFiltering)
  | survivors => Ok survivors
  end.
Proof.
  unfold filter_icons. rewrite filter_loop_spec. cbn [app].
  now destruct (List.filter (kept include_sizes max_size) icons).
Qed.

Lemma kept_spec include_sizes max_size icon :
  kept include_sizes max_size icon = true <->
  size icon <= max_size
  /\ forall sizes, include_sizes = Some sizes -> size icon ∈ sizes.
Proof.
  unfold kept. rewrite andb_true_iff, Z.leb_le.
  destruct include_sizes as [sizes|].
  - rewrite bool_decide_eq_true. split; intros [H1 H2]; split; auto.
    now intros ? [= <-].
  - split; intros [H1 H2]; split; auto. discriminate.
Qed.

Lemma pipeline_none_left args w include_sizes paths w1 icons w2 :
  parse_sizes (sizes args) = Ok include_sizes ->
  discover_pngs (icons_dir args) (inputs args) w = (Ok paths, w1) ->
  paths <> [] ->
  mapIO read_png paths w1 = (Ok icons, w2) ->
  List.filter (kept (prefer_default_sizes include_sizes (inputs args) icons)
                    (max_size args)) icons = [] ->
  pipeline args w = (Raise (ValueError NoIconsLeftAfterFiltering), w2).
Proof.
  intros Hs Hd Hne Hr Hf. unfold pipeline, bindIO, liftR.
  rewrite Hs. unfold Ok in *. rewrite Hd.
  destruct paths; [contradiction|]. cbn [list_truthy negb]. rewrite Hr.
  unfold select_and_encode. now rewrite filter_icons_spec, Hf.
Qed.

(** C8: filtering keeps, in order, exactly the icons whose size is at most
    the maximum (256 by default) and, under an allow-list, in it; if none is
    left the run fails with the ConfigError "no icons left after filtering",
    the process exits with 1 and nothing is written; so it is for
    [--max-size 16] against a 32 x 32 and a 256 x 256 icon. *)
Theorem filter_icons_keeps (args : Args) (w : World) :
  (forall icons include_sizes max_size,
     (forall icon, icon ∈ List.filter (kept include_sizes max_size) icons <->
        icon ∈ icons /\ size icon <= max_size
        /\ forall sizes, include_sizes = Some sizes -> size icon ∈ sizes)
     /\ (List.filter (kept include_sizes max_size) icons <> [] ->
         filter_icons icons include_sizes max_size
         = Ok (List.filter (kept include_sizes max_size) icons))
     /\ (List.filter (kept include_sizes max_size) icons = [] ->
         filter_icons icons include_sizes max_size
         = Raise (ValueError NoIconsLeftAfterFiltering)
         /\ raises_kind (filter_icons icons include_sizes max_size) ConfigError))
  /\ max_size default_args = 256
  /\ (forall include_sizes paths w1 icons w2,
        parse_sizes (sizes args) = Ok include_sizes ->
        discover_pngs (icons_dir args) (inputs args) w = (Ok paths, w1) ->
        paths <> [] ->
        mapIO read_png paths w1 = (Ok icons, w2) ->
        List.filter (kept (prefer_default_sizes include_sizes (inputs args) icons)
                          (max_size args)) icons = [] ->
        main args w
        = (Return 1, log (PrintErr (ValueError NoIconsLeftAfterFiltering)) w2)
        /\ exit_code (main args w).1 = 1
        /\ files (main args w).2 = files w
        /\ exists evs,
             trace (main args w).2 =
             trace w ++ evs ++ [PrintErr (ValueError NoIconsLeftAfterFiltering)]
             /\ Forall is_read evs).
Proof.
  split; [|split; [reflexivity|]].
  - intros icons include_sizes max_size. split; [|split].
    + intros icon. rewrite <- kept_spec, !list_elem_of_In. apply filter_In.
    + intros Hne. rewrite filter_icons_spec.
      now destruct (List.filter (kept include_sizes max_size) icons).
    + intros Hnil. rewrite filter_icons_spec, Hnil.
      split; [reflexivity|now exists NoIconsLeftAfterFiltering].
  - intros include_sizes paths w1 icons w2 Hs Hd Hne Hr Hf.
    pose proof (pipeline_none_left _ _ _ _ _ _ _ Hs Hd Hne Hr Hf) as Hp.
    destruct (main_failure _ _ _ _ Hp) as (Hm & Hfiles & Htrace).
    rewrite Hm in *. auto.
Qed.

Lemma filter_icons_keeps_witness :
  main args_max16 world2
  = (Return 1,
     log (PrintErr (ValueError NoIconsLeftAfterFiltering))
       (log (OpenRead icon32_path)
          (log (OpenRead icon256_path)
             (log (Glob "public/icons/icon-*.png") world2)))).
Proof.
  refine (proj1 (proj2 (proj2 (filter_icons_keeps args_max16 world2))
            None [icon256_path; icon32_path]
            (log (Glob "public/icons/icon-*.png") world2)
            [sample_icon icon256_path 256; sample_icon icon32_path 32]
            _ _ _ _ _ _)).
  - reflexivity.
  - reflexivity.
  - discriminate.
  - reflexivity.
  - reflexivity.
Defined.

(** ** Discovery *)

Lemma leb_iff a b :
  String.leb a b = true <-> a = b \/ OrderedTypeEx.String_as_OT.lt a b.
Proof.
  unfold String.leb.
  pose proof (OrderedTypeEx.String_as_OT.cmp_eq a b) as He.
  pose proof (OrderedTypeEx.String_as_OT.cmp_lt a b) as Hl.
  unfold OrderedTypeEx.String_as_OT.cmp in *.
  destruct (String.compare a b); split; try tauto; try discriminate.
  - intros [H|H]; [apply He in H|apply Hl in H]; discriminate.
Qed.

Lemma leb_false_flip a b : String.leb a b = false -> String.leb b a = true.
Proof.
  intros H. destruct (String.leb_total a b) as [H'|H']; [congruence|exact H'].
Qed.

Lemma leb_trans a b c :
  String.leb a b = true -> String.leb b c = true -> String.leb a c = true.
Proof.
  rewrite !leb_iff. intros [->|H1] [->|H2]; auto.
  right. exact (OrderedTypeEx.String_as_OT.lt_trans _ _ _ H1 H2).
Qed.

(** ** The default-size preference *)

Lemma preferred_filter_spec (discovered : gset Z) v :
  v ∈ List.filter (fun size => bool_decide (size ∈ discovered))
                  DEFAULT_ICO_SIZES_DESC
  <-> v ∈ DEFAULT_ICO_SIZES_DESC /\ v ∈ discovered.
Proof.
  rewrite !list_elem_of_In, filter_In, bool_decide_eq_true. reflexivity.
Qed.

Lemma prefer_default_sizes_spec inputs icons :
  opt_list_truthy inputs = false ->
  ((exists v, preferred_and_discovered icons v) ->
   exists sizes,
     prefer_default_sizes None inputs icons = Some sizes
     /\ forall v, v ∈ sizes <-> preferred_and_discovered icons v)
  /\ (~ (exists v, preferred_and_discovered icons v) ->
      prefer_default_sizes None inputs icons = None).
Proof.
  intros Hin. unfold prefer_default_sizes. rewrite Hin. cbn [is_none andb negb].
  set (discovered := list_to_set (map size icons) : gset Z).
  assert (Hmem : forall v,
            v ∈ List.filter (fun size => bool_decide (size ∈ discovered))
                            DEFAULT_ICO_SIZES_DESC
            <-> preferred_and_discovered icons v).
  { intros v. rewrite preferred_filter_spec. unfold preferred_and_discovered.
    unfold discovered. now rewrite elem_of_list_to_set. }
  destruct (List.filter _ DEFAULT_ICO_SIZES_DESC) as [|p ps] eqn:Ep.
  - split.
    + intros [v Hv]. apply Hmem in Hv. inversion Hv.
    + reflexivity.
  - cbn [list_truthy]. split.
    + intros _. eexists. split; [reflexivity|].
      intros v. now rewrite elem_of_list_to_set, Hmem.
    + intros Hno. exfalso. apply Hno. exists p. apply Hmem. left.
Qed.

(** ** The success line *)

Lemma select_and_encode_Ok_inv args include_sizes icons0 icons ico :
  select_and_encode args include_sizes icons0 = Ok (icons, ico) ->
  build_ico icons = Ok ico
  /\ exists filtered,
       icons = sorted size (String.eqb (order args) "desc")
                      (unique_by_size filtered).
Proof.
  unfold select_and_encode.
  destruct (filter_icons _ _ _) as [e|filtered]; [discriminate|]. cbn [bindR].
  destruct (build_ico _) as [e|out] eqn:Eb; [discriminate|]. cbn [bindR].
  intros [= <- <-]. split; [exact Eb|]. now exists filtered.
Qed.

Lemma pipeline_Ok_inv args w icons ico w1 :
  pipeline args w = (Ok (icons, ico), w1) ->
  build_ico icons = Ok ico
  /\ exists filtered,
       icons = sorted size (String.eqb (order args) "desc")
                      (unique_by_size filtered).
Proof.
  unfold pipeline, bindIO, liftR.
  destruct (parse_sizes (sizes args)) as [e|include_sizes]; [discriminate|].
  destruct (discover_pngs _ _ w) as [[e|paths] w']; [discriminate|].
  destruct (negb (list_truthy paths)); [discriminate|].
  destruct (mapIO read_png paths w') as [[e|icons0] w'']; [discriminate|].
  intros [= H _]. exact (select_and_encode_Ok_inv _ _ _ _ _ H).
Qed.

(** C9, as stated, fails: the default run on icons of sizes 16, 32 and 256
    succeeds and prints the sizes as "256, 32, 16", the order of the
    directory, which is not ascending. *)
Lemma success_line_counterexample :
  exists icons ico w1,
    pipeline default_args world3 = (Ok (icons, ico), w1)
    /\ (main default_args world3).1 = Return 0
    /\ last (trace (main default_args world3).2)
       = Some (PrintOut (success_line (output default_args) icons))
    /\ success_line (output default_args) icons
       = "Wrote public/icons/favicon.ico with 3 images: 256, 32, 16"
    /\ map size icons = [256; 32; 16]
    /\ ~ StronglySorted Z.le (map size icons).
Proof.
  do 3 eexists. split; [vm_compute; reflexivity|].
  split; [reflexivity|]. split; [reflexivity|]. split; [reflexivity|].
  split; [reflexivity|].
  cbn. intros H. apply StronglySorted_inv in H as [_ H].
  apply Forall_cons in H as [H _]. lia.
Qed.

(** C9 (amended): when the [try] block succeeds and the output can be
    written, [main] returns 0 and, after writing the file, prints one line:
    "Wrote <output> with <count> images: <sizes>", the sizes joined by ", "
    in the order of the directory entries, which is non-increasing for
    order "desc" (the default) and non-decreasing otherwise. *)
Theorem main_success_line (args : Args) (w : World) (icons : list PngIcon)
    (ico : bytes) (w1 : World) :
  pipeline args w = (Ok (icons, ico), w1) ->
  writable w (output args) = true ->
  (main args w).1 = Return 0
  /\ exit_code (main args w).1 = 0
  /\ (exists evs d,
        trace (main args w).2 =
        trace w ++ evs ++ [Makedirs d; WriteFile (output args) ico;
                           PrintOut (success_line (output args) icons)]
        /\ Forall is_read evs)
  /\ success_line (output args) icons
     = ("Wrote " ++ output args ++ " with " ++ str (len icons) ++ " images: "
        ++ join ", " (map (fun icon => str (size icon)) icons))%string
  /\ build_ico icons = Ok ico
  /\ (order args = "desc" -> StronglySorted size_ge icons)
  /\ (order args <> "desc" -> StronglySorted size_le icons).
Proof.
  intros Hp Hw.
  assert (Hw1 : writable w1 (output args) = true).
  { destruct (pipeline_extends args w) as (evs & Hext & _).
    rewrite Hp in Hext. cbn in Hext.
    now rewrite (extends_writable _ _ _ Hext). }
  destruct (main_success args w icons ico w1 Hp Hw1) as (Hr & _ & Ht).
  destruct (pipeline_Ok_inv args w icons ico w1 Hp) as (Hb & filtered & ->).
  split; [exact Hr|]. split; [now rewrite Hr|]. split; [exact Ht|].
  split; [reflexivity|]. split; [exact Hb|].
  split; intros Ho.
  - apply String.eqb_eq in Ho. rewrite Ho.
    destruct (sorted_size_facts true (unique_by_size filtered)) as (_ & Hs & _).
    eapply StronglySorted_weaken; [|exact Hs].
    intros a b. unfold key_le, size_ge. apply Z.leb_le.
  - apply String.eqb_neq in Ho. rewrite Ho.
    destruct (sorted_size_facts false (unique_by_size filtered)) as (_ & Hs & _).
    eapply StronglySorted_weaken; [|exact Hs].
    intros a b. unfold key_le, size_le. apply Z.leb_le.
Qed.

Lemma main_success_line_witness :
  (main default_args world3).1 = Return 0
  /\ exit_code (main default_args world3).1 = 0.
Proof.
  refine (let H := main_success_line default_args world3 _ _ _ _ _ in
          conj (proj1 H) (proj1 (proj2 H))).
  - vm_compute. reflexivity.
  - reflexivity.
Defined.

(** * Further properties *)

(** ** How a run ends *)

Lemma read_png_result p w : read_png p w = (read_result w p, log (OpenRead p) w).
Proof.
  unfold read_png, read_result. now destruct (files w !! file_id w p).
Qed.

Lemma read_result_files w w' p :
  files w' = files w -> file_id w' = file_id w ->
  read_result w' p = read_result w p.
Proof. unfold read_result. now intros -> ->. Qed.

Lemma trace_log e w : trace (log e w) = trace w ++ [e].
Proof. reflexivity. Qed.


(** ** No candidate file *)

(** X2: when the size list is well formed, no explicit input is given and
    the glob matches nothing, the run fails with the InputError "no PNG
    files found": one glob, no file opened, status 1. *)
Theorem main_no_png_found (args : Args) (w : World) (include_sizes : option (gset Z)) :
  parse_sizes (sizes args) = Ok include_sizes ->
  opt_list_truthy (inputs args) = false ->
  glob_glob w (path_join (icons_dir args) "icon-*.png") = [] ->
  main args w
  = (Return 1,
     log (PrintErr (ValueError NoPngFilesFound))
       (log (Glob (path_join (icons_dir args) "icon-*.png")) w))
  /\ kind_of_message NoPngFilesFound = InputError
  /\ trace (main args w).2
     = trace w ++ [Glob (path_join (icons_dir args) "icon-*.png");
                   PrintErr (ValueError NoPngFilesFound)].
Proof.
  intros Hs Hin Hg.
  assert (Hm : main args w
               = (Return 1,
                  log (PrintErr (ValueError NoPngFilesFound))
                    (log (Glob (path_join (icons_dir args) "icon-*.png")) w))).
  { unfold main, pipeline, bindIO, liftR. rewrite Hs. cbn [Ok].
    unfold discover_pngs.
    destruct (inputs args) as [[|p ps]|]; try discriminate;
      rewrite Hg; reflexivity. }
  rewrite Hm. split; [reflexivity|]. split; [reflexivity|].
  cbn [snd]. rewrite !trace_log, <- app_assoc. reflexivity.
Qed.

Lemma main_no_png_found_witness :
  (main default_args (mkWorld ∅ (fun p => p) [] (fun _ _ => [])
                               (fun _ _ => Written) [])).1 = Return 1.
Proof.
  exact (f_equal fst (proj1 (main_no_png_found default_args
                               (mkWorld ∅ (fun p => p) [] (fun _ _ => [])
                               (fun _ _ => Written) [])
                               None eq_refl eq_refl eq_refl))).
Defined.

(** ** Explicit inputs *)

Lemma log_all_app evs evs' w :
  log_all (evs ++ evs') w = log_all evs' (log_all evs w).
Proof. unfold log_all. apply fold_left_app. Qed.

Lemma log_all_extends evs : forall w, extends w (log_all evs w) evs.
Proof.
  induction evs as [|e evs IH]; intros w; [apply extends_refl|].
  cbn [log_all fold_left]. fold (log_all evs (log e w)).
  exact (extends_trans _ _ _ [e] evs
           (extends_log w w [] e (extends_refl w)) (IH (log e w))).
Qed.

Lemma trace_log_all evs w : trace (log_all evs w) = trace w ++ evs.
Proof. exact (extends_trace _ _ _ (log_all_extends evs w)). Qed.

(** The list comprehension of [main], in closed form. *)
Lemma mapIO_read_png_spec paths : forall w,
  mapIO read_png paths w
  = ((read_all w paths).1, log_all (map OpenRead (read_all w paths).2) w).
Proof.
  induction paths as [|p rest IH]; intros w; [reflexivity|].
  cbn [mapIO read_all]. unfold bindIO at 1. rewrite read_png_result.
  destruct (read_result w p) as [e|icon]; [reflexivity|].
  unfold bindIO. rewrite IH.
  assert (Hr : read_all (log (OpenRead p) w) rest = read_all w rest).
  { clear. induction rest as [|q rest IH]; [reflexivity|].
    cbn [read_all]. rewrite IH.
    now rewrite (read_result_files w (log (OpenRead p) w) q eq_refl eq_refl). }
  rewrite Hr. now destruct (read_all w rest) as [[e|icons] opened].
Qed.

Lemma read_all_with_glob g w paths :
  read_all (with_glob w g) paths = read_all w paths.
Proof.
  induction paths as [|p rest IH]; [reflexivity|].
  cbn [read_all]. rewrite IH. reflexivity.
Qed.

Lemma log_all_with_glob g evs : forall w,
  log_all evs (with_glob w g) = with_glob (log_all evs w) g.
Proof.
  induction evs as [|e evs IH]; intros w; [reflexivity|].
  cbn [log_all fold_left]. fold (log_all evs (log e (with_glob w g))).
  fold (log_all evs (log e w)). exact (IH (log e w)).
Qed.

Lemma mapIO_read_png_with_glob g paths w :
  mapIO read_png paths (with_glob w g)
  = ((mapIO read_png paths w).1, with_glob (mapIO read_png paths w).2 g).
Proof.
  rewrite !mapIO_read_png_spec, read_all_with_glob, log_all_with_glob.
  reflexivity.
Qed.

Lemma mapIO_read_png_no_glob paths w evs :
  trace (mapIO read_png paths w).2 = trace w ++ evs ->
  forall pattern, Glob pattern ∉ evs.
Proof.
  rewrite mapIO_read_png_spec. cbn [snd]. rewrite trace_log_all.
  intros Ht pattern. apply app_inv_head in Ht as <-.
  intros H. apply list_elem_of_In, in_map_iff in H as (q & Hq & _).
  discriminate.
Qed.

(** X3: with a non-empty explicit input list, the icons directory is never
    consulted: the run performs no glob, and its outcome, the files it
    leaves and its trace are the same for any icons directory and any
    content of the directories. *)
Theorem explicit_inputs_no_discovery (args : Args) (w : World)
    (d : string) (g : string -> list string) :
  opt_list_truthy (inputs args) = true ->
  (main (with_icons_dir args d) (with_glob w g)).1 = (main args w).1
  /\ files (main (with_icons_dir args d) (with_glob w g)).2
     = files (main args w).2
  /\ trace (main (with_icons_dir args d) (with_glob w g)).2
     = trace (main args w).2
  /\ forall evs pattern,
       trace (main args w).2 = trace w ++ evs -> Glob pattern ∉ evs.
Proof.
  intros Hin. destruct (inputs args) as [[|p ps]|] eqn:Ei; try discriminate.
  assert (Hp : pipeline args w
               = match parse_sizes (sizes args) with
                 | inl e => (inl e, w)
                 | inr include_sizes =>
                     match mapIO read_png (p :: ps) w with
                     | (inl e, w') => (inl e, w')
                     | (inr icons, w') =>
                         (select_and_encode args include_sizes icons, w')
                     end
                 end).
  { unfold pipeline, bindIO, liftR, discover_pngs. rewrite Ei.
    now destruct (parse_sizes (sizes args)). }
  assert (Hp' : pipeline (with_icons_dir args d) (with_glob w g)
                = ((pipeline args w).1, with_glob (pipeline args w).2 g)).
  { rewrite Hp. unfold pipeline, bindIO, liftR, discover_pngs.
    cbn [sizes inputs with_icons_dir]. rewrite Ei.
    destruct (parse_sizes (sizes args)) as [e|include_sizes]; [reflexivity|].
    cbn [retIO Ok list_truthy negb]. rewrite mapIO_read_png_with_glob.
    destruct (mapIO read_png (p :: ps) w) as [[e|icons] w']; reflexivity. }
  assert (Hm : main (with_icons_dir args d) (with_glob w g)
               = ((main args w).1, with_glob (main args w).2 g)).
  { unfold main. rewrite Hp'.
    destruct (pipeline args w) as [[e|[icons ico]] w1]; [reflexivity|].
    cbn [fst snd output with_icons_dir].
    change (output_result (with_glob w1 g) (output args))
      with (output_result w1 (output args)).
    now destruct (output_result w1 (output args)). }
  rewrite Hm. repeat split.
  intros evs pattern Ht.
  assert (Hpt : exists evs1 evs2,
             trace (pipeline args w).2 = trace w ++ evs1
             /\ (forall pat, Glob pat ∉ evs1)
             /\ trace (main args w).2 = trace (pipeline args w).2 ++ evs2
             /\ (forall pat, Glob pat ∉ evs2)).
  { assert (Hpre : exists evs1, trace (pipeline args w).2 = trace w ++ evs1
                                /\ forall pat, Glob pat ∉ evs1).
    { rewrite Hp. destruct (parse_sizes (sizes args)) as [e|include_sizes].
      - exists []. split; [now rewrite app_nil_r|]. intros pat.
        apply not_elem_of_nil.
      - destruct (mapIO_read_png_extends (p :: ps) w) as (evs1 & Hext & _).
        pose proof (extends_trace _ _ _ Hext) as Ht1.
        exists evs1.
        pose proof (mapIO_read_png_no_glob (p :: ps) w evs1 Ht1) as Hng.
        destruct (mapIO read_png (p :: ps) w) as [[e|icons] w'];
          cbn in Ht1 |- *; auto. }
    destruct Hpre as (evs1 & Ht1 & Hng1). exists evs1.
    unfold main. destruct (pipeline args w) as [[e|[icons ico]] w1];
      cbn [snd] in Ht1 |- *.
    - exists [PrintErr e]. repeat split; auto.
      intros pat H. apply list_elem_of_singleton in H. discriminate.
    - destruct (output_result w1 (output args));
        (eexists; split; [exact Ht1|]; split; [exact Hng1|]; split;
         [cbn; rewrite <- ?app_assoc; reflexivity|];
         intros pat H;
         repeat (apply elem_of_cons in H as [H|H]; [discriminate|]);
         now apply not_elem_of_nil in H). }
  destruct Hpt as (evs1 & evs2 & Ht1 & Hng1 & Ht2 & Hng2).
  rewrite Ht2, Ht1, <- app_assoc in Ht. apply app_inv_head in Ht as <-.
  intros H. apply elem_of_app in H as [H|H]; [exact (Hng1 _ H)|exact (Hng2 _ H)].
Qed.

Lemma explicit_inputs_no_discovery_witness :
  (main (with_icons_dir (with_inputs default_args (Some [icon16_path])) "elsewhere")
        (with_glob world3 (fun _ => []))).1
  = (main (with_inputs default_args (Some [icon16_path])) world3).1.
Proof.
  exact (proj1 (explicit_inputs_no_discovery
                  (with_inputs default_args (Some [icon16_path])) world3
                  "elsewhere" (fun _ => []) eq_refl)).
Defined.

(** ** A file that cannot be read or parsed *)

Lemma read_all_files w w' paths :
  files w' = files w -> file_id w' = file_id w ->
  read_all w' paths = read_all w paths.
Proof.
  intros Hf Hi. induction paths as [|p rest IH]; [reflexivity|].
  cbn [read_all]. now rewrite IH, (read_result_files w w' p Hf Hi).
Qed.

Lemma read_all_first_failure w pre bad post e :
  Forall (fun p => exists icon, read_result w p = Ok icon) pre ->
  read_result w bad = Raise e ->
  read_all w (pre ++ bad :: post) = (Raise e, pre ++ [bad]).
Proof.
  intros Hpre Hbad. induction Hpre as [|p pre [icon Hp] _ IH]; cbn [app read_all].
  - now rewrite Hbad.
  - rewrite Hp, IH. reflexivity.
Qed.

Lemma discover_pngs_files dir explicit w paths w1 :
  discover_pngs dir explicit w = (Ok paths, w1) -> files w1 = files w.
Proof.
  intros H. destruct (discover_pngs_extends dir explicit w) as (evs & Hext & _).
  rewrite H in Hext. now destruct Hext.
Qed.

Lemma discover_pngs_file_id dir explicit w paths w1 :
  discover_pngs dir explicit w = (Ok paths, w1) -> file_id w1 = file_id w.
Proof.
  intros H. destruct (discover_pngs_extends dir explicit w) as (evs & Hext & _).
  rewrite H in Hext. now destruct Hext as (_ & Hi & _).
Qed.

(** X4: the first input that cannot be opened or parsed ends the run: the
    inputs before it have been opened, in order, then it, and none after it;
    its error is the one printed, and the status is 1. *)
Theorem read_fails_fast (args : Args) (w : World)
    (include_sizes : option (gset Z)) (paths : list string) (w1 : World)
    (pre : list string) (bad : string) (post : list string) (e : exn) :
  parse_sizes (sizes args) = Ok include_sizes ->
  discover_pngs (icons_dir args) (inputs args) w = (Ok paths, w1) ->
  paths = pre ++ bad :: post ->
  Forall (fun p => exists icon, read_result w p = Ok icon) pre ->
  read_result w bad = Raise e ->
  (main args w).1 = Return 1
  /\ files (main args w).2 = files w
  /\ trace (main args w).2
     = trace w1 ++ map OpenRead pre ++ [OpenRead bad; PrintErr e].
Proof.
  intros Hs Hd -> Hpre Hbad.
  pose proof (discover_pngs_files _ _ _ _ _ Hd) as Hf.
  pose proof (discover_pngs_file_id _ _ _ _ _ Hd) as Hi.
  assert (Hp : pipeline args w
               = (Raise e, log_all (map OpenRead (pre ++ [bad])) w1)).
  { unfold pipeline, bindIO, liftR. rewrite Hs. unfold Ok in *. rewrite Hd.
    replace (negb (list_truthy (pre ++ bad :: post))) with false
      by now destruct pre.
    rewrite mapIO_read_png_spec, (read_all_files w w1 _ Hf Hi).
    now rewrite (read_all_first_failure w pre bad post e Hpre Hbad). }
  destruct (main_failure args w _ _ Hp) as (Hm & Hfiles & _).
  rewrite Hm. cbn [fst snd]. split; [reflexivity|].
  split; [now rewrite Hm in Hfiles|].
  rewrite trace_log, trace_log_all, map_app, <- !app_assoc. reflexivity.
Qed.

Lemma read_fails_fast_witness :
  trace (main (with_inputs default_args
                 (Some [icon16_path; "missing.png"; icon32_path])) world3).2
  = [OpenRead icon16_path; OpenRead "missing.png";
     PrintErr (OSError "missing.png")].
Proof.
  refine (proj2 (proj2 (read_fails_fast
                          (with_inputs default_args
                             (Some [icon16_path; "missing.png"; icon32_path]))
                          world3 None _ world3
                          [icon16_path] "missing.png" [icon32_path]
                          (OSError "missing.png") eq_refl eq_refl eq_refl _ _))).
  - constructor; [|constructor]. eexists. reflexivity.
  - reflexivity.
Defined.

(** ** What the parser returns, and what it looks at *)

Lemma decode_be_4_range b3 b2 b1 b0 :
  0 <= decode_be [b3; b2; b1; b0] <= 4294967295.
Proof.
  unfold decode_be. cbn [fold_left].
  pose proof (byte_to_Z_range b3). pose proof (byte_to_Z_range b2).
  pose proof (byte_to_Z_range b1). pose proof (byte_to_Z_range b0). lia.
Qed.

Lemma png_width_range content :
  33 <= len content -> 0 <= png_width content <= 4294967295.
Proof.
  intros Hlen. unfold png_width, len in *.
  pose proof (slice_length content 16 20 ltac:(lia)) as Hl.
  destruct (slice content 16 20) as [|b3 [|b2 [|b1 [|b0 [|]]]]];
    try discriminate.
  apply decode_be_4_range.
Qed.

(** X5: every icon the parser returns is well formed: it carries the path
    it was read from and the whole content of the file, which is at least
    33 bytes long and begins with the PNG signature; its size is the width
    and the height of the header and lies between 1 and 2^32 - 1. *)
Theorem parsed_icon_well_formed (p : string) (content : bytes) (icon : PngIcon) :
  parse_png p content = Ok icon ->
  path icon = p /\ data icon = content
  /\ 33 <= len (data icon)
  /\ firstn 8 (data icon) = PNG_SIGNATURE
  /\ size icon = png_width (data icon)
  /\ size icon = png_height (data icon)
  /\ 1 <= size icon <= 4294967295.
Proof.
  intros H. apply parse_png_Ok_iff in H as [[Hlen Hsig _ _ Hsq Hnz] ->].
  cbn [path data size]. pose proof (png_width_range content Hlen).
  repeat split; auto; lia.
Qed.

Lemma parsed_icon_well_formed_witness :
  1 <= size (sample_icon "a.png" 48) <= 4294967295.
Proof.
  exact (proj2 (proj2 (proj2 (proj2 (proj2 (proj2
           (parsed_icon_well_formed "a.png" (sample_png 48)
              (sample_icon "a.png" 48) eq_refl))))))).
Defined.

Lemma slice_firstn {A} (l : list A) n a b :
  (b <= n)%nat -> slice (firstn n l) a b = slice l a b.
Proof.
  intros Hb. unfold slice. rewrite skipn_firstn_comm, firstn_firstn.
  f_equal. lia.
Qed.

Lemma parse_png_header_only p d1 d2 :
  33 <= len d1 -> 33 <= len d2 -> firstn 24 d1 = firstn 24 d2 ->
  parse_png p d1
  = match parse_png p d2 with
    | inl e => inl e
    | inr icon => Ok (mkPngIcon p (size icon) d1)
    end.
Proof.
  intros H1 H2 Hpre.
  assert (Hs : forall a b, (b <= 24)%nat -> slice d1 a b = slice d2 a b).
  { intros a b Hb.
    now rewrite <- (slice_firstn d1 24 a b Hb), Hpre, slice_firstn. }
  rewrite !parse_png_spec. unfold startswith, ihdr_length, png_width, png_height.
  change (firstn (length PNG_SIGNATURE) d1) with (slice d1 0 8).
  change (firstn (length PNG_SIGNATURE) d2) with (slice d2 0 8).
  rewrite !Hs by lia.
  replace (len d1 <? 33) with false by (symmetry; apply Z.ltb_ge; lia).
  replace (len d2 <? 33) with false by (symmetry; apply Z.ltb_ge; lia).
  repeat match goal with
         | |- context [if ?c then _ else _] => destruct c
         end; reflexivity.
Qed.

(** X6: beyond its length, which must be at least 33, the parser looks at
    the first 24 bytes of a file only: two files that agree on them are
    accepted or rejected alike, with the same error or the same size; no
    later chunk and no checksum is inspected. *)
Theorem parser_reads_header_only (p : string) (d1 d2 : bytes) :
  33 <= len d1 -> 33 <= len d2 -> firstn 24 d1 = firstn 24 d2 ->
  (forall e, parse_png p d1 = Raise e <-> parse_png p d2 = Raise e)
  /\ (forall i1, parse_png p d1 = Ok i1 ->
        exists i2, parse_png p d2 = Ok i2 /\ size i2 = size i1
                   /\ data i1 = d1 /\ data i2 = d2).
Proof.
  intros H1 H2 Hpre.
  pose proof (parse_png_header_only p d1 d2 H1 H2 Hpre) as E.
  split.
  - intros e. rewrite E. destruct (parse_png p d2) as [e2|i2]; [reflexivity|].
    split; discriminate.
  - intros i1 Hi1. rewrite Hi1 in E.
    destruct (parse_png p d2) as [e2|i2] eqn:E2; [discriminate|].
    injection E as ->. exists i2.
    apply parse_png_Ok_iff in E2 as [_ ->]. auto.
Qed.

Lemma parser_reads_header_only_witness :
  exists i2, parse_png "a.png" (firstn 24 (sample_png 16) ++ repeat xff 9)
             = Ok i2 /\ size i2 = 16.
Proof.
  destruct (proj2 (parser_reads_header_only "a.png" (sample_png 16)
                     (firstn 24 (sample_png 16) ++ repeat xff 9)
                     ltac:(vm_compute; discriminate)
                     ltac:(vm_compute; discriminate) eq_refl)
              (sample_icon "a.png" 16) eq_refl) as (i2 & Hi & Hs & _).
  exists i2. split; [exact Hi|exact Hs].
Defined.

(** ** The order and the fixed points of the deduplication *)

Lemma dict_set_keys_list {V} k (v : V) d :
  map fst (dict_set k v d)
  = if bool_decide (k ∈ map fst d) then map fst d else map fst d ++ [k].
Proof.
  induction d as [|[k' v'] r IH]; [reflexivity|]. cbn [dict_set map fst].
  destruct (Z.eqb_spec k k') as [->|Hne].
  - rewrite bool_decide_eq_true_2 by left. reflexivity.
  - cbn [map fst]. rewrite IH.
    destruct (bool_decide_reflect (k ∈ map fst r)) as [Hin|Hnin].
    + rewrite bool_decide_eq_true_2 by now right. reflexivity.
    + rewrite bool_decide_eq_false_2; [reflexivity|].
      intros H. apply elem_of_cons in H as [H|H]; auto.
Qed.

Lemma filter_filter_absorb (keys : list Z) x l :
  x ∈ keys ->
  List.filter (fun y => negb (bool_decide (y ∈ keys)))
              (List.filter (fun y => negb (y =? x)) l)
  = List.filter (fun y => negb (bool_decide (y ∈ keys))) l.
Proof.
  intros Hx. induction l as [|y l IH]; [reflexivity|]. cbn [List.filter].
  destruct (Z.eqb_spec y x) as [->|Hne]; cbn [negb List.filter].
  - rewrite bool_decide_eq_true_2 by exact Hx. exact IH.
  - destruct (bool_decide (y ∈ keys)); cbn [negb]; now rewrite IH.
Qed.

Lemma filter_not_in_snoc (keys : list Z) x l :
  List.filter (fun y => negb (bool_decide (y ∈ keys ++ [x]))) l
  = List.filter (fun y => negb (bool_decide (y ∈ keys)))
                (List.filter (fun y => negb (y =? x)) l).
Proof.
  induction l as [|y l IH]; [reflexivity|]. cbn [List.filter].
  destruct (Z.eqb_spec y x) as [->|Hne]; cbn [negb List.filter].
  - rewrite bool_decide_eq_true_2 by (apply elem_of_app; right; left).
    exact IH.
  - destruct (bool_decide_reflect (y ∈ keys)) as [Hin|Hnin].
    + rewrite bool_decide_eq_true_2 by (apply elem_of_app; now left).
      exact IH.
    + rewrite bool_decide_eq_false_2; [cbn [negb]; now rewrite IH|].
      intros H. apply elem_of_app in H as [H|H]; [auto|].
      apply list_elem_of_singleton in H. auto.
Qed.

Lemma fold_dict_set_keys icons : forall d : list (Z * PngIcon),
  map fst (fold_left (fun by_size icon => dict_set (size icon) icon by_size)
                     icons d)
  = map fst d
    ++ List.filter (fun y => negb (bool_decide (y ∈ map fst d)))
                   (first_occurrences (map size icons)).
Proof.
  induction icons as [|x rest IH]; intros d.
  - cbn. now rewrite app_nil_r.
  - cbn [fold_left map first_occurrences List.filter].
    rewrite IH, dict_set_keys_list.
    destruct (bool_decide_reflect (size x ∈ map fst d)) as [Hin|Hnin];
      cbn [negb].
    + now rewrite filter_filter_absorb.
    + now rewrite filter_not_in_snoc, <- app_assoc.
Qed.

Lemma filter_true {A} (f : A -> bool) l :
  (forall x, f x = true) -> List.filter f l = l.
Proof.
  intros Hf. induction l as [|x l IH]; [reflexivity|].
  cbn. now rewrite Hf, IH.
Qed.

Lemma unique_by_size_sizes icons :
  map size (unique_by_size icons) = first_occurrences (map size icons).
Proof.
  unfold unique_by_size.
  destruct (fold_dict_set 0 icons [] ltac:(split; constructor)) as [[_ Hwf] _].
  pose proof (fold_dict_set_keys icons []) as Hk.
  cbn [map app] in Hk. rewrite filter_true in Hk by reflexivity.
  rewrite <- Hk. unfold dict_values. rewrite map_map.
  apply map_ext_Forall. eapply Forall_impl; [exact Hwf|]. cbn. auto.
Qed.

Lemma unique_by_size_elem icons icon :
  icon ∈ unique_by_size icons -> icon ∈ icons.
Proof.
  intros Hin.
  assert (Hw : icon ∈ with_size (size icon) (unique_by_size icons)).
  { apply list_elem_of_In, filter_In. split; [now apply list_elem_of_In|].
    apply Z.eqb_refl. }
  unfold unique_by_size in Hw.
  destruct (fold_dict_set (size icon) icons [] ltac:(split; constructor))
    as [_ Hl].
  cbn zeta in Hl. rewrite Hl in Hw.
  destruct (last (with_size (size icon) icons)) as [x|] eqn:El;
    [|inversion Hw].
  apply list_elem_of_singleton in Hw as ->.
  apply last_Some_elem_of in El.
  apply list_elem_of_In, filter_In in El as [El _]. now apply list_elem_of_In.
Qed.

Lemma dict_set_fresh {V} k (v : V) d :
  k ∉ map fst d -> dict_set k v d = d ++ [(k, v)].
Proof.
  induction d as [|[k' v'] r IH]; intros Hk; [reflexivity|].
  cbn [dict_set map fst] in *. apply not_elem_of_cons in Hk as [Hne Hk].
  destruct (Z.eqb_spec k k'); [contradiction|]. now rewrite IH.
Qed.

Lemma fold_dict_set_distinct icons : forall d : list (Z * PngIcon),
  NoDup (map size icons) ->
  (forall icon, icon ∈ icons -> size icon ∉ map fst d) ->
  dict_values (fold_left (fun by_size icon => dict_set (size icon) icon by_size)
                         icons d)
  = dict_values d ++ icons.
Proof.
  induction icons as [|x rest IH]; intros d Hnd Hfresh.
  - cbn. now rewrite app_nil_r.
  - cbn [fold_left map] in *. apply NoDup_cons in Hnd as [Hx Hnd].
    rewrite dict_set_fresh by (apply Hfresh; left).
    rewrite IH; [| exact Hnd |].
    + unfold dict_values. rewrite map_app. cbn. now rewrite <- app_assoc.
    + intros icon Hin. rewrite map_app. cbn [map fst].
      intros H. apply elem_of_app in H as [H|H].
      * apply (Hfresh icon); [now right|exact H].
      * apply list_elem_of_singleton in H. apply Hx. rewrite <- H.
        apply list_elem_of_In, in_map, list_elem_of_In, Hin.
Qed.

(** X7: the deduplicated list keeps the sizes in the order of their first
    occurrence in the input (the later icon takes the place of the earlier
    one), and every icon of the result is an icon of the input. *)
Theorem unique_by_size_order (icons : list PngIcon) :
  map size (unique_by_size icons) = first_occurrences (map size icons)
  /\ (forall icon, icon ∈ unique_by_size icons -> icon ∈ icons)
  /\ (forall a b c rest,
        size a = size c -> size b <> size a ->
        unique_by_size (a :: b :: c :: rest)
        = unique_by_size (c :: b :: rest)).
Proof.
  split; [apply unique_by_size_sizes|]. split; [apply unique_by_size_elem|].
  intros a b c rest Hac Hb. unfold unique_by_size. cbn [fold_left dict_set].
  rewrite <- Hac.
  destruct (Z.eqb_spec (size b) (size a)) as [|_]; [contradiction|].
  cbn [dict_set]. rewrite Z.eqb_refl. rewrite Hac. reflexivity.
Qed.

(** X8: a list whose sizes are pairwise distinct is left as it is, and
    deduplicating twice is deduplicating once. *)
Theorem unique_by_size_fixed_points (icons : list PngIcon) :
  (NoDup (map size icons) -> unique_by_size icons = icons)
  /\ unique_by_size (unique_by_size icons) = unique_by_size icons.
Proof.
  assert (Hid : forall l, NoDup (map size l) -> unique_by_size l = l).
  { intros l Hnd. unfold unique_by_size.
    rewrite fold_dict_set_distinct; [reflexivity|exact Hnd|].
    intros icon _. apply not_elem_of_nil. }
  split; [apply Hid|]. apply Hid. unfold unique_by_size.
  destruct (fold_dict_set 0 icons [] ltac:(split; constructor)) as [Hok _].
  now apply unique_sizes_NoDup.
Qed.

Lemma unique_by_size_fixed_points_witness :
  unique_by_size [sample_icon "a" 16; sample_icon "b" 32]
  = [sample_icon "a" 16; sample_icon "b" 32].
Proof.
  apply (proj1 (unique_by_size_fixed_points
                  [sample_icon "a" 16; sample_icon "b" 32])).
  cbn [map size sample_icon]. apply NoDup_cons. split.
  - intros H. apply list_elem_of_singleton in H. discriminate.
  - apply NoDup_singleton.
Defined.

Lemma unique_by_size_order_witness :
  unique_by_size [sample_icon "a" 16; sample_icon "b" 32; sample_icon "c" 16]
  = unique_by_size [sample_icon "c" 16; sample_icon "b" 32].
Proof.
  apply (proj2 (proj2 (unique_by_size_order []))
           (sample_icon "a" 16) (sample_icon "b" 32) (sample_icon "c" 16) []).
  - reflexivity.
  - discriminate.
Defined.

(** ** Sorting lists of distinct sizes *)

Lemma sorted_unique_on {A} (R : A -> A -> Prop) (l1 : list A) : forall l2,
  (forall a b, a ∈ l1 -> b ∈ l1 -> R a b -> R b a -> a = b) ->
  StronglySorted R l1 -> StronglySorted R l2 -> Permutation l1 l2 -> l1 = l2.
Proof.
  induction l1 as [|a r1 IH]; intros l2 Hanti H1 H2 Hp.
  - now apply Permutation_nil in Hp.
  - destruct H2 as [|b r2 Hr2 Hb].
    + apply Permutation_sym, Permutation_nil in Hp. discriminate.
    + apply StronglySorted_inv in H1 as [Hr1 Ha].
      assert (a = b) as <-.
      { assert (Hin : a ∈ b :: r2) by (rewrite <- Hp; left).
        assert (Hin' : b ∈ a :: r1) by (rewrite Hp; left).
        apply elem_of_cons in Hin as [He|Hin]; [exact He|].
        apply elem_of_cons in Hin' as [He|Hin']; [now symmetry|].
        rewrite Forall_forall in Ha, Hb.
        apply Hanti; [left|now right|now apply Ha|now apply Hb]. }
      f_equal. apply IH; [|exact Hr1|exact Hr2|].
      * intros x y Hx Hy. apply Hanti; now right.
      * now apply Permutation_cons_inv in Hp.
Qed.

Lemma NoDup_map_inj_on {A B} (f : A -> B) (l : list A) a b :
  NoDup (map f l) -> a ∈ l -> b ∈ l -> f a = f b -> a = b.
Proof.
  induction l as [|x l IH]; intros Hnd Ha Hb Hf; [inversion Ha|].
  cbn [map] in Hnd. apply NoDup_cons in Hnd as [Hx Hnd].
  assert (Hmem : forall y, y ∈ l -> f y ∈ map f l)
    by (intros y Hy; apply list_elem_of_In, in_map, list_elem_of_In, Hy).
  apply elem_of_cons in Ha as [->|Ha]; apply elem_of_cons in Hb as [->|Hb];
    auto.
  - exfalso. apply Hx. rewrite Hf. now apply Hmem.
  - exfalso. apply Hx. rewrite <- Hf. now apply Hmem.
Qed.

Lemma StronglySorted_snoc {A} (R : A -> A -> Prop) l x :
  StronglySorted R l -> Forall (fun y => R y x) l -> StronglySorted R (l ++ [x]).
Proof.
  induction 1 as [|a r Hr IH Ha]; intros Hx; cbn [app].
  - repeat constructor.
  - apply Forall_cons in Hx as [Hax Hx]. constructor; [now apply IH|].
    apply Forall_app. split; [exact Ha|now constructor].
Qed.

Lemma StronglySorted_rev {A} (R : A -> A -> Prop) l :
  StronglySorted R l -> StronglySorted (fun a b => R b a) (rev l).
Proof.
  induction 1 as [|a r Hr IH Ha]; cbn [rev]; [constructor|].
  apply StronglySorted_snoc; [exact IH|].
  apply Forall_forall. intros y Hy. rewrite Forall_forall in Ha.
  apply Ha. now apply list_elem_of_In, in_rev, list_elem_of_In.
Qed.

Lemma key_le_antisym_on reverse (l : list PngIcon) a b :
  NoDup (map size l) -> a ∈ l -> b ∈ l ->
  key_le size reverse a b = true -> key_le size reverse b a = true -> a = b.
Proof.
  intros Hnd Ha Hb H1 H2. apply (NoDup_map_inj_on size l); auto.
  unfold key_le in *. destruct reverse; apply Z.leb_le in H1, H2; lia.
Qed.

Lemma sorted_perm_invariant reverse icons icons' :
  NoDup (map size icons) -> Permutation icons icons' ->
  sorted size reverse icons' = sorted size reverse icons.
Proof.
  intros Hnd Hp.
  destruct (sorted_size_facts reverse icons) as (Hp1 & Hs1 & _).
  destruct (sorted_size_facts reverse icons') as (Hp2 & Hs2 & _).
  apply (sorted_unique_on (fun a b => key_le size reverse a b = true));
    [|exact Hs2|exact Hs1|now rewrite Hp2, Hp1, Hp].
  intros a b Ha Hb. apply (key_le_antisym_on reverse icons'); auto.
  - now rewrite <- Hp.
  - now rewrite <- Hp2.
  - now rewrite <- Hp2.
Qed.

Lemma sort_by_sorted_id {A} (le : A -> A -> bool) l :
  StronglySorted (fun a b => le a b = true) l -> sort_by le l = l.
Proof.
  induction 1 as [|a r Hr IH Ha]; [reflexivity|].
  cbn [sort_by fold_right]. fold (sort_by le r). rewrite IH.
  destruct r as [|b r]; [reflexivity|]. cbn [insert_sorted].
  apply Forall_cons in Ha as [Hab _]. now rewrite Hab.
Qed.

(** X9: sorting a sorted list changes nothing; and when the sizes are
    pairwise distinct, the descending order is the reverse of the ascending
    one and the result does not depend on the order of the input. *)
Theorem sort_icons_distinct_sizes (icons : list PngIcon) (order : string) :
  sort_icons (sort_icons icons order) order = sort_icons icons order
  /\ (NoDup (map size icons) ->
      sort_icons icons "desc" = rev (sort_icons icons "asc")
      /\ forall icons', Permutation icons icons' ->
                        sort_icons icons' order = sort_icons icons order).
Proof.
  split.
  - unfold sort_icons, sorted. apply sort_by_sorted_id, sort_by_sorted;
      [apply key_le_total|apply key_le_trans].
  - intros Hnd. split; [|intros icons' Hp; now apply sorted_perm_invariant].
    rewrite sort_icons_desc, sort_icons_asc.
    destruct (sorted_size_facts true icons) as (Hp1 & Hs1 & _).
    destruct (sorted_size_facts false icons) as (Hp2 & Hs2 & _).
    apply (sorted_unique_on (fun a b => key_le size true a b = true));
      [|exact Hs1| |].
    + intros a b Ha Hb. apply (key_le_antisym_on true icons); auto;
        now rewrite <- Hp1.
    + apply StronglySorted_rev in Hs2.
      eapply StronglySorted_weaken; [|exact Hs2]. cbn. auto.
    + now rewrite Hp1, <- Permutation_rev, Hp2.
Qed.

Lemma sort_icons_distinct_sizes_witness :
  sort_icons [sample_icon "a" 48; sample_icon "b" 16] "desc"
  = rev (sort_icons [sample_icon "a" 48; sample_icon "b" 16] "asc").
Proof.
  refine (proj1 (proj2 (sort_icons_distinct_sizes
                          [sample_icon "a" 48; sample_icon "b" 16] "desc") _)).
  cbn [map size sample_icon]. apply NoDup_cons. split.
  - intros H. apply list_elem_of_singleton in H. discriminate.
  - apply NoDup_singleton.
Defined.

(** ** Reading the output back *)

Lemma payloads_app a b : payloads (a ++ b) = payloads a ++ payloads b.
Proof. unfold payloads. now rewrite map_app, concat_app. Qed.

Lemma out_fields icons i icon :
  icons !! i = Some icon -> fits icon (entry_offset icons i) ->
  let out := ico_header (len icons) ++ ico_directory icons ++ payloads icons in
  field out (6 + 16 * i + 8) 4 = len (data icon)
  /\ field out (6 + 16 * i + 12) 4 = entry_offset icons i.
Proof.
  intros Hi (Hs & Hl & Ho) out.
  pose proof (len_nonneg (data icon)). pose proof (len_nonneg icons).
  pose proof (sum_len_nonneg (firstn i icons)).
  unfold field, out.
  replace (6 + 16 * i + 8 + 4)%nat with (6 + 16 * i + 12)%nat by lia.
  replace (6 + 16 * i + 12 + 4)%nat with (6 + 16 * i + 16)%nat by lia.
  rewrite !(out_entry_slice icons i icon) by (auto; lia).
  change (slice (ico_entry icon (entry_offset icons i)) 8 12)
    with (le32 (len (data icon))).
  change (slice (ico_entry icon (entry_offset icons i)) 12 16)
    with (le32 (entry_offset icons i)).
  rewrite !decode_le32; [auto| |lia]. unfold entry_offset in *. lia.
Qed.

Lemma slice_middle {A} (x y z : list A) :
  slice (x ++ y ++ z) (length x) (length x + length y) = y.
Proof.
  unfold slice. rewrite drop_app_length.
  replace (length x + length y - length x)%nat with (length y) by lia.
  apply take_app_length.
Qed.

Lemma entry_offset_nat icons i :
  Z.to_nat (entry_offset icons i)
  = length (ico_header (len icons) ++ ico_directory icons
            ++ payloads (firstn i icons)).
Proof.
  unfold entry_offset. rewrite !length_app, ico_directory_from,
    directory_from_length.
  pose proof (payloads_len (firstn i icons)) as Hp. unfold len in *.
  rewrite <- Hp. change (length (ico_header (Z.of_nat (length icons)))) with 6%nat.
  lia.
Qed.

Lemma out_payload_slice icons i icon :
  icons !! i = Some icon ->
  slice (ico_header (len icons) ++ ico_directory icons ++ payloads icons)
        (Z.to_nat (entry_offset icons i))
        (Z.to_nat (entry_offset icons i + len (data icon)))
  = data icon.
Proof.
  intros Hi. pose proof (len_nonneg (data icon)).
  assert (0 <= entry_offset icons i).
  { unfold entry_offset. pose proof (len_nonneg icons).
    pose proof (sum_len_nonneg (firstn i icons)). lia. }
  rewrite Z2Nat.inj_add, entry_offset_nat by lia.
  replace (Z.to_nat (len (data icon))) with (length (data icon))
    by (unfold len; lia).
  rewrite <- (take_drop_middle icons i icon Hi) at 3.
  rewrite payloads_app, payloads_cons, !app_assoc, <- (app_assoc _ (data icon)).
  apply slice_middle.
Qed.

(** X10: the directory of an output is enough to read the images back: the
    bytes that entry i's offset and length fields delimit are exactly icon
    i's data; the first payload starts right after the directory and each
    next one where the previous ends. *)
Theorem payloads_recoverable (icons : list PngIcon) (out : bytes) (i : nat)
    (icon : PngIcon) :
  build_ico icons = Ok out -> icons !! i = Some icon ->
  slice out (Z.to_nat (field out (6 + 16 * i + 12) 4))
            (Z.to_nat (field out (6 + 16 * i + 12) 4
                       + field out (6 + 16 * i + 8) 4))
  = data icon
  /\ (i = 0%nat -> field out (6 + 16 * i + 12) 4 = 6 + 16 * field out 4 2)
  /\ (forall next, icons !! S i = Some next ->
        field out (6 + 16 * S i + 12) 4
        = field out (6 + 16 * i + 12) 4 + field out (6 + 16 * i + 8) 4).
Proof.
  intros Hout Hi. apply build_ico_Ok_inv in Hout as (Hn & Hfit & ->).
  pose proof (proj1 (fits_from_entry_offset icons) Hfit) as Hfits.
  destruct (out_fields icons i icon Hi (Hfits i icon Hi)) as [Hlen Hoff].
  cbn zeta in Hlen, Hoff. rewrite Hlen, Hoff.
  split; [now apply out_payload_slice|]. split.
  - intros ->. unfold entry_offset, sum_len. cbn [firstn fold_right].
    assert (Hc : field (ico_header (len icons) ++ ico_directory icons
                        ++ payloads icons) 4 2 = len icons).
    { unfold field. rewrite slice_app_l by (cbn; lia).
      apply (decode_le16 (len icons)). pose proof (len_nonneg icons). lia. }
    rewrite Hc, take_0. cbn [fold_right]. lia.
  - intros next Hnext.
    destruct (out_fields icons (S i) next Hnext (Hfits _ _ Hnext)) as [_ Hoff'].
    cbn zeta in Hoff'. rewrite Hoff'. unfold entry_offset.
    rewrite (take_S_r icons i icon Hi), sum_len_app, sum_len_cons.
    cbn [sum_len fold_right]. lia.
Qed.

Lemma payloads_recoverable_witness :
  let icons := [sample_icon "a.png" 16; sample_icon "b.png" 256] in
  let out := ico_header 2 ++ ico_directory icons ++ payloads icons in
  slice out (Z.to_nat (field out (6 + 16 * 1 + 12) 4))
            (Z.to_nat (field out (6 + 16 * 1 + 12) 4
                       + field out (6 + 16 * 1 + 8) 4))
  = sample_png 256.
Proof.
  intros icons out.
  refine (proj1 (payloads_recoverable icons out 1 (sample_icon "b.png" 256)
                   _ eq_refl)).
  vm_compute. reflexivity.
Defined.

(** X11: every directory entry of an output has palette count 0, reserved
    byte 0, one colour plane and 32 bits per pixel, and its height byte is
    its width byte. *)
Theorem entries_fixed_fields (icons : list PngIcon) (out : bytes) (i : nat)
    (icon : PngIcon) :
  build_ico icons = Ok out -> icons !! i = Some icon ->
  field out (6 + 16 * i + 2) 1 = 0
  /\ field out (6 + 16 * i + 3) 1 = 0
  /\ field out (6 + 16 * i + 4) 2 = 1
  /\ field out (6 + 16 * i + 6) 2 = 32
  /\ field out (6 + 16 * i + 1) 1 = field out (6 + 16 * i) 1.
Proof.
  intros Hout Hi. apply build_ico_Ok_inv in Hout as (_ & _ & ->).
  unfold field.
  replace (6 + 16 * i + 2 + 1)%nat with (6 + 16 * i + 3)%nat by lia.
  replace (6 + 16 * i + 3 + 1)%nat with (6 + 16 * i + 4)%nat by lia.
  replace (6 + 16 * i + 4 + 2)%nat with (6 + 16 * i + 6)%nat by lia.
  replace (6 + 16 * i + 6 + 2)%nat with (6 + 16 * i + 8)%nat by lia.
  replace (6 + 16 * i + 1 + 1)%nat with (6 + 16 * i + 2)%nat by lia.
  pose proof (out_entry_slice icons i icon 0 1 Hi ltac:(lia)) as E0.
  rewrite Nat.add_0_r in E0.
  rewrite !(out_entry_slice icons i icon) by (auto; lia). rewrite E0.
  repeat split.
Qed.

Lemma entries_fixed_fields_witness :
  let icons := [sample_icon "a.png" 16] in
  field (ico_header 1 ++ ico_directory icons ++ payloads icons)
        (6 + 16 * 0 + 6) 2 = 32.
Proof.
  intros icons.
  refine (proj1 (proj2 (proj2 (proj2 (entries_fixed_fields icons _ 0
            (sample_icon "a.png" 16) _ eq_refl))))).
  vm_compute. reflexivity.
Defined.

(** ** What is selected *)

Lemma select_and_encode_inv args include_sizes icons0 icons ico :
  select_and_encode args include_sizes icons0 = Ok (icons, ico) ->
  let allowed := prefer_default_sizes include_sizes (inputs args) icons0 in
  let filtered := List.filter (kept allowed (max_size args)) icons0 in
  filtered <> []
  /\ icons = sort_icons (unique_by_size filtered) (order args)
  /\ build_ico icons = Ok ico.
Proof.
  unfold select_and_encode. rewrite filter_icons_spec.
  destruct (List.filter _ icons0) as [|x filtered] eqn:Ef; [discriminate|].
  cbn [bindR Ok].
  destruct (build_ico _) as [e|out] eqn:Eb; [discriminate|]. cbn [bindR].
  intros [= <- <-]. cbn zeta. split; [discriminate|]. split; auto.
Qed.

Lemma with_size_filter s f l :
  (forall a b, size a = size b -> f a = f b) ->
  with_size s (List.filter f l)
  = match last (with_size s l) with
    | Some i => if f i then with_size s l else []
    | None => []
    end.
Proof.
  intros Hf. unfold with_size.
  assert (Hall : forall i, i ∈ List.filter (fun icon => size icon =? s) l ->
                           size i = s).
  { intros i Hi. apply list_elem_of_In, filter_In in Hi as [_ Hi].
    now apply Z.eqb_eq. }
  destruct (last (List.filter (fun icon => size icon =? s) l)) as [i|] eqn:El.
  - apply last_Some_elem_of in El. apply Hall in El.
    induction l as [|x l IH]; [now destruct (f i)|].
    cbn [List.filter].
    destruct (Z.eqb_spec (size x) s) as [Hx|Hx].
    + rewrite (Hf x i) by congruence.
      assert (IH' : List.filter (fun icon => size icon =? s) (List.filter f l)
                    = if f i then List.filter (fun icon => size icon =? s) l
                      else []).
      { apply IH. intros j Hj. apply Hall. cbn [List.filter].
        destruct (Z.eqb_spec (size x) s); [now right|contradiction]. }
      destruct (f i) eqn:Efi; cbn [List.filter].
      * destruct (Z.eqb_spec (size x) s); [|contradiction]. now rewrite IH'.
      * exact IH'.
    + destruct (f x); cbn [List.filter].
      * destruct (Z.eqb_spec (size x) s); [contradiction|]. apply IH.
        intros j Hj. apply Hall. cbn [List.filter].
        destruct (Z.eqb_spec (size x) s); [contradiction|exact Hj].
      * apply IH. intros j Hj. apply Hall. cbn [List.filter].
        destruct (Z.eqb_spec (size x) s); [contradiction|exact Hj].
  - apply last_None in El. clear Hall.
    induction l as [|x l IH]; [reflexivity|]. cbn [List.filter] in El |- *.
    destruct (Z.eqb_spec (size x) s) as [Hx|Hx]; [discriminate|].
    destruct (f x); cbn [List.filter].
    + destruct (Z.eqb_spec (size x) s); [contradiction|]. now apply IH.
    + now apply IH.
Qed.

Lemma kept_by_size allowed max_size a b :
  size a = size b -> kept allowed max_size a = kept allowed max_size b.
Proof. unfold kept. now intros ->. Qed.

Lemma last_with_size_filter s f l i :
  (forall a b, size a = size b -> f a = f b) ->
  last (with_size s l) = Some i -> f i = true ->
  last (with_size s (List.filter f l)) = Some i.
Proof.
  intros Hf Hl Hfi. rewrite (with_size_filter s f l Hf), Hl, Hfi. exact Hl.
Qed.

(** X12: filter, deduplication and sort together select, for each size that
    passes the filter, the last parsed icon of that size and nothing else:
    the icons of a given size in the directory are that one icon if it is
    within the maximum and the allow-list, and none otherwise. *)
Theorem selection_by_size (args : Args) (include_sizes : option (gset Z))
    (icons0 icons : list PngIcon) (ico : bytes) (s : Z) :
  select_and_encode args include_sizes icons0 = Ok (icons, ico) ->
  let allowed := prefer_default_sizes include_sizes (inputs args) icons0 in
  with_size s icons
  = match last (with_size s icons0) with
    | Some icon => if kept allowed (max_size args) icon then [icon] else []
    | None => []
    end.
Proof.
  intros H allowed.
  destruct (select_and_encode_inv _ _ _ _ _ H) as (_ & -> & _).
  fold allowed.
  set (filtered := List.filter (kept allowed (max_size args)) icons0).
  destruct (sorted_size_facts (String.eqb (order args) "desc")
              (unique_by_size filtered)) as (_ & _ & Hst).
  unfold sort_icons. rewrite Hst. unfold unique_by_size.
  destruct (fold_dict_set s filtered [] ltac:(split; constructor)) as [_ Hl].
  cbn zeta in Hl. rewrite Hl. unfold filtered.
  rewrite (with_size_filter s _ icons0 (kept_by_size allowed (max_size args))).
  destruct (last (with_size s icons0)) as [i|] eqn:El; [|reflexivity].
  destruct (kept allowed (max_size args) i); [now rewrite El|reflexivity].
Qed.

Lemma selection_by_size_witness :
  with_size 16 (icons_in_directory (sample_png 16) (sample_png 32)
                                   (sample_png 256))
  = [mkPngIcon icon16_path 16 (sample_png 16)].
Proof.
  refine (selection_by_size default_args None
            (icons_as_read (sample_png 16) (sample_png 32) (sample_png 256))
            _ _ 16 _).
  vm_compute. reflexivity.
Defined.

(** X13: in discovery mode without a size list, the preferred sizes are all
    or nothing: either every embedded icon has a preferred size, or no
    parsed icon has one. *)
Theorem preferred_all_or_nothing (args : Args) (icons0 icons : list PngIcon)
    (ico : bytes) :
  opt_list_truthy (inputs args) = false ->
  select_and_encode args None icons0 = Ok (icons, ico) ->
  Forall (fun icon => size icon ∈ DEFAULT_ICO_SIZES_DESC) icons
  \/ Forall (fun icon => size icon ∉ DEFAULT_ICO_SIZES_DESC) icons0.
Proof.
  intros Hin H.
  destruct (select_and_encode_inv _ _ _ _ _ H) as (_ & -> & _).
  destruct (prefer_default_sizes_spec (inputs args) icons0 Hin) as [Hsome Hnone].
  destruct (Exists_dec (fun icon => size icon ∈ DEFAULT_ICO_SIZES_DESC) icons0)
    as [Hex|Hnex].
  - left. apply Exists_exists in Hex as (x & Hx & Hpref).
    destruct Hsome as (sizes & Hs & Hmem).
    { exists (size x). split; [exact Hpref|].
      now apply list_elem_of_In, in_map, list_elem_of_In. }
    rewrite Hs. apply Forall_forall. intros icon Hicon.
    destruct (sorted_size_facts (String.eqb (order args) "desc")
                (unique_by_size (List.filter (kept (Some sizes) (max_size args))
                                             icons0))) as (Hp & _).
    unfold sort_icons in Hicon. rewrite Hp in Hicon.
    apply unique_by_size_elem, list_elem_of_In, filter_In in Hicon as [_ Hk].
    apply kept_spec in Hk as [_ Hk]. specialize (Hk sizes eq_refl).
    now apply Hmem in Hk as [Hk _].
  - right. apply Forall_forall. intros icon Hicon Hpref. apply Hnex.
    apply Exists_exists. now exists icon.
Qed.

Lemma preferred_all_or_nothing_witness :
  Forall (fun icon => size icon ∈ DEFAULT_ICO_SIZES_DESC)
         [sample_icon "b" 16]
  \/ Forall (fun icon => size icon ∉ DEFAULT_ICO_SIZES_DESC)
            [sample_icon "a" 20; sample_icon "b" 16].
Proof.
  refine (preferred_all_or_nothing default_args
            [sample_icon "a" 20; sample_icon "b" 16] [sample_icon "b" 16]
            _ eq_refl _).
  vm_compute. reflexivity.
Defined.

(** ** What a written file holds *)

Lemma read_all_Ok w paths icons0 :
  (read_all w paths).1 = Ok icons0 ->
  Forall2 (fun p icon => read_result w p = Ok icon) paths icons0.
Proof.
  revert icons0. induction paths as [|p rest IH]; intros icons0; cbn [read_all].
  - intros [= <-]. constructor.
  - destruct (read_result w p) as [e|icon] eqn:Ep; [discriminate|].
    destruct (read_all w rest) as [[e|icons] opened]; [discriminate|].
    cbn [fst]. intros [= <-]. constructor; [exact Ep|now apply IH].
Qed.

Lemma pipeline_inv args w icons ico w1 :
  pipeline args w = (Ok (icons, ico), w1) ->
  exists include_sizes paths w0 icons0,
    parse_sizes (sizes args) = Ok include_sizes
    /\ discover_pngs (icons_dir args) (inputs args) w = (Ok paths, w0)
    /\ paths <> []
    /\ Forall2 (fun p icon => read_result w p = Ok icon) paths icons0
    /\ select_and_encode args include_sizes icons0 = Ok (icons, ico).
Proof.
  unfold pipeline, bindIO, liftR.
  destruct (parse_sizes (sizes args)) as [e|include_sizes]; [discriminate|].
  destruct (discover_pngs _ _ w) as [[e|paths] w0] eqn:Ed; [discriminate|].
  destruct paths as [|p ps]; [discriminate|]. cbn [list_truthy negb].
  rewrite mapIO_read_png_spec.
  rewrite (read_all_files w w0 _ (discover_pngs_files _ _ _ _ _ Ed)
             (discover_pngs_file_id _ _ _ _ _ Ed)).
  destruct (read_all w (p :: ps)) as [[e|icons0] opened] eqn:Er;
    [discriminate|].
  cbn [fst snd]. intros [= H _].
  exists include_sizes, (p :: ps), w0, icons0.
  split; [reflexivity|]. split; [reflexivity|]. split; [discriminate|].
  split; [|exact H]. apply read_all_Ok. now rewrite Er.
Qed.

Lemma read_result_Ok w p icon :
  read_result w p = Ok icon ->
  files w !! file_id w (path icon) = Some (data icon)
  /\ firstn 8 (data icon) = PNG_SIGNATURE
  /\ size icon = png_width (data icon)
  /\ 1 <= size icon.
Proof.
  unfold read_result. destruct (files w !! file_id w p) as [content|] eqn:Ef;
    [|discriminate].
  intros H. apply parse_png_Ok_iff in H as [[Hlen Hsig _ _ _ Hnz] ->].
  cbn [path data size]. pose proof (png_width_range content Hlen).
  repeat split; auto; lia.
Qed.

(** X14: an ICO that a run produces holds at least one image and at most
    one of a size; each image has a size between 1 and 256 that is within
    the configured maximum and, when a size list was given, in it; and its
    payload is, byte for byte, the content of the input file it was read
    from, which begins with the PNG signature. *)
Theorem produced_icons_invariant (args : Args) (w : World)
    (icons : list PngIcon) (ico : bytes) (w1 : World) :
  pipeline args w = (Ok (icons, ico), w1) ->
  icons <> []
  /\ NoDup (map size icons)
  /\ Forall (fun icon =>
               1 <= size icon <= 256 /\ size icon <= max_size args
               /\ files w !! file_id w (path icon) = Some (data icon)
               /\ firstn 8 (data icon) = PNG_SIGNATURE
               /\ size icon = png_width (data icon)) icons
  /\ (forall allowed, parse_sizes (sizes args) = Ok (Some allowed) ->
        Forall (fun icon => size icon ∈ allowed) icons).
Proof.
  intros Hp.
  destruct (pipeline_inv _ _ _ _ _ Hp)
    as (include_sizes & paths & w0 & icons0 & Hs & _ & _ & Hread & Hsel).
  destruct (select_and_encode_inv _ _ _ _ _ Hsel) as (Hne & Hicons & Hb).
  cbn zeta in Hne, Hicons.
  set (allowed := prefer_default_sizes include_sizes (inputs args) icons0) in *.
  set (filtered := List.filter (kept allowed (max_size args)) icons0) in *.
  destruct (sorted_size_facts (String.eqb (order args) "desc")
              (unique_by_size filtered)) as (Hperm & _).
  fold (sort_icons (unique_by_size filtered) (order args)) in Hperm.
  rewrite <- Hicons in Hperm.
  assert (Hin : forall icon, icon ∈ icons ->
                  icon ∈ icons0 /\ kept allowed (max_size args) icon = true).
  { intros icon Hicon. rewrite Hperm in Hicon.
    apply unique_by_size_elem, list_elem_of_In, filter_In in Hicon as [H1 H2].
    split; [now apply list_elem_of_In|exact H2]. }
  split; [|split; [|split]].
  - intros ->. apply Permutation_nil in Hperm.
    apply (f_equal (map size)) in Hperm.
    rewrite unique_by_size_sizes in Hperm.
    destruct filtered; [contradiction|discriminate].
  - rewrite Hperm. unfold unique_by_size.
    destruct (fold_dict_set 0 filtered [] ltac:(split; constructor)) as [Hok _].
    now apply unique_sizes_NoDup.
  - apply Forall_forall. intros icon Hicon.
    destruct (Hin icon Hicon) as [H0 Hk].
    apply kept_spec in Hk as [Hmax _].
    apply list_elem_of_lookup in H0 as [i Hi].
    destruct (Forall2_lookup_r _ _ _ _ _ Hread Hi) as (p & _ & Hr).
    destruct (read_result_Ok _ _ _ Hr) as (Hf & Hsig & Hw & H1).
    apply build_ico_Ok_inv in Hb as (_ & Hfit & _).
    apply list_elem_of_lookup in Hicon as [j Hj].
    destruct (proj1 (fits_from_entry_offset icons) Hfit j icon Hj) as (H256 & _).
    repeat split; auto; lia.
  - intros allowed' Hs'. rewrite Hs in Hs'. injection Hs' as ->.
    apply Forall_forall. intros icon Hicon.
    destruct (Hin icon Hicon) as [_ Hk].
    apply kept_spec in Hk as [_ Hk]. now apply Hk.
Qed.

Lemma produced_icons_invariant_witness :
  NoDup (map size (icons_in_directory (sample_png 16) (sample_png 32)
                                      (sample_png 256))).
Proof.
  refine (proj1 (proj2 (produced_icons_invariant default_args world3 _ _ _ _))).
  vm_compute. reflexivity.
Defined.

(** ** The encoder's own checks in a run *)

Lemma build_loop_error icons : forall entries image_data offset e,
  build_loop icons entries image_data offset = Raise e ->
  e = StructError
  \/ exists icon, icon ∈ icons /\ size icon > 256
                  /\ e = ValueError (CannotBeStored (path icon) (size icon)).
Proof.
  induction icons as [|icon rest IH]; intros entries image_data offset e H;
    [discriminate|].
  cbn [build_loop] in H. destruct (size icon >? 256) eqn:Es.
  - apply gtb_true in Es. injection H as <-. right. exists icon.
    split; [left|auto].
  - rewrite pack_entry_spec in H.
    destruct (_ && _) in H; cbn [bindR Ok] in H.
    + apply IH in H as [H|(x & Hx & Hbig & He)]; [now left|].
      right. exists x. split; [now right|auto].
    + injection H as <-. now left.
Qed.

Lemma build_ico_error icons e :
  build_ico icons = Raise e ->
  (e = ValueError TooManyIcons /\ len icons > 65535)
  \/ e = StructError
  \/ exists icon, icon ∈ icons /\ size icon > 256
                  /\ e = ValueError (CannotBeStored (path icon) (size icon)).
Proof.
  unfold build_ico. destruct (len icons >? 65535) eqn:En.
  - apply gtb_true in En. intros [= <-]. now left.
  - apply gtb_false in En. pose proof (len_nonneg icons).
    rewrite pack_header_Ok by lia. cbn [bindR Ok].
    destruct (build_loop _ _ _ _) as [e'|r] eqn:El; [|now destruct r].
    intros [= <-]. right. exact (build_loop_error _ _ _ _ _ El).
Qed.

Lemma distinct_in_range (l : list Z) (m : Z) :
  NoDup l -> Forall (fun x => 1 <= x <= m) l -> len l <= Z.max 0 m.
Proof.
  intros Hnd Hall.
  assert (Hsub : l ⊆+ seqZ 1 m).
  { apply NoDup_submseteq; [exact Hnd|]. intros x Hx.
    rewrite Forall_forall in Hall. apply Hall in Hx.
    apply elem_of_seqZ. lia. }
  apply submseteq_length in Hsub. rewrite length_seqZ in Hsub.
  unfold len. lia.
Qed.

Lemma selected_sizes allowed max_size order icons0 :
  Forall (fun icon => 1 <= size icon) icons0 ->
  let icons :=
    sort_icons (unique_by_size (List.filter (kept allowed max_size) icons0))
               order in
  NoDup (map size icons)
  /\ Forall (fun icon => 1 <= size icon <= max_size) icons.
Proof.
  intros Hpos icons. unfold icons, sort_icons.
  set (filtered := List.filter (kept allowed max_size) icons0).
  destruct (sorted_size_facts (String.eqb order "desc")
              (unique_by_size filtered)) as (Hperm & _).
  rewrite Hperm. split.
  - unfold unique_by_size.
    destruct (fold_dict_set 0 filtered [] ltac:(split; constructor)) as [Hok _].
    now apply unique_sizes_NoDup.
  - apply Forall_forall. intros icon Hicon.
    apply unique_by_size_elem, list_elem_of_In, filter_In in Hicon as [H0 Hk].
    apply kept_spec in Hk as [Hmax _].
    rewrite Forall_forall in Hpos.
    split; [apply Hpos; now apply list_elem_of_In|exact Hmax].
Qed.

Lemma parse_png_error p content e :
  parse_png p content = Raise e ->
  exists m, e = ValueError m /\ m <> TooManyIcons
            /\ forall q s, m <> CannotBeStored q s.
Proof.
  rewrite parse_png_spec.
  repeat match goal with
         | |- context [if ?c then _ else _] => destruct c
         end;
    intros [= <-]; eexists; (split; [reflexivity|split; [|intros q s]]);
    discriminate.
Qed.

Lemma parse_tokens_error tokens : forall acc e,
  parse_tokens tokens acc = Raise e ->
  exists m, e = ValueError m /\ kind_of_message m = ConfigError.
Proof.
  induction tokens as [|token rest IH]; intros acc e H; [discriminate|].
  cbn [parse_tokens] in H.
  destruct (negb (str_truthy (strip token))); [exact (IH _ _ H)|].
  destruct (int (strip token)) as [v|].
  - destruct (v <=? 0); [|exact (IH _ _ H)].
    injection H as <-. now eexists.
  - injection H as <-. now eexists.
Qed.

Lemma parse_sizes_error raw e :
  parse_sizes raw = Raise e ->
  exists m, e = ValueError m /\ kind_of_message m = ConfigError.
Proof.
  unfold parse_sizes. destruct raw as [raw|]; [|discriminate].
  destruct (negb (str_truthy raw)); [discriminate|].
  destruct (parse_tokens (split "," raw) ∅) as [e'|sizes] eqn:Et; cbn [bindR].
  - intros [= <-]. exact (parse_tokens_error _ _ _ Et).
  - destruct (bool_decide (sizes = ∅)); [|discriminate].
    intros [= <-]. now eexists.
Qed.

Lemma read_all_error w paths e :
  (read_all w paths).1 = Raise e -> exists p, read_result w p = Raise e.
Proof.
  induction paths as [|p rest IH]; cbn [read_all]; [discriminate|].
  destruct (read_result w p) as [e'|icon] eqn:Ep.
  - intros [= <-]. now exists p.
  - destruct (read_all w rest) as [[e'|icons] opened]; [|discriminate].
    cbn [fst] in *. intros [= <-]. now apply IH.
Qed.

Lemma read_all_positive w paths icons0 :
  (read_all w paths).1 = Ok icons0 -> Forall (fun icon => 1 <= size icon) icons0.
Proof.
  intros H. apply read_all_Ok in H.
  induction H as [|p icon paths icons0 Hr _ IH]; constructor; [|exact IH].
  now apply read_result_Ok in Hr.
Qed.

(** X15: in a run whose maximum size is at most 256, as by default, the
    encoder's size check never fires, and with a maximum of at most 65535
    neither does its count check: the filter leaves sizes within the
    maximum and the deduplication one icon per size.  The only failure left
    to the encoder is a payload beyond the 32-bit fields. *)
Theorem encoder_checks_unreachable (args : Args) (w : World) (e : exn) :
  (pipeline args w).1 = Raise e ->
  (max_size args <= 65535 -> e <> ValueError TooManyIcons)
  /\ (max_size args <= 256 ->
      forall p s, e <> ValueError (CannotBeStored p s)).
Proof.
  unfold pipeline, bindIO, liftR.
  destruct (parse_sizes (sizes args)) as [e0|include_sizes] eqn:Es.
  { cbn [fst]. intros [= <-].
    destruct (parse_sizes_error _ _ Es) as (m & -> & Hk).
    split; [intros _ [= ->]|intros _ p s [= ->]]; discriminate. }
  destruct (discover_pngs _ _ w) as [[e0|paths] w0] eqn:Ed.
  { exfalso. unfold discover_pngs in Ed.
    destruct (inputs args) as [[|? ?]|]; discriminate. }
  destruct (negb (list_truthy paths)).
  { cbn [fst]. intros [= <-]. split; [intros _|intros _ p s]; discriminate. }
  rewrite mapIO_read_png_spec.
  rewrite (read_all_files w w0 _ (discover_pngs_files _ _ _ _ _ Ed)
             (discover_pngs_file_id _ _ _ _ _ Ed)).
  destruct (read_all w paths) as [[e0|icons0] opened] eqn:Er; cbn [fst snd].
  { intros [= <-].
    destruct (read_all_error w paths e0 ltac:(now rewrite Er)) as (p & Hp).
    unfold read_result in Hp. destruct (files w !! file_id w p) as [content|].
    - destruct (parse_png_error _ _ _ Hp) as (m & -> & H1 & H2).
      split; [intros _ [= ->]|intros _ q s [= ->]]; [now apply H1|].
      now apply (H2 q s).
    - injection Hp as <-. split; [intros _|intros _ q s]; discriminate. }
  pose proof (read_all_positive w paths icons0 ltac:(now rewrite Er)) as Hpos.
  unfold select_and_encode. rewrite filter_icons_spec.
  set (allowed := prefer_default_sizes include_sizes (inputs args) icons0).
  destruct (selected_sizes allowed (max_size args) (order args) icons0 Hpos)
    as [Hnd Hrange].
  destruct (List.filter (kept allowed (max_size args)) icons0)
    as [|x filtered] eqn:Ef.
  { cbn [bindR]. intros [= <-]. split; [intros _|intros _ p s]; discriminate. }
  cbn [bindR Ok].
  destruct (build_ico _) as [e0|out] eqn:Eb; cbn [bindR]; [|discriminate].
  intros [= <-].
  apply build_ico_error in Eb as [[-> Hn]|[->|(icon & Hin & Hbig & ->)]].
  - split; [|intros _ p s; discriminate]. intros Hmax _.
    pose proof (distinct_in_range _ (max_size args) Hnd
                  ltac:(now apply Forall_map)) as Hlen.
    unfold len in Hlen, Hn. rewrite length_map in Hlen. lia.
  - split; [intros _|intros _ p s]; discriminate.
  - split; [intros _; discriminate|]. intros Hmax p s _.
    rewrite Forall_forall in Hrange. apply Hrange in Hin. lia.
Qed.

Lemma encoder_checks_unreachable_witness :
  ValueError NoIconsLeftAfterFiltering <> ValueError TooManyIcons.
Proof.
  refine (proj1 (encoder_checks_unreachable args_max16 world2 _ _) _).
  - vm_compute. reflexivity.
  - vm_compute. discriminate.
Defined.

(** ** The order of discovery *)

Lemma filter_Permutation_bool {A} (f : A -> bool) l l' :
  Permutation l l' -> Permutation (List.filter f l) (List.filter f l').
Proof.
  induction 1 as [|x l l' _ IH|x y l|l1 l2 l3 _ IH1 _ IH2]; cbn [List.filter].
  - constructor.
  - destruct (f x); [now constructor|exact IH].
  - destruct (f x), (f y); try reflexivity. apply perm_swap.
  - now transitivity (List.filter f l2).
Qed.

Lemma NoDup_map_filter {A B} (g : A -> B) (f : A -> bool) l :
  NoDup (map g l) -> NoDup (map g (List.filter f l)).
Proof.
  induction l as [|x l IH]; cbn [map List.filter]; [auto|].
  intros Hnd. apply NoDup_cons in Hnd as [Hx Hnd].
  destruct (f x); [|now apply IH]. cbn [map]. apply NoDup_cons.
  split; [|now apply IH]. intros Hin. apply Hx.
  apply list_elem_of_In, in_map_iff in Hin as (y & Hy & Hin).
  apply filter_In in Hin as [Hin _]. rewrite <- Hy.
  now apply list_elem_of_In, in_map.
Qed.

Lemma prefer_default_sizes_perm include_sizes inputs icons icons' :
  Permutation icons icons' ->
  prefer_default_sizes include_sizes inputs icons'
  = prefer_default_sizes include_sizes inputs icons.
Proof.
  intros Hp. unfold prefer_default_sizes.
  assert (Hset : (list_to_set (map size icons') : gset Z)
                 = list_to_set (map size icons)).
  { apply set_eq. intros v. rewrite !elem_of_list_to_set.
    now rewrite (Permutation_map size Hp). }
  now rewrite Hset.
Qed.

(** X16: when the parsed icons have pairwise distinct sizes, the order in
    which they were read does not matter: the selected icons and the
    encoded bytes, or the error, are the same for any other order. *)
Theorem selection_order_independent (args : Args)
    (include_sizes : option (gset Z)) (icons0 icons0' : list PngIcon) :
  NoDup (map size icons0) -> Permutation icons0 icons0' ->
  select_and_encode args include_sizes icons0'
  = select_and_encode args include_sizes icons0.
Proof.
  intros Hnd Hp. unfold select_and_encode.
  rewrite (prefer_default_sizes_perm _ _ _ _ Hp), !filter_icons_spec.
  set (allowed := prefer_default_sizes include_sizes (inputs args) icons0).
  pose proof (filter_Permutation_bool (kept allowed (max_size args)) _ _ Hp)
    as Hpf.
  pose proof (NoDup_map_filter size (kept allowed (max_size args)) _ Hnd)
    as Hndf.
  assert (Hndf' : NoDup (map size (List.filter (kept allowed (max_size args))
                                               icons0')))
    by now rewrite <- (Permutation_map size Hpf).
  assert (Hsel : sort_icons (unique_by_size
                    (List.filter (kept allowed (max_size args)) icons0'))
                    (order args)
                 = sort_icons (unique_by_size
                    (List.filter (kept allowed (max_size args)) icons0))
                    (order args)).
  { unfold unique_by_size at 1 2.
    rewrite !fold_dict_set_distinct by
      (auto; intros; apply not_elem_of_nil).
    cbn [dict_values map app]. unfold sort_icons.
    now apply sorted_perm_invariant. }
  destruct (List.filter (kept allowed (max_size args)) icons0)
    as [|x l] eqn:E, (List.filter (kept allowed (max_size args)) icons0')
    as [|x' l'] eqn:E'.
  - reflexivity.
  - apply Permutation_nil in Hpf. discriminate.
  - apply Permutation_sym, Permutation_nil in Hpf. discriminate.
  - cbn [bindR Ok]. now rewrite Hsel.
Qed.

Lemma selection_order_independent_witness :
  select_and_encode default_args None
    [sample_icon "b" 32; sample_icon "a" 16]
  = select_and_encode default_args None
      [sample_icon "a" 16; sample_icon "b" 32].
Proof.
  apply selection_order_independent; [|apply perm_swap].
  cbn [map size sample_icon]. apply NoDup_cons. split.
  - intros H. apply list_elem_of_singleton in H. discriminate.
  - apply NoDup_singleton.
Defined.

(** ** Which files a run depends on *)

Lemma read_result_agree w w' p :
  files w' !! file_id w' p = files w !! file_id w p ->
  read_result w' p = read_result w p.
Proof. unfold read_result. now intros ->. Qed.

Lemma read_all_agree w w' paths :
  (forall p, p ∈ paths -> files w' !! file_id w' p = files w !! file_id w p) ->
  read_all w' paths = read_all w paths.
Proof.
  induction paths as [|p rest IH]; intros Hag; [reflexivity|].
  cbn [read_all]. rewrite (read_result_agree w w' p) by (apply Hag; left).
  rewrite IH; [reflexivity|]. intros q Hq. apply Hag. now right.
Qed.

(** The events of the discovery do not depend on the world. *)
Lemma discover_pngs_events dir explicit w w' :
  exists evs, (discover_pngs dir explicit w).2 = log_all evs w
              /\ (discover_pngs dir explicit w').2 = log_all evs w'.
Proof.
  unfold discover_pngs.
  destruct explicit as [[|p ps]|]; cbn [fst snd retIO];
    first [ now exists []
          | exists [Glob (path_join dir "icon-*.png")]; now split ].
Qed.

Lemma discover_pngs_frame dir explicit w w' :
  glob_glob w' = glob_glob w ->
  (discover_pngs dir explicit w').1 = (discover_pngs dir explicit w).1.
Proof.
  intros Hg. unfold discover_pngs.
  destruct explicit as [[|p ps]|]; cbn [fst snd retIO]; now rewrite ?Hg.
Qed.

Lemma log_all_files evs w : files (log_all evs w) = files w.
Proof. now destruct (log_all_extends evs w) as (-> & _). Qed.

Lemma log_all_file_id evs w : file_id (log_all evs w) = file_id w.
Proof. now destruct (log_all_extends evs w) as (_ & -> & _). Qed.

Lemma log_all_output evs w : output_result (log_all evs w) = output_result w.
Proof. exact (extends_output _ _ _ (log_all_extends evs w)). Qed.

Lemma log_all_writable evs w : writable (log_all evs w) = writable w.
Proof. exact (extends_writable _ _ _ (log_all_extends evs w)). Qed.

Lemma pipeline_frame args w w' paths w0 :
  discover_pngs (icons_dir args) (inputs args) w = (Ok paths, w0) ->
  (discover_pngs (icons_dir args) (inputs args) w').1 = Ok paths ->
  (forall p, p ∈ paths -> files w' !! file_id w' p = files w !! file_id w p) ->
  (pipeline args w').1 = (pipeline args w).1
  /\ exists evs, (pipeline args w).2 = log_all evs w
                 /\ (pipeline args w').2 = log_all evs w'.
Proof.
  intros Hd Hr Hag. unfold pipeline, bindIO, liftR.
  destruct (parse_sizes (sizes args)) as [e|include_sizes].
  { split; [reflexivity|]. now exists []. }
  destruct (discover_pngs_events (icons_dir args) (inputs args) w w')
    as (evs & Hw & Hw').
  rewrite Hd in Hw. cbn [fst snd] in Hw.
  destruct (discover_pngs (icons_dir args) (inputs args) w') as [r' w0'].
  cbn [fst snd] in Hr, Hw'. subst r' w0 w0'.
  rewrite Hd. cbn [Ok]. destruct (negb (list_truthy paths)).
  { split; [reflexivity|]. now exists evs. }
  rewrite !mapIO_read_png_spec.
  rewrite (read_all_files w (log_all evs w) paths
             (log_all_files evs w) (log_all_file_id evs w)).
  rewrite (read_all_files w' (log_all evs w') paths
             (log_all_files evs w') (log_all_file_id evs w')).
  rewrite (read_all_agree w w' paths Hag).
  destruct (read_all w paths) as [[e|icons0] opened]; cbn [fst snd];
    (split; [reflexivity|]); exists (evs ++ map OpenRead opened);
    now rewrite !log_all_app.
Qed.

(** X17: a run depends on the file system only through the glob, the end
    of the output stage and the content of the candidate files: in two
    worlds with the same glob results, the same end of the output stage for
    the output path and the same content at each candidate path, [main]
    ends alike and adds the same events, the bytes it writes included. *)
Theorem run_depends_on_inputs_only (args : Args) (w w' : World)
    (paths : list string) (w0 : World) :
  discover_pngs (icons_dir args) (inputs args) w = (Ok paths, w0) ->
  glob_glob w' = glob_glob w ->
  output_result w' (output args) = output_result w (output args) ->
  (forall p, p ∈ paths -> files w' !! file_id w' p = files w !! file_id w p) ->
  (main args w').1 = (main args w).1
  /\ exists evs, trace (main args w).2 = trace w ++ evs
                 /\ trace (main args w').2 = trace w' ++ evs.
Proof.
  intros Hd Hg Hwr Hag.
  pose proof (discover_pngs_frame (icons_dir args) (inputs args) w w' Hg) as Hd'.
  rewrite Hd in Hd'. cbn [fst] in Hd'.
  destruct (pipeline_frame args w w' paths w0 Hd Hd' Hag)
    as (Hr & evs & Hw & Hw').
  unfold main.
  destruct (pipeline args w) as [r w1], (pipeline args w') as [r' w1'].
  cbn [fst snd] in Hr, Hw, Hw'. subst r' w1 w1'.
  destruct r as [e|[icons ico]].
  - split; [reflexivity|]. exists (evs ++ [PrintErr e]).
    cbn [snd]. rewrite !trace_log, !trace_log_all, !app_assoc. auto.
  - rewrite !log_all_output, Hwr.
    destruct (output_result w (output args));
      (split; [reflexivity|]); eexists; cbn [snd];
      cbn [trace log makedirs write_file];
      rewrite !trace_log_all, <- !app_assoc; split; reflexivity.
Qed.

Lemma run_depends_on_inputs_only_witness :
  (main default_args world3_and_notes).1 = (main default_args world3).1.
Proof.
  refine (proj1 (run_depends_on_inputs_only default_args world3
                   world3_and_notes _ _ eq_refl eq_refl eq_refl _)).
  intros p Hp.
  change (<["notes.txt" := [x00]]> (files world3) !! p = files world3 !! p).
  apply lookup_insert_ne.
  intros <-. vm_compute in Hp.
  repeat (apply elem_of_cons in Hp as [Hp|Hp]; [discriminate|]).
  now apply not_elem_of_nil in Hp.
Defined.

(** X18: running the tool again on its own result changes nothing, as long
    as that result is not taken for an input: after a successful run, if a
    second run has the same candidates (the glob lists neither the output
    nor a directory made), none of them names the output file, and the
    output can be written again, then the second run succeeds too and
    leaves every file as it is. *)
Theorem rerun_changes_nothing (args : Args) (w : World)
    (paths : list string) (w0 : World) :
  discover_pngs (icons_dir args) (inputs args) w = (Ok paths, w0) ->
  (main args w).1 = Return 0 ->
  (discover_pngs (icons_dir args) (inputs args) (main args w).2).1 = Ok paths ->
  file_id w (output args) ∉ map (file_id w) paths ->
  writable (main args w).2 (output args) = true ->
  (main args (main args w).2).1 = Return 0
  /\ files (main args (main args w).2).2 = files (main args w).2.
Proof.
  intros Hd Hok Hd' Hout Hwr'.
  destruct (pipeline_frame args w w paths w0 Hd ltac:(now rewrite Hd)
              ltac:(auto)) as (_ & evs & Hw & _).
  destruct (pipeline args w) as [[e|[icons ico]] w1] eqn:Hp.
  { unfold main in Hok. rewrite Hp in Hok. discriminate. }
  cbn [snd] in Hw. subst w1.
  set (w' := (main args w).2) in *.
  assert (Hw' : files w' = <[file_id w (output args) := ico]> (files w)
                /\ file_id w' = file_id w).
  { unfold w', main in Hok |- *. rewrite Hp in Hok |- *.
    destruct (output_result (log_all evs w) (output args)); try discriminate.
    cbn. now rewrite log_all_files, log_all_file_id. }
  destruct Hw' as (Hf & Hi).
  destruct (pipeline_frame args w w' paths w0 Hd Hd') as (Hr & evs' & _ & Hw'').
  { intros p Hin. rewrite Hf, Hi. apply lookup_insert_ne. intros Heq.
    apply Hout. rewrite Heq. apply list_elem_of_fmap. now exists p. }
  rewrite Hp in Hr. cbn [fst] in Hr. unfold main.
  destruct (pipeline args w') as [r' w1']. cbn [fst snd] in Hr, Hw''.
  subst r' w1'. rewrite log_all_output.
  unfold writable in Hwr'.
  destruct (output_result w' (output args)); try discriminate. cbn.
  split; [reflexivity|].
  rewrite log_all_files, log_all_file_id, Hf, Hi. apply insert_insert_eq.
Qed.

Lemma rerun_changes_nothing_witness :
  (main default_args (main default_args world3).2).1 = Return 0.
Proof.
  refine (proj1 (rerun_changes_nothing default_args world3 _ _
                   eq_refl eq_refl eq_refl _ eq_refl)).
  intros Hp. vm_compute in Hp.
  repeat (apply elem_of_cons in Hp as [Hp|Hp]; [discriminate|]).
  now apply not_elem_of_nil in Hp.
Defined.

(** ** What a size list can yield *)

Lemma parse_tokens_Ok tokens : forall acc sizes,
  parse_tokens tokens acc = Ok sizes ->
  Forall positive_token (List.filter str_truthy (map strip tokens)).
Proof.
  induction tokens as [|token rest IH]; intros acc sizes H; [constructor|].
  rewrite size_tokens_cons. cbn [parse_tokens] in H.
  destruct (str_truthy (strip token)); cbn [negb] in H; [|exact (IH _ _ H)].
  destruct (int (strip token)) as [v|] eqn:Ev; [|discriminate].
  destruct (Z.leb_spec v 0); [discriminate|].
  constructor; [exists v; split; [exact Ev|lia]|exact (IH _ _ H)].
Qed.

(** X19: [parse_sizes] yields no allow-list only for an absent or empty
    text; an allow-list it yields is never empty, holds positive integers
    only, and is the set of the values of the trimmed non-empty tokens,
    whatever their order, their repetitions and the blanks around them. *)
Theorem parse_sizes_result (raw : option string) (result : option (gset Z)) :
  parse_sizes raw = Ok result ->
  (result = None <-> raw = None \/ raw = Some EmptyString)
  /\ forall sizes, result = Some sizes ->
       sizes <> ∅
       /\ (forall v, v ∈ sizes -> 0 < v)
       /\ exists text, raw = Some text
            /\ Forall positive_token (size_tokens text)
            /\ forall v, v ∈ sizes <->
                 exists t, t ∈ size_tokens text /\ int t = Some v.
Proof.
  intros H. destruct raw as [text|].
  2: { injection H as <-. split; [split; auto|discriminate]. }
  unfold parse_sizes in H. destruct text as [|c text'].
  { injection H as <-. split; [split; auto|discriminate]. }
  cbn [str_truthy negb] in H.
  destruct (parse_tokens _ ∅) as [e|sizes] eqn:Et; [discriminate|].
  cbn [bindR] in H.
  destruct (bool_decide_reflect (sizes = ∅)) as [|Hne]; [discriminate|].
  injection H as <-. split.
  - split; [discriminate|]. intros [|]; discriminate.
  - intros ? [= <-].
    pose proof (parse_tokens_Ok _ _ _ Et) as Hall.
    destruct (parse_tokens_positive _ ∅ Hall) as (sizes' & Hs & Hmem).
    rewrite Et in Hs. injection Hs as <-.
    fold (size_tokens (String c text')) in Hall, Hmem.
    assert (Hmem' : forall v, v ∈ sizes <->
              exists t, t ∈ size_tokens (String c text') /\ int t = Some v).
    { intros v. rewrite Hmem. split; [intros [Hv|Hv]|auto]; [|exact Hv].
      now apply not_elem_of_empty in Hv. }
    split; [exact Hne|]. split.
    + intros v Hv. apply Hmem' in Hv as (t & Ht & Hi).
      rewrite Forall_forall in Hall. destruct (Hall t Ht) as (v' & Hv' & Hpos).
      congruence.
    + exists (String c text'). auto.
Qed.

Lemma parse_sizes_result_witness :
  parse_sizes (Some " 32,16 ,, 32") = Ok (Some {[16; 32]})
  /\ ({[16; 32]} : gset Z) <> ∅.
Proof.
  assert (H : parse_sizes (Some " 32,16 ,, 32") = Ok (Some {[16; 32]}))
    by (vm_compute; reflexivity).
  split; [exact H|].
  exact (proj1 (proj2 (parse_sizes_result (Some " 32,16 ,, 32")
                         (Some {[16; 32]}) H) _ eq_refl)).
Defined.

(** ** Widening the filter *)

Lemma filter_sublist {A} (f g : A -> bool) l :
  (forall x, f x = true -> g x = true) ->
  sublist (List.filter f l) (List.filter g l).
Proof.
  intros Hfg. induction l as [|x l IH]; cbn [List.filter]; [constructor|].
  destruct (f x) eqn:Ef.
  - rewrite (Hfg x Ef). now constructor.
  - destruct (g x); [now constructor|exact IH].
Qed.

(** X20: widening the filter never loses an icon: with a larger maximum
    and an allow-list that admits at least the same sizes (or none at all),
    a filter that succeeded still succeeds, and keeps the icons it kept, in
    the same order, among those it now keeps. *)
Theorem filter_icons_monotone (icons : list PngIcon)
    (include_sizes include_sizes' : option (gset Z)) (max_size max_size' : Z)
    (result : list PngIcon) :
  max_size <= max_size' ->
  (forall s, in_sizes include_sizes s = true -> in_sizes include_sizes' s = true) ->
  filter_icons icons include_sizes max_size = Ok result ->
  exists result',
    filter_icons icons include_sizes' max_size' = Ok result'
    /\ sublist result result'.
Proof.
  intros Hmax Hinc. rewrite !filter_icons_spec.
  assert (Hk : forall icon, kept include_sizes max_size icon = true ->
                            kept include_sizes' max_size' icon = true).
  { intros icon. rewrite !kept_eq, !andb_true_iff, !negb_true_iff, !gtb_false.
    intros [H1 H2]. split; [lia|now apply Hinc]. }
  pose proof (filter_sublist _ _ icons Hk) as Hsub.
  destruct (List.filter (kept include_sizes max_size) icons) as [|x r];
    [discriminate|].
  intros [= <-].
  destruct (List.filter (kept include_sizes' max_size') icons) as [|x' r'].
  - apply sublist_nil_r in Hsub. discriminate.
  - now eexists.
Qed.

Lemma filter_icons_monotone_witness :
  exists result',
    filter_icons [sample_icon "a" 16; sample_icon "b" 300] None 512 = Ok result'
    /\ sublist [sample_icon "a" 16] result'.
Proof.
  refine (filter_icons_monotone [sample_icon "a" 16; sample_icon "b" 300]
            (Some {[16]}) None 256 512 [sample_icon "a" 16] _ _ _).
  - lia.
  - reflexivity.
  - vm_compute. reflexivity.
Defined.

(** ** One file, one set of images *)

Lemma out_count icons :
  len icons <= 65535 ->
  field (ico_header (len icons) ++ ico_directory icons ++ payloads icons) 4 2
  = len icons.
Proof.
  intros Hn. unfold field. rewrite slice_app_l by (cbn; lia).
  apply (decode_le16 (len icons)). pose proof (len_nonneg icons). lia.
Qed.

Lemma out_payload_by_fields icons out i icon :
  build_ico icons = Ok out -> icons !! i = Some icon ->
  data icon
  = slice out (Z.to_nat (field out (6 + 16 * i + 12) 4))
              (Z.to_nat (field out (6 + 16 * i + 12) 4
                         + field out (6 + 16 * i + 8) 4))
  /\ byte_of_Z (ico_size_byte (size icon))
     = byte_of_Z (field out (6 + 16 * i) 1)
  /\ 0 <= size icon <= 256.
Proof.
  intros Hout Hi. apply build_ico_Ok_inv in Hout as (Hn & Hfit & ->).
  pose proof (proj1 (fits_from_entry_offset icons) Hfit i icon Hi) as Hf.
  destruct (out_fields icons i icon Hi Hf) as [Hlen Hoff].
  cbn zeta in Hlen, Hoff. rewrite Hlen, Hoff.
  split; [symmetry; now apply out_payload_slice|].
  destruct Hf as (Hs & _). split; [|exact Hs].
  pose proof (out_entry_slice icons i icon 0 1 Hi ltac:(lia)) as E0.
  rewrite Nat.add_0_r in E0. unfold field. rewrite E0.
  change (slice (ico_entry icon (entry_offset icons i)) 0 1)
    with [byte_of_Z (ico_size_byte (size icon))].
  now rewrite (decode_le_byte _ (ico_size_byte_range _ Hs)).
Qed.

Lemma ico_size_byte_inj s t :
  1 <= s <= 256 -> 1 <= t <= 256 ->
  byte_of_Z (ico_size_byte s) = byte_of_Z (ico_size_byte t) -> s = t.
Proof.
  intros Hs Ht H. apply (f_equal byte_to_Z) in H.
  rewrite !byte_to_of_Z in H. unfold ico_size_byte in H.
  destruct (Z.eqb_spec s 256), (Z.eqb_spec t 256); subst; auto;
    rewrite ?(Z.mod_small s), ?(Z.mod_small t) in H by lia;
    change (0 mod 256) with 0 in H; lia.
Qed.

(** X21: an ICO file comes from one list of images only: two icon lists
    that encode to the same bytes have the same payloads in the same
    order, and, when no size is 0, the same sizes.  (Sizes 0 and 256 share
    the size byte 0.) *)
Theorem build_ico_injective (a b : list PngIcon) (out : bytes) :
  build_ico a = Ok out -> build_ico b = Ok out ->
  map data a = map data b
  /\ (Forall (fun icon => size icon <> 0) a ->
      Forall (fun icon => size icon <> 0) b ->
      map size a = map size b)
  /\ build_ico [mkPngIcon "a" 0 []] = build_ico [mkPngIcon "a" 256 []].
Proof.
  intros Ha Hb.
  assert (Hlen : length a = length b).
  { pose proof Ha as Ha'. pose proof Hb as Hb'.
    apply build_ico_Ok_inv in Ha' as (Hna & _ & Ea).
    apply build_ico_Ok_inv in Hb' as (Hnb & _ & Eb).
    pose proof (out_count a Hna) as Ca. pose proof (out_count b Hnb) as Cb.
    rewrite <- Ea in Ca. rewrite <- Eb in Cb. unfold len in *. lia. }
  split; [|split; [|reflexivity]].
  - apply list_eq. intros i. rewrite !list_lookup_fmap.
    destruct (a !! i) as [x|] eqn:Ex, (b !! i) as [y|] eqn:Ey; cbn.
    + destruct (out_payload_by_fields a out i x Ha Ex) as (-> & _).
      now destruct (out_payload_by_fields b out i y Hb Ey) as (-> & _).
    + apply lookup_lt_Some in Ex. apply lookup_ge_None in Ey. lia.
    + apply lookup_lt_Some in Ey. apply lookup_ge_None in Ex. lia.
    + reflexivity.
  - intros Hza Hzb. apply list_eq. intros i. rewrite !list_lookup_fmap.
    destruct (a !! i) as [x|] eqn:Ex, (b !! i) as [y|] eqn:Ey; cbn.
    + destruct (out_payload_by_fields a out i x Ha Ex) as (_ & Hx & Hrx).
      destruct (out_payload_by_fields b out i y Hb Ey) as (_ & Hy & Hry).
      rewrite Forall_forall in Hza, Hzb.
      assert (size x <> 0) by (apply Hza, list_elem_of_lookup; eauto).
      assert (size y <> 0) by (apply Hzb, list_elem_of_lookup; eauto).
      f_equal. apply ico_size_byte_inj; [lia|lia|congruence].
    + apply lookup_lt_Some in Ex. apply lookup_ge_None in Ey. lia.
    + apply lookup_lt_Some in Ey. apply lookup_ge_None in Ex. lia.
    + reflexivity.
Qed.

Lemma build_ico_injective_witness :
  map data [sample_icon "a" 16] = map data [sample_icon "b" 16].
Proof.
  refine (proj1 (build_ico_injective [sample_icon "a" 16] [sample_icon "b" 16]
                   _ _ _)).
  - vm_compute. reflexivity.
  - vm_compute. reflexivity.
Defined.

(** * The default-size preference in a run *)

Lemma elem_of_first_occurrences (x : Z) (l : list Z) :
  x ∈ first_occurrences l <-> x ∈ l.
Proof.
  induction l as [|y l IH]; [reflexivity|].
  cbn [first_occurrences]. rewrite !elem_of_cons, list_elem_of_In, filter_In.
  rewrite <- list_elem_of_In, IH, negb_true_iff, Z.eqb_neq.
  destruct (Z.eq_dec x y); tauto.
Qed.

Lemma preferred_discovered_dec (icons : list PngIcon) :
  (exists v, preferred_and_discovered icons v)
  \/ ~ (exists v, preferred_and_discovered icons v).
Proof.
  destruct (decide (Exists (fun v => v ∈ map size icons)
                           DEFAULT_ICO_SIZES_DESC)) as [H|H].
  - left. apply Exists_exists in H as (v & Hv & Hd). now exists v.
  - right. intros (v & Hv & Hd). apply H, Exists_exists. now exists v.
Qed.

(** Without a size list and without explicit inputs, the sizes selected are
    the discovered sizes within the maximum, restricted to the preferred
    ones as soon as one of those was discovered. *)
Lemma discovery_mode_sizes args icons0 icons ico :
  opt_list_truthy (inputs args) = false ->
  select_and_encode args None icons0 = Ok (icons, ico) ->
  forall s, s ∈ map size icons <->
    s ∈ map size icons0 /\ s <= max_size args
    /\ ((exists v, preferred_and_discovered icons0 v) ->
        s ∈ DEFAULT_ICO_SIZES_DESC).
Proof.
  intros Hin Hsel s.
  destruct (select_and_encode_inv _ _ _ _ _ Hsel) as (_ & -> & _).
  set (allowed := prefer_default_sizes None (inputs args) icons0).
  set (filtered := List.filter (kept allowed (max_size args)) icons0).
  destruct (sorted_size_facts (String.eqb (order args) "desc")
              (unique_by_size filtered)) as (Hperm & _).
  unfold sort_icons. rewrite Hperm, unique_by_size_sizes.
  rewrite elem_of_first_occurrences.
  assert (Hf : s ∈ map size filtered <->
               exists icon, icon ∈ icons0 /\ size icon = s
                            /\ kept allowed (max_size args) icon = true).
  { rewrite list_elem_of_fmap. unfold filtered. split.
    - intros (icon & -> & Hi). apply list_elem_of_In, filter_In in Hi as [H1 H2].
      exists icon. now rewrite list_elem_of_In.
    - intros (icon & Hi & <- & Hk). exists icon. split; [reflexivity|].
      apply list_elem_of_In, filter_In. now rewrite <- list_elem_of_In. }
  rewrite Hf. clear Hf.
  destruct (prefer_default_sizes_spec (inputs args) icons0 Hin) as [Hsome Hnone].
  fold allowed in Hsome, Hnone.
  destruct (preferred_discovered_dec icons0) as [Hex|Hno].
  - destruct (Hsome Hex) as (sizes & -> & Hsizes). split.
    + intros (icon & Hi & <- & Hk). apply kept_spec in Hk as [Hmax Hk].
      specialize (Hk sizes eq_refl). apply Hsizes in Hk as [Hd Hm].
      auto.
    + intros (Hm & Hmax & Hd). apply list_elem_of_fmap in Hm as (icon & -> & Hi).
      exists icon. split; [exact Hi|]. split; [reflexivity|].
      apply kept_spec. split; [exact Hmax|]. intros ? [= <-].
      apply Hsizes. split; [now apply Hd|].
      apply list_elem_of_fmap. now exists icon.
  - rewrite (Hnone Hno). split.
    + intros (icon & Hi & <- & Hk). apply kept_spec in Hk as [Hmax _].
      split; [apply list_elem_of_fmap; now exists icon|].
      split; [exact Hmax|]. intros Hex. contradiction.
    + intros (Hm & Hmax & _). apply list_elem_of_fmap in Hm as (icon & -> & Hi).
      exists icon. split; [exact Hi|]. split; [reflexivity|].
      apply kept_spec. split; [exact Hmax|]. discriminate.
Qed.

Lemma discovery_mode_run args w icons ico w1 :
  parse_sizes (sizes args) = Ok None ->
  opt_list_truthy (inputs args) = false ->
  pipeline args w = (Ok (icons, ico), w1) ->
  exists paths icons0,
    (discover_pngs (icons_dir args) (inputs args) w).1 = Ok paths
    /\ Forall2 (fun p icon => read_result w p = Ok icon) paths icons0
    /\ forall s, s ∈ map size icons <->
         s ∈ map size icons0 /\ s <= max_size args
         /\ ((exists v, preferred_and_discovered icons0 v) ->
             s ∈ DEFAULT_ICO_SIZES_DESC).
Proof.
  intros Hs Hin Hp.
  destruct (pipeline_inv _ _ _ _ _ Hp)
    as (include_sizes & paths & w0 & icons0 & Hs' & Hd & _ & Hread & Hsel).
  rewrite Hs in Hs'. injection Hs' as <-.
  exists paths, icons0. split; [now rewrite Hd|]. split; [exact Hread|].
  exact (discovery_mode_sizes args icons0 icons ico Hin Hsel).
Qed.

(** ** An empty list of explicit inputs *)


(** ** The end-to-end scenario *)

Lemma build_ico_unfit icons :
  len icons <= 65535 -> Forall (fun icon => size icon <= 256) icons ->
  ~ fits_from icons (6 + 16 * len icons) ->
  build_ico icons = Raise StructError.
Proof.
  intros Hn Hs Hfit. destruct (build_ico icons) as [e|out] eqn:Eb.
  - destruct (build_ico_error icons e Eb) as [[_ H]|[->|(icon & Hi & H & _)]];
      [lia|reflexivity|].
    rewrite Forall_forall in Hs. specialize (Hs icon Hi). lia.
  - apply build_ico_Ok_inv in Eb as (_ & H & _). contradiction.
Qed.

Lemma huge_png_accepted : accepted_png huge_png /\ png_width huge_png = 16.
Proof.
  assert (Hs : forall a b, (b <= 33)%nat ->
                 slice huge_png a b = slice (sample_png 16) a b).
  { intros a b Hb. unfold huge_png. now apply slice_app_l. }
  split; [constructor|]; unfold png_width, png_height, ihdr_length;
    rewrite ?huge_png_len, ?Hs by lia; try reflexivity; try lia;
    vm_compute; discriminate.
Qed.

Section Scenario.
Variable w : World.
Variables d16 d32 d256 : bytes.

Hypothesis glob3 :
  Permutation (glob_glob w "public/icons/icon-*.png")
              [icon16_path; icon32_path; icon256_path].
Hypothesis file16 : files w !! file_id w icon16_path = Some d16.
Hypothesis file32 : files w !! file_id w icon32_path = Some d32.
Hypothesis file256 : files w !! file_id w icon256_path = Some d256.
Hypothesis png16 : accepted_png d16 /\ png_width d16 = 16.
Hypothesis png32 : accepted_png d32 /\ png_width d32 = 32.
Hypothesis png256 : accepted_png d256 /\ png_width d256 = 256.

Lemma scenario_paths :
  sorted_str (glob_glob w "public/icons/icon-*.png")
  = [icon16_path; icon256_path; icon32_path].
Proof.
  apply (sorted_unique str_le).
  - intros a b. apply String.leb_antisym.
  - apply (sort_by_sorted String.leb leb_false_flip leb_trans).
  - repeat constructor.
  - unfold sorted_str. rewrite sort_by_perm, glob3.
    constructor. apply perm_swap.
Qed.

Lemma scenario_read p d s :
  files w !! file_id w p = Some d ->
  accepted_png d /\ png_width d = s ->
  read_result w p = Ok (mkPngIcon p s d).
Proof.
  intros Hf [Ha Hs]. unfold read_result. rewrite Hf.
  apply parse_png_Ok_iff. split; [exact Ha|now rewrite Hs].
Qed.

Lemma scenario_discover :
  discover_pngs "public/icons" None w
  = (Ok [icon16_path; icon256_path; icon32_path],
     log (Glob "public/icons/icon-*.png") w).
Proof.
  unfold discover_pngs.
  change (path_join "public/icons" "icon-*.png")
    with "public/icons/icon-*.png".
  now rewrite scenario_paths.
Qed.

Lemma scenario_read_all :
  read_all w [icon16_path; icon256_path; icon32_path]
  = (Ok (icons_as_read d16 d32 d256),
     [icon16_path; icon256_path; icon32_path]).
Proof.
  cbn [read_all].
  rewrite (scenario_read icon16_path d16 16 file16 png16).
  rewrite (scenario_read icon256_path d256 256 file256 png256).
  rewrite (scenario_read icon32_path d32 32 file32 png32).
  reflexivity.
Qed.

(** Up to the encoder, the run is decided: the three icons are selected and
    sorted, largest first. *)
Lemma scenario_pipeline :
  pipeline default_args w
  = (let* ico_bytes := build_ico (icons_in_directory d16 d32 d256) in
     Ok (icons_in_directory d16 d32 d256, ico_bytes),
     log (OpenRead icon32_path)
       (log (OpenRead icon256_path)
          (log (OpenRead icon16_path)
             (log (Glob "public/icons/icon-*.png") w)))).
Proof.
  unfold pipeline, bindIO, liftR.
  change (sizes default_args) with (@None string).
  change (icons_dir default_args) with "public/icons".
  change (inputs default_args) with (@None (list string)).
  cbn [parse_sizes Ok]. rewrite scenario_discover. cbn [Ok list_truthy negb].
  rewrite mapIO_read_png_spec.
  rewrite (read_all_files w (log (Glob "public/icons/icon-*.png") w) _
             eq_refl eq_refl).
  rewrite scenario_read_all. reflexivity.
Qed.

Lemma scenario_payloads :
  payloads (icons_in_directory d16 d32 d256) = d256 ++ d32 ++ d16.
Proof.
  unfold payloads, icons_in_directory. cbn [map concat data].
  now rewrite app_nil_r.
Qed.

(** The directory holds the lengths and the offsets of the three payloads
    when the 32-bit fields can. *)
Lemma scenario_fits :
  fits_from (icons_in_directory d16 d32 d256)
            (6 + 16 * len (icons_in_directory d16 d32 d256))
  <-> 54 + len d256 + len d32 <= 4294967295 /\ len d16 <= 4294967295.
Proof.
  destruct png16 as [[] _], png32 as [[] _], png256 as [[] _].
  change (len (icons_in_directory d16 d32 d256)) with 3.
  unfold icons_in_directory. cbn [fits_from]. unfold fits.
  cbn [size data]. lia.
Qed.

Lemma scenario_output :
  54 + len d256 + len d32 <= 4294967295 /\ len d16 <= 4294967295 ->
  build_ico (icons_in_directory d16 d32 d256)
  = Ok (ico_header 3 ++ ico_directory (icons_in_directory d16 d32 d256)
        ++ d256 ++ d32 ++ d16).
Proof.
  intros Hfit.
  rewrite (build_ico_fits (icons_in_directory d16 d32 d256)
             ltac:(cbv; discriminate) (proj2 scenario_fits Hfit)).
  now rewrite scenario_payloads.
Qed.

(** Otherwise the encoder fails in [struct.pack], and so does the run. *)
Lemma scenario_no_output :
  ~ (54 + len d256 + len d32 <= 4294967295 /\ len d16 <= 4294967295) ->
  (pipeline default_args w).1 = Raise StructError
  /\ (main default_args w).1 = Return 1
  /\ files (main default_args w).2 = files w.
Proof.
  intros Hfit.
  assert (Hb : build_ico (icons_in_directory d16 d32 d256) = Raise StructError).
  { apply build_ico_unfit.
    - cbv. discriminate.
    - repeat constructor; cbn [size]; lia.
    - intros H. now apply Hfit, scenario_fits. }
  pose proof scenario_pipeline as Hp. rewrite Hb in Hp. cbn [bindR] in Hp.
  destruct (main_failure default_args w _ _ Hp) as (Hm & Hf & _).
  rewrite Hp, Hm. auto.
Qed.

(** C3 (amended): with no explicit size set and no explicit inputs, the
    allow-list becomes the preferred sizes {256,128,64,48,32,24,16} that
    were discovered, if there is any, and stays absent otherwise, and the
    run selects accordingly: the sizes in its directory are the discovered
    sizes within the maximum, restricted to the preferred ones as soon as
    one of those was discovered.  For icons of sizes 16, 32 and 256 the
    default run selects all three, largest first; when the lengths and the
    offsets of the payloads fit the 32-bit fields of the directory, it
    outputs, and writes, an ICO with count field 3, three directory entries
    in the order [256,32,16] (width bytes 0, 32, 16) and a length of
    6 + 48 + the three file lengths; when they do not fit, it fails in
    [struct.pack], returns 1 and writes nothing. *)
Theorem default_sizes_scenario :
  (forall inputs icons,
     opt_list_truthy inputs = false ->
     ((exists v, preferred_and_discovered icons v) ->
      exists sizes,
        prefer_default_sizes None inputs icons = Some sizes
        /\ forall v, v ∈ sizes <-> preferred_and_discovered icons v)
     /\ (~ (exists v, preferred_and_discovered icons v) ->
         prefer_default_sizes None inputs icons = None))
  /\ DEFAULT_ICO_SIZES_DESC = [256; 128; 64; 48; 32; 24; 16]
  /\ (forall args w0 icons ico w1,
        parse_sizes (sizes args) = Ok None ->
        opt_list_truthy (inputs args) = false ->
        pipeline args w0 = (Ok (icons, ico), w1) ->
        exists paths icons0,
          (discover_pngs (icons_dir args) (inputs args) w0).1 = Ok paths
          /\ Forall2 (fun p icon => read_result w0 p = Ok icon) paths icons0
          /\ forall s, s ∈ map size icons <->
               s ∈ map size icons0 /\ s <= max_size args
               /\ ((exists v, preferred_and_discovered icons0 v) ->
                   s ∈ DEFAULT_ICO_SIZES_DESC))
  /\ let icons3 := icons_in_directory d16 d32 d256 in
     let ico3 := ico_header 3 ++ ico_directory icons3 ++ d256 ++ d32 ++ d16 in
     let fit := 54 + len d256 + len d32 <= 4294967295
                /\ len d16 <= 4294967295 in
     (forall icons ico,
        (pipeline default_args w).1 = Ok (icons, ico) ->
        icons = icons3 /\ ico = ico3)
     /\ map size icons3 = [256; 32; 16]
     /\ field ico3 4 2 = 3
     /\ length (ico_directory icons3) = (3 * 16)%nat
     /\ (field ico3 6 1 = 0 /\ field ico3 22 1 = 32 /\ field ico3 38 1 = 16)
     /\ len ico3 = 6 + 48 + (len d16 + len d32 + len d256)
     /\ ((pipeline default_args w).1 = Ok (icons3, ico3) <-> fit)
     /\ (fit -> writable w (output default_args) = true ->
         (main default_args w).1 = Return 0
         /\ files (main default_args w).2
            = <[file_id w (output default_args) := ico3]> (files w))
     /\ (~ fit ->
         (pipeline default_args w).1 = Raise StructError
         /\ (main default_args w).1 = Return 1
         /\ files (main default_args w).2 = files w).
Proof.
  split; [exact prefer_default_sizes_spec|]. split; [reflexivity|].
  split; [exact discovery_mode_run|].
  intros icons3 ico3 fit.
  assert (Hout : forall icons ico,
            (pipeline default_args w).1 = Ok (icons, ico) ->
            icons = icons3 /\ ico = ico3 /\ build_ico icons3 = Ok ico3).
  { intros icons ico. rewrite scenario_pipeline. cbn [fst]. fold icons3.
    destruct (build_ico icons3) as [e|out] eqn:Eb; cbn [bindR];
      [discriminate|].
    intros [= <- <-]. split; [reflexivity|].
    apply build_ico_Ok_inv in Eb as (_ & _ & ->).
    unfold icons3, ico3. now rewrite scenario_payloads. }
  assert (Hp : fit ->
               pipeline default_args w
               = (Ok (icons3, ico3),
                  log (OpenRead icon32_path)
                    (log (OpenRead icon256_path)
                       (log (OpenRead icon16_path)
                          (log (Glob "public/icons/icon-*.png") w)))))
    by (intros Hfit; rewrite scenario_pipeline; unfold icons3, ico3;
        now rewrite (scenario_output Hfit)).
  split; [intros icons ico H; destruct (Hout icons ico H) as (? & ? & _); auto|].
  split; [reflexivity|]. split; [reflexivity|]. split; [reflexivity|].
  split; [repeat split|]. split; [|split; [|split]].
  - unfold ico3. rewrite !len_app.
    change (len (ico_header 3)) with 6.
    change (len (ico_directory icons3)) with 48. lia.
  - split.
    + intros H. destruct (Hout _ _ H) as (_ & _ & Hb).
      apply build_ico_Ok_inv in Hb as (_ & Hfit & _).
      now apply scenario_fits.
    + intros Hfit. now rewrite (Hp Hfit).
  - intros Hfit Hw.
    destruct (main_success default_args w _ _ _ (Hp Hfit) Hw) as (Hr & Hf & _).
    split; [exact Hr|exact Hf].
  - exact scenario_no_output.
Qed.
End Scenario.

Lemma sample_png_accepted s :
  In s [16; 32; 256] -> accepted_png (sample_png s) /\ png_width (sample_png s) = s.
Proof.
  intros [<-|[<-|[<-|[]]]]; (split; [constructor|]); try reflexivity;
    vm_compute; discriminate.
Qed.

(** C3, as stated, fails: three accepted icons of sizes 16, 32 and 256 that
    the default glob lists, the first a file of 2^32 bytes, give no ICO at
    all: the encoder fails in [struct.pack], [main] returns 1 and no file
    is written. *)
Lemma default_sizes_scenario_counterexample :
  Permutation (glob_glob world3_huge "public/icons/icon-*.png")
              [icon16_path; icon32_path; icon256_path]
  /\ (read_png icon16_path world3_huge).1
     = Ok (mkPngIcon icon16_path 16 huge_png)
  /\ (read_png icon32_path world3_huge).1 = Ok (sample_icon icon32_path 32)
  /\ (read_png icon256_path world3_huge).1 = Ok (sample_icon icon256_path 256)
  /\ (pipeline default_args world3_huge).1 = Raise StructError
  /\ (main default_args world3_huge).1 = Return 1
  /\ files (main default_args world3_huge).2 = files world3_huge
  /\ ~ exists icons ico,
         (pipeline default_args world3_huge).1 = Ok (icons, ico).
Proof.
  assert (Hg : Permutation (glob_glob world3_huge "public/icons/icon-*.png")
                           [icon16_path; icon32_path; icon256_path]).
  { change (glob_glob world3_huge "public/icons/icon-*.png")
      with [icon32_path; icon256_path; icon16_path].
    apply perm_trans with [icon32_path; icon16_path; icon256_path];
      [constructor; apply perm_swap|apply perm_swap]. }
  assert (H16 : files world3_huge !! file_id world3_huge icon16_path
                = Some huge_png).
  { change (files world3_huge !! file_id world3_huge icon16_path)
      with (<[icon16_path := huge_png]> (files world3) !! icon16_path).
    apply lookup_insert_eq. }
  assert (H32 : files world3_huge !! file_id world3_huge icon32_path
                = Some (sample_png 32)).
  { change (files world3_huge !! file_id world3_huge icon32_path)
      with (<[icon16_path := huge_png]> (files world3) !! icon32_path).
    rewrite lookup_insert_ne by (unfold icon16_path, icon32_path; discriminate).
    reflexivity. }
  assert (H256 : files world3_huge !! file_id world3_huge icon256_path
                 = Some (sample_png 256)).
  { change (files world3_huge !! file_id world3_huge icon256_path)
      with (<[icon16_path := huge_png]> (files world3) !! icon256_path).
    rewrite lookup_insert_ne by (unfold icon16_path, icon256_path; discriminate).
    reflexivity. }
  pose proof huge_png_accepted as P16.
  pose proof (sample_png_accepted 32 ltac:(right; now left)) as P32.
  pose proof (sample_png_accepted 256 ltac:(right; right; now left)) as P256.
  assert (Hno : ~ (54 + len (sample_png 256) + len (sample_png 32)
                   <= 4294967295 /\ len huge_png <= 4294967295))
    by (rewrite huge_png_len; lia).
  destruct (scenario_no_output world3_huge huge_png (sample_png 32)
              (sample_png 256) Hg H16 H32 H256 P16 P32 P256 Hno)
    as (Hp & Hm & Hf).
  split; [exact Hg|].
  rewrite !read_png_result. cbn [fst].
  split; [exact (scenario_read world3_huge icon16_path huge_png 16 H16 P16)|].
  split; [exact (scenario_read world3_huge icon32_path _ 32 H32 P32)|].
  split; [exact (scenario_read world3_huge icon256_path _ 256 H256 P256)|].
  split; [exact Hp|]. split; [exact Hm|]. split; [exact Hf|].
  intros (icons & ico & H). rewrite Hp in H. discriminate.
Qed.

Lemma default_sizes_scenario_witness :
  (main default_args world3).1 = Return 0
  /\ files (main default_args world3).2 !! "public/icons/favicon.ico"
     = Some (ico_header 3
             ++ ico_directory (icons_in_directory (sample_png 16)
                                 (sample_png 32) (sample_png 256))
             ++ sample_png 256 ++ sample_png 32 ++ sample_png 16).
Proof.
  pose proof (default_sizes_scenario world3
                (sample_png 16) (sample_png 32) (sample_png 256)) as H.
  destruct H as (_ & _ & _ & H).
  - change (glob_glob world3 "public/icons/icon-*.png")
      with [icon32_path; icon256_path; icon16_path].
    apply perm_trans with [icon32_path; icon16_path; icon256_path];
      [constructor; apply perm_swap|apply perm_swap].
  - reflexivity.
  - reflexivity.
  - reflexivity.
  - apply sample_png_accepted. now left.
  - apply sample_png_accepted. now right; left.
  - apply sample_png_accepted. now right; right; left.
  - cbv zeta in H. destruct H as (_ & _ & _ & _ & _ & _ & _ & H & _).
    destruct (H ltac:(split; vm_compute; discriminate) eq_refl) as [Hr Hf].
    split; [exact Hr|].
    rewrite Hf. apply lookup_insert_eq.
Defined.
